(** * Hazelcast Node.js client: codecs, proxies and the listener service

    A shallow embedding of
      - src/codec/AtomicLongAlterCodec.ts,
      - src/proxy/cpsubsystem/BaseCPProxy.ts,
      - src/proxy/ringbuffer/RingbufferProxy.ts (readOne, readMany),
      - the ListenerService class,
    together with the properties the specification states about them and
    further properties of the same code: invariants of the listener tables,
    the outcome of each callback chain, the layout of the codec's request.

    JavaScript numbers are modelled as integers ([Z]); fractions, NaN and
    infinities are outside the model.  [Long] values are integers too. *)

From Stdlib Require Import ZArith List String Ascii Bool Lia DecimalString RelationClasses.
From coqutil Require Import Byte Word.LittleEndianList.
Import ListNotations.

Local Open Scope string_scope.
Local Open Scope list_scope.
Local Open Scope Z_scope.

(** ** Exceptions and completions *)

(** The error classes the embedded sources throw or inspect.  [instanceof]
    is decided on the constructor. *)
Inductive Exception : Type :=
| RangeError (message : string)
| TypeError (message : string)
| UnsupportedOperationError (message : string)
| HazelcastError (message : string) (cause : Exception)
| ClientNotActiveError (message : string)
| IOError (message : string)
| TargetDisconnectedError (message : string)
| OtherError (name message : string).

(** A call either returns a value or throws. *)
Inductive Completion (A : Type) : Type :=
| Returns (a : A)
| Throws (e : Exception).
Arguments Returns {A} a.
Arguments Throws {A} e.

(** String conversion of a number, as [+] with a string operand does for an
    integer: its decimal digits.  (From 1e21 on JavaScript prints a number
    in exponent form; such magnitudes are outside the model.) *)
Definition toString (n : Z) : string := NilZero.string_of_int (Z.to_int n).

(** ** Byte buffers *)

Module BitsUtil.
Definition BYTE_SIZE_IN_BYTES : nat := 1.
Definition INT_SIZE_IN_BYTES : nat := 4.
Definition LONG_SIZE_IN_BYTES : nat := 8.
End BitsUtil.

Module Buffer.
Definition t := list byte.

Definition alloc (size : nat) : t := repeat Byte.x00 size.

(** [write buf offset bs] overwrites the bytes [bs] at [offset]; Node
    raises a RangeError when the bytes do not fit, here [None]. *)
Definition write (buf : t) (offset : nat) (bs : list byte) : option t :=
  if (offset + List.length bs <=? List.length buf)%nat
  then Some (firstn offset buf ++ bs ++ skipn (offset + List.length bs) buf)
  else None.

Definition read (buf : t) (offset n : nat) : option (list byte) :=
  if (offset + n <=? List.length buf)%nat
  then Some (firstn n (skipn offset buf))
  else None.

(** Two's complement reading of a [bits]-wide unsigned value. *)
Definition signed (bits : Z) (u : Z) : Z :=
  if u <? 2 ^ (bits - 1) then u else u - 2 ^ bits.

(** Node raises a RangeError (ERR_OUT_OF_RANGE) as well when [value] is not
    a signed 32-bit integer: here [None]. *)
Definition writeInt32LE (buf : t) (value : Z) (offset : nat) : option t :=
  if (- 2 ^ 31 <=? value) && (value <? 2 ^ 31)
  then write buf offset (le_split 4 value)
  else None.

Definition readInt32LE (buf : t) (offset : nat) : option Z :=
  option_map (fun bs => signed 32 (le_combine bs)) (read buf offset 4).

Definition writeInt64LE (buf : t) (value : Z) (offset : nat) : option t :=
  write buf offset (le_split 8 value).

Definition readInt64LE (buf : t) (offset : nat) : option Z :=
  option_map (fun bs => signed 64 (le_combine bs)) (read buf offset 8).
End Buffer.

(** ** Client messages *)

(** Modelled from the spec: protocol/ClientMessage.ts (Frame, ClientMessage
    and the header offsets) is not among the sources.  Section 3 and 4.1 of
    the specification: a message is an ordered sequence of frames;
    [createForEncode] produces an empty message, [addFrame] appends,
    [setMessageType] and [setPartitionId] mutate the initial frame's header
    region in place at fixed byte offsets, [setRetryable] sets the message's
    retryable flag.  The offsets are "fixed constants derived from a common
    initial-frame layout"; their values are not given, so they are the
    fields of [Layout].  Nor is the retryable flag of a message that no
    encoder has set yet: it is the field [initiallyRetryable]. *)
Class Layout : Type := {
  TYPE_FIELD_OFFSET : nat;
  CORRELATION_ID_OFFSET : nat;
  PARTITION_ID_OFFSET : nat;
  RESPONSE_BACKUP_ACKS_OFFSET : nat;
  initiallyRetryable : bool
}.

Record Frame : Type := mkFrame { content : Buffer.t }.

Record ClientMessage : Type := mkClientMessage {
  frames : list Frame;
  retryable : bool
}.

Module Import Message.
Section WithLayout.
Context {L : Layout}.

Definition createInitialFrame (size : nat) : Frame :=
  mkFrame (Buffer.alloc size).

Definition createForEncode : ClientMessage := mkClientMessage [] initiallyRetryable.

Definition addFrame (m : ClientMessage) (f : Frame) : ClientMessage :=
  mkClientMessage (frames m ++ [f]) (retryable m).

Definition setRetryable (m : ClientMessage) (value : bool) : ClientMessage :=
  mkClientMessage (frames m) value.

Definition isRetryable (m : ClientMessage) : bool := retryable m.

(** The header setters write into the start frame; without one the
    property access on [undefined] throws, here [None]. *)
Definition updateStartFrame (m : ClientMessage)
    (f : Buffer.t -> option Buffer.t) : option ClientMessage :=
  match frames m with
  | [] => None
  | start :: rest =>
      option_map (fun c => mkClientMessage (mkFrame c :: rest) (retryable m))
                 (f (content start))
  end.

Definition readStartFrame {A} (m : ClientMessage)
    (f : Buffer.t -> option A) : option A :=
  match frames m with
  | [] => None
  | start :: _ => f (content start)
  end.

Definition setMessageType (m : ClientMessage) (type : Z) : option ClientMessage :=
  updateStartFrame m (fun c => Buffer.writeInt32LE c type TYPE_FIELD_OFFSET).

Definition getMessageType (m : ClientMessage) : option Z :=
  readStartFrame m (fun c => Buffer.readInt32LE c TYPE_FIELD_OFFSET).

Definition setPartitionId (m : ClientMessage) (partitionId : Z) : option ClientMessage :=
  updateStartFrame m (fun c => Buffer.writeInt32LE c partitionId PARTITION_ID_OFFSET).

Definition getPartitionId (m : ClientMessage) : option Z :=
  readStartFrame m (fun c => Buffer.readInt32LE c PARTITION_ID_OFFSET).

Definition setCorrelationId (m : ClientMessage) (correlationId : Z) : option ClientMessage :=
  updateStartFrame m (fun c => Buffer.writeInt64LE c correlationId CORRELATION_ID_OFFSET).

Definition getCorrelationId (m : ClientMessage) : option Z :=
  readStartFrame m (fun c => Buffer.readInt64LE c CORRELATION_ID_OFFSET).
End WithLayout.
End Message.

(** Modelled from the spec: codec/builtin/FixSizedTypesCodec.ts,
    StringCodec.ts and DataCodec.ts are not among the sources.  Section 4.1:
    fixed-size codecs write multi-byte integers at an offset in one
    endianness (little-endian here); variable-length codecs append the
    value as a frame of its own.  [encodeInt] writes with the Buffer's
    [writeInt32LE], which refuses a value that is not a signed 32-bit
    integer; a 64-bit value is written modulo 2^64. *)
Module FixSizedTypesCodec.
Definition encodeInt (f : Frame) (offset : nat) (value : Z) : option Frame :=
  option_map mkFrame (Buffer.writeInt32LE (content f) value offset).
Definition decodeInt (f : Frame) (offset : nat) : option Z :=
  Buffer.readInt32LE (content f) offset.
Definition encodeLong (f : Frame) (offset : nat) (value : Z) : option Frame :=
  option_map mkFrame (Buffer.writeInt64LE (content f) value offset).
Definition decodeLong (f : Frame) (offset : nat) : option Z :=
  Buffer.readInt64LE (content f) offset.
End FixSizedTypesCodec.

Definition Data := Buffer.t.

Module StringCodec.
Definition utf8 (s : string) : Buffer.t := list_byte_of_string s.
Definition encode (m : ClientMessage) (value : string) : ClientMessage :=
  addFrame m (mkFrame (utf8 value)).
End StringCodec.

Module DataCodec.
Definition encode (m : ClientMessage) (value : Data) : ClientMessage :=
  addFrame m (mkFrame value).
End DataCodec.

Record RaftGroupId : Type := mkRaftGroupId {
  groupName : string;
  groupSeed : Z;
  groupRaftId : Z
}.

(** ** AtomicLongAlterCodec *)

Module AtomicLongAlterCodec.
Section WithLayout.
Context {L : Layout}.

(** Modelled from the spec: codec/custom/RaftGroupIdCodec.ts is not among
    the sources.  Section 4.1: a composite codec calls child codecs in a
    fixed order, each appending frames; [raftGroupIdFrames] stands for the
    frames it appends for a group id. *)
Variable raftGroupIdFrames : RaftGroupId -> list Frame.

Definition RaftGroupIdCodec_encode (m : ClientMessage) (g : RaftGroupId) : ClientMessage :=
  fold_left addFrame (raftGroupIdFrames g) m.

(* hex: 0x090200 *)
Definition REQUEST_MESSAGE_TYPE : Z := 590336.
(* hex: 0x090201 *)
Definition RESPONSE_MESSAGE_TYPE : Z := 590337.

Definition REQUEST_RETURN_VALUE_TYPE_OFFSET : nat :=
  (PARTITION_ID_OFFSET + BitsUtil.INT_SIZE_IN_BYTES)%nat.
Definition REQUEST_INITIAL_FRAME_SIZE : nat :=
  (REQUEST_RETURN_VALUE_TYPE_OFFSET + BitsUtil.INT_SIZE_IN_BYTES)%nat.
Definition RESPONSE_RESPONSE_OFFSET : nat :=
  (RESPONSE_BACKUP_ACKS_OFFSET + BitsUtil.BYTE_SIZE_IN_BYTES)%nat.

Definition bind {A B} (o : option A) (k : A -> option B) : option B :=
  match o with Some a => k a | None => None end.

Definition encodeRequest (groupId : RaftGroupId) (name : string)
    (_function : Data) (returnValueType : Z) : option ClientMessage :=
  let clientMessage := createForEncode in
  let clientMessage := setRetryable clientMessage false in
  let initialFrame := createInitialFrame REQUEST_INITIAL_FRAME_SIZE in
  bind (FixSizedTypesCodec.encodeInt initialFrame
          REQUEST_RETURN_VALUE_TYPE_OFFSET returnValueType) (fun initialFrame =>
  let clientMessage := addFrame clientMessage initialFrame in
  bind (setMessageType clientMessage REQUEST_MESSAGE_TYPE) (fun clientMessage =>
  bind (setPartitionId clientMessage (-1)) (fun clientMessage =>
  let clientMessage := RaftGroupIdCodec_encode clientMessage groupId in
  let clientMessage := StringCodec.encode clientMessage name in
  let clientMessage := DataCodec.encode clientMessage _function in
  Some clientMessage))).

(** [nextFrame] on a message being decoded yields its first frame. *)
Definition decodeResponse (clientMessage : ClientMessage) : option Z :=
  match frames clientMessage with
  | [] => None
  | initialFrame :: _ =>
      FixSizedTypesCodec.decodeLong initialFrame RESPONSE_RESPONSE_OFFSET
  end.
End WithLayout.
End AtomicLongAlterCodec.

(** ** BaseCPProxy *)

Module BaseCPProxy.
Record t : Type := mk {
  proxyName : string;
  serviceName : string
}.

Definition getPartitionKey (this : t) : Completion string :=
  Throws (UnsupportedOperationError "This operation is not supported by CP Subsystem").

Definition getName (this : t) : Completion string := Returns (proxyName this).

Definition getServiceName (this : t) : Completion string := Returns (serviceName this).
End BaseCPProxy.

(** ** RingbufferProxy *)

(** The [long] package's conversion of a number: clamped to 64 bits. *)
Module Long.
Definition MIN_VALUE : Z := - 2 ^ 63.
Definition MAX_VALUE : Z := 2 ^ 63 - 1.

Definition fromValue (value : Z) : Z :=
  if value <=? MIN_VALUE then MIN_VALUE
  else if 2 ^ 63 <=? value + 1 then MAX_VALUE
  else value.

Definition lessThan (a b : Z) : bool := a <? b.
End Long.

Module RingbufferProxy.
Section WithSerialization.
(** The objects handed to the proxy and the Serialization Service's
    [toData] (an external collaborator); [None] is [null]. *)
Variable Object : Type.
Variable toData : option Object -> Data.

Inductive Codec : Type := RingbufferReadOneCodec | RingbufferReadManyCodec.

Inductive Argument : Type :=
| ANumber (n : Z)
| AData (d : Data).

(** What the proxy asks of its collaborators, in call order:
    [this.toData] and [this.encodeInvoke] (PartitionSpecificProxy, which
    encodes the request with the codec and hands it to the Invocation
    Service). *)
Inductive Call : Type :=
| ToData (o : option Object)
| EncodeInvoke (codec : Codec) (arguments : list Argument).

(** The promise a read returns: the invocation's response decoded by the
    codec. *)
Inductive Promise : Type := ThenDecode (codec : Codec).

Definition Run : Type := list Call * Completion Promise.

Definition readOne (sequence : Z) : Run :=
  if Long.lessThan (Long.fromValue sequence) 0 then
    ([], Throws (RangeError
       ("Sequence number should not be less than zero, was: " ++ toString sequence)%string))
  else
    ([EncodeInvoke RingbufferReadOneCodec [ANumber sequence]],
     Returns (ThenDecode RingbufferReadOneCodec)).

Definition readMany (sequence minCount maxCount : Z) (filter : option Object) : Run :=
  if Long.lessThan (Long.fromValue sequence) 0 then
    ([], Throws (RangeError
       ("Sequence number should not be less than zero, was: " ++ toString sequence)%string))
  else if minCount <? 0 then
    ([], Throws (RangeError
       ("Min count should not be less than zero, was: " ++ toString sequence)%string))
  else if minCount >? maxCount then
    ([], Throws (RangeError
       ("Min count " ++ toString minCount ++ "was larger than max count "
          ++ toString maxCount)%string))
  else
    ([ToData filter;
      EncodeInvoke RingbufferReadManyCodec
        [ANumber sequence; ANumber minCount; ANumber maxCount; AData (toData filter)]],
     Returns (ThenDecode RingbufferReadManyCodec)).
End WithSerialization.
End RingbufferProxy.

(** ** JavaScript maps *)

(** A [Map]: entries in insertion order, at most one per key when built
    with [set]. *)
Module JsMap.
Section WithKey.
Context {K V : Type}.
Variable eqb : K -> K -> bool.

Definition t : Type := list (K * V).

Fixpoint get (m : t) (k : K) : option V :=
  match m with
  | [] => None
  | (k', v) :: rest => if eqb k' k then Some v else get rest k
  end.

Definition has (m : t) (k : K) : bool :=
  match get m k with Some _ => true | None => false end.

Fixpoint set (m : t) (k : K) (v : V) : t :=
  match m with
  | [] => [(k, v)]
  | (k', v') :: rest =>
      if eqb k' k then (k', v) :: rest else (k', v') :: set rest k v
  end.

(** [delete] removes the entry of the key (all of them, should the list
    hold several). *)
Definition delete (m : t) (k : K) : t :=
  filter (fun e => negb (eqb (fst e) k)) m.

Definition size (m : t) : nat := List.length m.
End WithKey.
End JsMap.

(** ** ListenerService: data *)

(** A connection object.  Its identity is [connectionId]; [description] is
    what [toString()] returns and [remoteAddress] what
    [getRemoteAddress().toString()] returns. *)
Record ClientConnection : Type := mkConnection {
  connectionId : nat;
  description : string;
  remoteAddress : string
}.

Definition sameConnection (a b : ClientConnection) : bool :=
  Nat.eqb (connectionId a) (connectionId b).

(** The event callback a listener is registered with, by identity. *)
Definition ClientMessageHandler : Type := nat.

(** The ListenerMessageCodec interface.  [decodeAddResponse] yields the
    server's registration id or throws; [encodeRemoveRequest] yields [None]
    for [null]. *)
Record ListenerMessageCodec : Type := mkCodec {
  encodeAddRequest : bool -> ClientMessage;
  decodeAddResponse : ClientMessage -> Completion string;
  encodeRemoveRequest : string -> option ClientMessage
}.

(** Modelled from the spec: invocation/RegistrationKey.ts and
    invocation/ClientEventRegistration.ts are not among the sources.  Section
    3: a RegistrationKey is [{userKey, codec, registerRequest, handler}], a
    ClientEventRegistration [{serverRegistrationId, correlationId,
    connection, codec}]; the constructor argument order and the field names
    are those the ListenerService uses. *)
Record RegistrationKey : Type := mkRegistrationKey {
  getUserKey : string;
  getCodec : ListenerMessageCodec;
  getRegisterRequest : ClientMessage;
  getHandler : ClientMessageHandler
}.

Record ClientEventRegistration : Type := mkClientEventRegistration {
  serverRegistrationId : string;
  correlationId : Z;
  subscriber : ClientConnection;
  codec : ListenerMessageCodec
}.

(** Modelled from the spec: the Invocation class (invocation/
    InvocationService.ts) is not among the sources.  An invocation carries
    its request, an optional event handler, the connection it is bound to
    and the optional third constructor argument. *)
Record Invocation : Type := mkInvocation {
  request : ClientMessage;
  handler : option ClientMessageHandler;
  connection : ClientConnection;
  invocationTimeout : option Z
}.

(** [invocation.connection], under a name that a parameter called
    [connection] does not hide. *)
Definition connectionOf (i : Invocation) : ClientConnection := connection i.

Definition MAX_SAFE_INTEGER : Z := 2 ^ 53 - 1.

(** Modelled from the spec: [copyWithNewCorrelationId] (ClientMessage.ts).
    Section 4.3: "the template request is copied with a fresh id per
    attempt"; the id itself is assigned by the Invocation Service when the
    copy is invoked, so the copy carries the template's frames.  The
    correlation id the copy holds until then is not modelled. *)
Definition copyWithNewCorrelationId (m : ClientMessage) : ClientMessage :=
  mkClientMessage (frames m) (retryable m).

(** The inner [Map<ClientConnection, ClientEventRegistration>] objects live
    in a heap and are referred to by location: the closures of
    [registerListener] and [reregisterListenersOnConnection] keep a
    reference to the object after [deregisterListener] has unlinked it. *)
Definition RegistrationMap : Type :=
  @JsMap.t ClientConnection ClientEventRegistration.
Definition MapRef : Type := nat.
Definition PromiseRef : Type := nat.

Record ListenerService : Type := mkListenerService {
  isSmartService : bool;
  activeRegistrations : @JsMap.t string MapRef;
  userKeyInformation : @JsMap.t string RegistrationKey
}.

(** ** ListenerService: promises, callbacks and the collaborators *)

Inductive Value : Type :=
| VMessage (m : ClientMessage)
| VRegistration (r : ClientEventRegistration)
| VString (s : string)
| VBool (b : bool).

(** A settled promise is fulfilled ([Returns]) or rejected ([Throws]). *)
Definition Settlement : Type := Completion Value.

(** The callback chains the service attaches to promises, with the
    variables their closures capture. *)
Inductive Reaction : Type :=
  (* registerListener: invokeUrgent(..).then(store).then(resolve).catch(rollback) *)
| OnRegister (userKey : string) (connectionsOnUserKey : MapRef)
    (connection : ClientConnection) (invocation : Invocation)
    (codec : ListenerMessageCodec) (deferred : PromiseRef)
  (* invokeRegistrationFromRecord: invokeUrgent(..).then(..).catch(..) *)
| OnInvokeRegistration (userKey : string) (connection : ClientConnection)
    (invocation : Invocation) (codec : ListenerMessageCodec) (deferred : PromiseRef)
  (* reregisterListenersOnConnection: invokeRegistrationFromRecord(..).then(..).catch(..) *)
| OnReregister (userKey : string) (registrationMap : MapRef)
    (connection : ClientConnection)
  (* deregisterListenerOnTarget: invoke(..).catch(..) *)
| OnDeregisterOnTarget (userKey : string) (invocation : Invocation)
  (* registerListener's rollback: deregisterListener(..).catch(() => {}) *)
| OnRollback.

(** A callback that is ready to run, with its argument. *)
Inductive Task : Type :=
| RegisterStore (userKey : string) (connectionsOnUserKey : MapRef)
    (connection : ClientConnection) (invocation : Invocation)
    (codec : ListenerMessageCodec) (deferred : PromiseRef)
    (responseMessage : ClientMessage)
| RegisterResolve (userKey : string) (invocation : Invocation) (deferred : PromiseRef)
| RegisterCatch (userKey : string) (invocation : Invocation) (deferred : PromiseRef)
    (err : Exception)
| InvokeRegistrationThen (userKey : string) (connection : ClientConnection)
    (invocation : Invocation) (codec : ListenerMessageCodec) (deferred : PromiseRef)
    (responseMessage : ClientMessage)
| InvokeRegistrationCatch (userKey : string) (connection : ClientConnection)
    (deferred : PromiseRef) (err : Exception)
| ReregisterThen (userKey : string) (registrationMap : MapRef)
    (connection : ClientConnection) (eventRegistration : ClientEventRegistration)
| ReregisterCatch (err : Exception)
| DeregisterOnTargetCatch (userKey : string) (invocation : Invocation) (err : Exception)
| Idle.

(** The callback of a chain that a settlement makes ready.  A rejection
    passes the [then] stages and reaches the chain's [catch]; the stages
    passed through take no turn of their own here, so the model fixes the
    order of the callbacks of one chain, not how the callbacks of two
    chains settled in the same turn interleave. *)
Definition react (r : Reaction) (s : Settlement) : Task :=
  match r, s with
  | OnRegister k l c i cd d, Returns (VMessage m) => RegisterStore k l c i cd d m
  | OnRegister k l c i cd d, Throws e => RegisterCatch k i d e
  | OnInvokeRegistration k c i cd d, Returns (VMessage m) =>
      InvokeRegistrationThen k c i cd d m
  | OnInvokeRegistration k c i cd d, Throws e => InvokeRegistrationCatch k c d e
  | OnReregister k l c, Returns (VRegistration r) => ReregisterThen k l c r
  | OnReregister k l c, Throws e => ReregisterCatch e
  | OnDeregisterOnTarget k i, Throws e => DeregisterOnTargetCatch k i e
  | _, _ => Idle
  end.

Record PromiseCell : Type := mkCell {
  settlement : option Settlement;
  reactions : list Reaction;
  (* a promise returned by the Invocation Service, which alone settles it *)
  ofInvocation : bool
}.

Inductive LogArgument : Type :=
| LogText (s : string)
| LogError (e : Exception).

(** Calls on the collaborators: the Invocation Service and the logger. *)
Inductive Call : Type :=
| InvokeUrgent (invocation : Invocation)
| Invoke (invocation : Invocation)
| RemoveEventHandler (correlationId : Z)
| LoggerWarn (objectName : string) (argument : LogArgument)
| LoggerDebug (objectName : string) (argument : LogArgument).

(** Each call is recorded with the service's tables and the inner maps as
    they stand when the call is made. *)
Record Observation : Type := mkObservation {
  call : Call;
  serviceAtCall : ListenerService;
  heapAtCall : list RegistrationMap
}.

Record World : Type := mkWorld {
  this : ListenerService;
  heap : list RegistrationMap;
  promises : list PromiseCell;
  tasks : list Task;
  trace : list Observation;
  (* connections whose isAlive() is false *)
  closed : list ClientConnection
}.

Definition isAlive (w : World) (c : ClientConnection) : bool :=
  negb (existsb (sameConnection c) (closed w)).

(** ** ListenerService: the state and exception monad *)

Definition M (A : Type) : Type := World -> Completion A * World.

Definition ret {A} (a : A) : M A := fun w => (Returns a, w).

Definition throw {A} (e : Exception) : M A := fun w => (Throws e, w).

Definition bind {A B} (m : M A) (k : A -> M B) : M B := fun w =>
  match m w with
  | (Returns a, w') => k a w'
  | (Throws e, w') => (Throws e, w')
  end.

Declare Scope listener_scope.
Delimit Scope listener_scope with listener.
Notation "x <- c1 ;; c2" := (bind c1 (fun x => c2))
  (at level 61, c1 at next level, right associativity) : listener_scope.
Notation "c1 ;; c2" := (bind c1 (fun _ => c2))
  (at level 61, right associativity) : listener_scope.
Local Open Scope listener_scope.

Definition gets {A} (f : World -> A) : M A := fun w => (Returns (f w), w).

Definition modify (f : World -> World) : M unit := fun w => (Returns tt, f w).

Fixpoint forEach {A} (l : list A) (f : A -> M unit) : M unit :=
  match l with
  | [] => ret tt
  | a :: rest => f a ;; forEach rest f
  end.

Definition withThis (f : ListenerService -> ListenerService) (w : World) : World :=
  mkWorld (f (this w)) (heap w) (promises w) (tasks w) (trace w) (closed w).
Definition withHeap (h : list RegistrationMap) (w : World) : World :=
  mkWorld (this w) h (promises w) (tasks w) (trace w) (closed w).
Definition withPromises (p : list PromiseCell) (w : World) : World :=
  mkWorld (this w) (heap w) p (tasks w) (trace w) (closed w).
Definition withTasks (t : list Task) (w : World) : World :=
  mkWorld (this w) (heap w) (promises w) t (trace w) (closed w).
Definition withTrace (t : list Observation) (w : World) : World :=
  mkWorld (this w) (heap w) (promises w) (tasks w) t (closed w).
Definition withClosed (c : list ClientConnection) (w : World) : World :=
  mkWorld (this w) (heap w) (promises w) (tasks w) (trace w) c.

Definition replaceNth {A} (n : nat) (a : A) (l : list A) : list A :=
  firstn n l ++ match skipn n l with [] => [] | _ :: rest => a :: rest end.
Arguments replaceNth : simpl never.

(** *** Collaborator calls *)

Definition perform (c : Call) : M unit :=
  modify (fun w => withTrace (trace w ++ [mkObservation c (this w) (heap w)]) w).

(** *** Promises *)

Definition newPromise (external : bool) : M PromiseRef := fun w =>
  (Returns (List.length (promises w)),
   withPromises (promises w ++ [mkCell None [] external]) w).

Definition deferredPromise : M PromiseRef := newPromise false.

(** Settling is effective once; it makes the attached callbacks ready, in
    the order they were attached. *)
Definition settle (p : PromiseRef) (s : Settlement) : M unit := fun w =>
  match nth_error (promises w) p with
  | Some (mkCell None rs ext) =>
      (Returns tt,
       withTasks (tasks w ++ map (fun r => react r s) rs)
         (withPromises (replaceNth p (mkCell (Some s) rs ext) (promises w)) w))
  | _ => (Returns tt, w)
  end.

Definition resolve (p : PromiseRef) (v : Value) : M unit := settle p (Returns v).
Definition reject (p : PromiseRef) (e : Exception) : M unit := settle p (Throws e).

(** Attaching a chain to a promise: kept until the promise settles, ready
    at once when it already has. *)
Definition subscribe (p : PromiseRef) (r : Reaction) : M unit := fun w =>
  match nth_error (promises w) p with
  | Some (mkCell None rs ext) =>
      (Returns tt, withPromises (replaceNth p (mkCell None (rs ++ [r]) ext) (promises w)) w)
  | Some (mkCell (Some s) rs ext) =>
      (Returns tt,
       withTasks (tasks w ++ [react r s])
         (withPromises (replaceNth p (mkCell (Some s) (rs ++ [r]) ext) (promises w)) w))
  | None => (Returns tt, w)
  end.

(** Modelled from the spec: the Invocation Service (section 4.2) is not
    among the sources.  [invokeUrgent] and [invoke] take an invocation and
    return a future that the service alone completes, with the response
    message or a failure. *)
Definition invokeUrgent (i : Invocation) : M PromiseRef :=
  perform (InvokeUrgent i) ;; newPromise true.

Definition invoke (i : Invocation) : M PromiseRef :=
  perform (Invoke i) ;; newPromise true.

Definition removeEventHandler (correlationId : Z) : M unit :=
  perform (RemoveEventHandler correlationId).

(** *** The inner maps *)

Definition newMap : M MapRef := fun w =>
  (Returns (List.length (heap w)), withHeap (heap w ++ [[]]) w).

Definition mapEntries (l : MapRef) : M RegistrationMap :=
  gets (fun w => nth l (heap w) []).

Definition mapGet (l : MapRef) (c : ClientConnection) : M (option ClientEventRegistration) :=
  gets (fun w => JsMap.get sameConnection (nth l (heap w) []) c).

Definition mapHas (l : MapRef) (c : ClientConnection) : M bool :=
  gets (fun w => JsMap.has sameConnection (nth l (heap w) []) c).

Definition mapSet (l : MapRef) (c : ClientConnection) (r : ClientEventRegistration) : M unit :=
  modify (fun w =>
    withHeap (replaceNth l (JsMap.set sameConnection (nth l (heap w) []) c r) (heap w)) w).

Definition mapDelete (l : MapRef) (c : ClientConnection) : M unit :=
  modify (fun w =>
    withHeap (replaceNth l (JsMap.delete sameConnection (nth l (heap w) []) c) (heap w)) w).

Definition enqueue (t : Task) : M unit :=
  modify (fun w => withTasks (tasks w ++ [t]) w).

(** ** ListenerService: the methods *)

Module ListenerService.
Section WithLayout.
Context {L : Layout}.

Definition isSmart : M bool := gets (fun w => isSmartService (this w)).

Definition getActiveRegistrations (userKey : string) : M (option MapRef) :=
  gets (fun w => JsMap.get String.eqb (activeRegistrations (this w)) userKey).

Definition getUserKeyInformation (userKey : string) : M (option RegistrationKey) :=
  gets (fun w => JsMap.get String.eqb (userKeyInformation (this w)) userKey).

Definition setActiveRegistrations (userKey : string) (l : MapRef) : M unit :=
  modify (withThis (fun s =>
    mkListenerService (isSmartService s)
      (JsMap.set String.eqb (activeRegistrations s) userKey l)
      (userKeyInformation s))).

Definition setUserKeyInformation (userKey : string) (k : RegistrationKey) : M unit :=
  modify (withThis (fun s =>
    mkListenerService (isSmartService s) (activeRegistrations s)
      (JsMap.set String.eqb (userKeyInformation s) userKey k))).

Definition deleteActiveRegistrations (userKey : string) : M unit :=
  modify (withThis (fun s =>
    mkListenerService (isSmartService s)
      (JsMap.delete String.eqb (activeRegistrations s) userKey)
      (userKeyInformation s))).

Definition deleteUserKeyInformation (userKey : string) : M unit :=
  modify (withThis (fun s =>
    mkListenerService (isSmartService s) (activeRegistrations s)
      (JsMap.delete String.eqb (userKeyInformation s) userKey))).

(** Asynchronously de-registers listener on the target associated with
    the given event registration. *)
Definition deregisterListenerOnTarget (userKey : string)
    (eventRegistration : ClientEventRegistration) : M unit :=
  match encodeRemoveRequest (codec eventRegistration)
          (serverRegistrationId eventRegistration) with
  | None =>
      (* null message means no remote registration (e.g. for backup acks) *)
      ret tt
  | Some clientMessage =>
      let invocation :=
        mkInvocation clientMessage None (subscriber eventRegistration)
          (Some MAX_SAFE_INTEGER) in
      p <- invoke invocation ;;
      subscribe p (OnDeregisterOnTarget userKey invocation)
  end.

Definition isConnectivityError (err : Exception) : bool :=
  match err with
  | ClientNotActiveError _ | IOError _ | TargetDisconnectedError _ => true
  | _ => false
  end.

Definition deregisterOnTargetCatch (userKey : string) (invocation : Invocation)
    (err : Exception) : M unit :=
  if isConnectivityError err then ret tt
  else
    perform (LoggerWarn "ListenerService"
      (LogText ("Deregistration of listener " ++ userKey
                ++ " has failed for address "
                ++ remoteAddress (connection invocation))%string)).

(** The iteration visits the entries the map holds when it starts; the
    callback deletes only the entry being visited. *)
Definition deregisterListener (userKey : string) : M PromiseRef :=
  deferred <- deferredPromise ;;
  registrationsOnUserKey <- getActiveRegistrations userKey ;;
  match registrationsOnUserKey with
  | None =>
      resolve deferred (VBool false) ;;
      ret deferred
  | Some registrationsOnUserKey =>
      deleteActiveRegistrations userKey ;;
      deleteUserKeyInformation userKey ;;
      entries <- mapEntries registrationsOnUserKey ;;
      forEach entries (fun '(connection, eventRegistration) =>
        (* remove local handler *)
        mapDelete registrationsOnUserKey connection ;;
        removeEventHandler (correlationId eventRegistration) ;;
        (* the rest is for deleting remote registration *)
        deregisterListenerOnTarget userKey eventRegistration) ;;
      resolve deferred (VBool true) ;;
      ret deferred
  end.

Definition invokeRegistrationFromRecord (userKey : string)
    (connection : ClientConnection) : M PromiseRef :=
  deferred <- deferredPromise ;;
  activeRegsOnUserKey <- getActiveRegistrations userKey ;;
  existing <- match activeRegsOnUserKey with
              | Some l => mapGet l connection
              | None => ret None
              end ;;
  match existing with
  | Some eventRegistration =>
      resolve deferred (VRegistration eventRegistration) ;;
      ret deferred
  | None =>
      registrationKey <- getUserKeyInformation userKey ;;
      match registrationKey with
      | None => throw (TypeError "Cannot read property 'getRegisterRequest' of undefined")
      | Some registrationKey =>
          (* New correlation id will be set on the invoke call *)
          let registerRequest :=
            copyWithNewCorrelationId (getRegisterRequest registrationKey) in
          let codec := getCodec registrationKey in
          let invocation :=
            mkInvocation registerRequest (Some (getHandler registrationKey))
              connection None in
          p <- invokeUrgent invocation ;;
          subscribe p (OnInvokeRegistration userKey connection invocation codec deferred) ;;
          ret deferred
      end
  end.

Definition invokeRegistrationThen (userKey : string) (connection : ClientConnection)
    (invocation : Invocation) (codec : ListenerMessageCodec) (deferred : PromiseRef)
    (responseMessage : ClientMessage) : M unit :=
  match getCorrelationId responseMessage with
  | None =>
      enqueue (InvokeRegistrationCatch userKey connection deferred
                 (TypeError "Cannot read property 'content' of undefined"))
  | Some correlationId =>
      match decodeAddResponse codec responseMessage with
      | Throws e => enqueue (InvokeRegistrationCatch userKey connection deferred e)
      | Returns response =>
          let eventRegistration :=
            mkClientEventRegistration response correlationId
              (connectionOf invocation) codec in
          perform (LoggerDebug "ListenerService"
            (LogText ("Listener " ++ userKey ++ " re-registered on "
                      ++ description connection)%string)) ;;
          resolve deferred (VRegistration eventRegistration)
      end
  end.

Definition invokeRegistrationCatch (userKey : string) (connection : ClientConnection)
    (deferred : PromiseRef) (err : Exception) : M unit :=
  reject deferred
    (HazelcastError ("Could not add listener[" ++ userKey ++ "] to connection["
                     ++ description connection ++ "]")%string err).

(** The iteration visits the entries of [activeRegistrations] at the time
    of the call; the callback does not change that table. *)
Definition reregisterListenersOnConnection (connection : ClientConnection) : M unit :=
  entries <- gets (fun w => activeRegistrations (this w)) ;;
  forEach entries (fun '(userKey, registrationMap) =>
    has <- mapHas registrationMap connection ;;
    if has : bool then ret tt
    else
      p <- invokeRegistrationFromRecord userKey connection ;;
      subscribe p (OnReregister userKey registrationMap connection)).

Definition reregisterThen (userKey : string) (registrationMap : MapRef)
    (connection : ClientConnection) (eventRegistration : ClientEventRegistration) : M unit :=
  (* handle potential race with deregisterListener
     which might have deleted the registration *)
  info <- getUserKeyInformation userKey ;;
  match info with
  | None => deregisterListenerOnTarget userKey eventRegistration
  | Some _ => mapSet registrationMap connection eventRegistration
  end.

Definition reregisterCatch (err : Exception) : M unit :=
  perform (LoggerWarn "ListenerService" (LogError err)).

Definition removeRegistrationsOnConnection (connection : ClientConnection) : M unit :=
  entries <- gets (fun w => activeRegistrations (this w)) ;;
  forEach entries (fun '(_, registrationsOnUserKey) =>
    eventRegistration <- mapGet registrationsOnUserKey connection ;;
    match eventRegistration with
    | Some eventRegistration =>
        removeEventHandler (correlationId eventRegistration)
    | None => ret tt
    end).

Definition onConnectionAdded (connection : ClientConnection) : M unit :=
  reregisterListenersOnConnection connection.

Definition onConnectionRemoved (connection : ClientConnection) : M unit :=
  removeRegistrationsOnConnection connection.

(** [activeConnections] is what the Connection Manager's
    [getActiveConnections()] returns and [uuid] what [UuidUtil.generate()]
    returns. *)
Definition registerListener (codec : ListenerMessageCodec)
    (listenerHandlerFn : ClientMessageHandler)
    (activeConnections : list ClientConnection) (uuid : string) : M PromiseRef :=
  let userKey := uuid in
  deferred <- deferredPromise ;;
  smart <- isSmart ;;
  let registerRequest := encodeAddRequest codec smart in
  existing <- getActiveRegistrations userKey ;;
  connectionsOnUserKey <-
    match existing with
    | Some l => ret l
    | None =>
        l <- newMap ;;
        setActiveRegistrations userKey l ;;
        setUserKeyInformation userKey
          (mkRegistrationKey userKey codec registerRequest listenerHandlerFn) ;;
        ret l
    end ;;
  forEach activeConnections (fun connection =>
    has <- mapHas connectionsOnUserKey connection ;;
    if has : bool then ret tt
    else
      (* new correlation id will be set on the invoke call *)
      let requestCopy := copyWithNewCorrelationId registerRequest in
      let invocation :=
        mkInvocation requestCopy (Some listenerHandlerFn) connection None in
      p <- invokeUrgent invocation ;;
      subscribe p (OnRegister userKey connectionsOnUserKey connection invocation
                     codec deferred)) ;;
  ret deferred.

Definition registerStore (userKey : string) (connectionsOnUserKey : MapRef)
    (connection : ClientConnection) (invocation : Invocation)
    (codec : ListenerMessageCodec) (deferred : PromiseRef)
    (responseMessage : ClientMessage) : M unit :=
  match getCorrelationId responseMessage with
  | None =>
      enqueue (RegisterCatch userKey invocation deferred
                 (TypeError "Cannot read property 'content' of undefined"))
  | Some correlationId =>
      match decodeAddResponse codec responseMessage with
      | Throws e => enqueue (RegisterCatch userKey invocation deferred e)
      | Returns response =>
          let clientEventRegistration :=
            mkClientEventRegistration response correlationId
              (connectionOf invocation) codec in
          perform (LoggerDebug "ListenerService"
            (LogText ("Listener " ++ userKey ++ " registered on "
                      ++ description (connectionOf invocation))%string)) ;;
          mapSet connectionsOnUserKey connection clientEventRegistration ;;
          enqueue (RegisterResolve userKey invocation deferred)
      end
  end.

Definition registerResolve (userKey : string) (deferred : PromiseRef) : M unit :=
  resolve deferred (VString userKey).

Definition registerCatch (userKey : string) (invocation : Invocation)
    (deferred : PromiseRef) (err : Exception) : M unit :=
  alive <- gets (fun w => isAlive w (connection invocation)) ;;
  if alive : bool then
    p <- deregisterListener userKey ;;
    subscribe p OnRollback ;;
    reject deferred (HazelcastError "Listener cannot be added!" err)
  else ret tt.

(** *** The event loop *)

Definition runTask (t : Task) : M unit :=
  match t with
  | RegisterStore k l c i cd d m => registerStore k l c i cd d m
  | RegisterResolve k i d => registerResolve k d
  | RegisterCatch k i d e => registerCatch k i d e
  | InvokeRegistrationThen k c i cd d m => invokeRegistrationThen k c i cd d m
  | InvokeRegistrationCatch k c d e => invokeRegistrationCatch k c d e
  | ReregisterThen k l c r => reregisterThen k l c r
  | ReregisterCatch e => reregisterCatch e
  | DeregisterOnTargetCatch k i e => deregisterOnTargetCatch k i e
  | Idle => ret tt
  end.

(** What can happen next: a call into the service, a connection event
    from the Connection Manager, the Invocation Service completing one of
    its futures, a connection dying, or the next ready callback running. *)
Inductive Event : Type :=
| RegisterListener (codec : ListenerMessageCodec)
    (listenerHandlerFn : ClientMessageHandler)
    (activeConnections : list ClientConnection) (uuid : string)
| DeregisterListener (userKey : string)
| ConnectionAdded (connection : ClientConnection)
| ConnectionRemoved (connection : ClientConnection)
| InvocationCompletes (p : PromiseRef) (outcome : Completion ClientMessage)
| ConnectionCloses (connection : ClientConnection)
| Tick.

Definition completeInvocation (p : PromiseRef) (outcome : Completion ClientMessage) : M unit :=
  fun w =>
    match nth_error (promises w) p with
    | Some c =>
        if ofInvocation c
        then settle p (match outcome with
                       | Returns m => Returns (VMessage m)
                       | Throws e => Throws e
                       end) w
        else (Returns tt, w)
    | None => (Returns tt, w)
    end.

Definition tick : M unit := fun w =>
  match tasks w with
  | [] => (Returns tt, w)
  | t :: rest => runTask t (withTasks rest w)
  end.

Definition step (e : Event) : M unit :=
  match e with
  | RegisterListener cd h cs uuid => registerListener cd h cs uuid ;; ret tt
  | DeregisterListener k => deregisterListener k ;; ret tt
  | ConnectionAdded c => onConnectionAdded c
  | ConnectionRemoved c => onConnectionRemoved c
  | InvocationCompletes p o => completeInvocation p o
  | ConnectionCloses c => modify (fun w => withClosed (c :: closed w) w)
  | Tick => tick
  end.

(** A run: an exception thrown into the caller leaves the world as the
    call had changed it so far. *)
Definition exec (es : list Event) (w : World) : World :=
  fold_left (fun w e => snd (step e w)) es w.

(** The constructor: empty tables. *)
Definition create (smartRouting : bool) : World :=
  mkWorld (mkListenerService smartRouting [] []) [] [] [] [] [].
End WithLayout.
End ListenerService.

(** ** ListenerService: vocabulary of the properties *)

Module ListenerTerms.
Import ListenerService.

(** A relation between the world before and after a computation that the
    computation respects from every starting world. *)
Definition stable (R : World -> World -> Prop) {A} (m : M A) : Prop :=
  forall w, R w (snd (m w)).

(** A relation on one component of the world. *)
Definition on {X} (f : World -> X) (Q : X -> X -> Prop) : World -> World -> Prop :=
  fun w w' => Q (f w) (f w').

(** The remote remove request [deregisterListenerOnTarget] hands to the
    Invocation Service, if the codec has one. *)
Definition removeInvocation (eventRegistration : ClientEventRegistration)
  : option Invocation :=
  option_map
    (fun clientMessage =>
       mkInvocation clientMessage None (subscriber eventRegistration)
         (Some MAX_SAFE_INTEGER))
    (encodeRemoveRequest (codec eventRegistration)
       (serverRegistrationId eventRegistration)).

(** The calls [deregisterListenerOnTarget] makes for a registration: the
    remote remove request, or none. *)
Definition removeCalls (eventRegistration : ClientEventRegistration) : list Call :=
  match removeInvocation eventRegistration with
  | Some i => [Invoke i]
  | None => []
  end.

(** The key has no entry in [userKeyInformation]. *)
Definition forgotten (k : string) (s : ListenerService) : Prop :=
  JsMap.get String.eqb (userKeyInformation s) k = None.

(** A key without an entry before has none after. *)
Definition staysForgotten (k : string) (s s' : ListenerService) : Prop :=
  forgotten k s -> forgotten k s'.

(** The event is a [registerListener] that draws the uuid [k]. *)
Definition draws (k : string) (e : Event) : Prop :=
  match e with
  | RegisterListener _ _ _ uuid => uuid = k
  | _ => False
  end.

(** The tables without [userKey]. *)
Definition unlink (userKey : string) (s : ListenerService) : ListenerService :=
  mkListenerService (isSmartService s)
    (JsMap.delete String.eqb (activeRegistrations s) userKey)
    (JsMap.delete String.eqb (userKeyInformation s) userKey).

(** The callback of [deregisterListener]'s iteration. *)
Definition teardown (userKey : string) (registrationsOnUserKey : MapRef)
  : ClientConnection * ClientEventRegistration -> M unit :=
  fun '(connection, eventRegistration) =>
    mapDelete registrationsOnUserKey connection ;;
    removeEventHandler (correlationId eventRegistration) ;;
    deregisterListenerOnTarget userKey eventRegistration.

(** The calls of [deregisterListener]'s iteration over [entries]: for each
    registration the removal of its event handler, then its remote remove
    request. *)
Definition teardownCalls (entries : RegistrationMap) : list Call :=
  flat_map (fun '(_, eventRegistration) =>
              RemoveEventHandler (correlationId eventRegistration)
                :: removeCalls eventRegistration) entries.

(** A promise of the Invocation Service that has not completed. *)
Definition pendingInvocation (c : PromiseCell) : Prop :=
  settlement c = None /\ ofInvocation c = true.

(** The specification's ordering rule read literally: in a sequence of
    collaborator calls, no remote deregister request comes before a removal
    of an event handler. *)
Definition handlersRemovedFirst (calls : list Call) : Prop :=
  forall before correlationId after,
    calls = before ++ RemoveEventHandler correlationId :: after ->
    forall invocation, ~ In (Invoke invocation) before.

(** The calls a computation adds to the trace. *)
Definition callsDuring {A} (m : M A) (w : World) : list Call :=
  skipn (List.length (trace w)) (map call (trace (snd (m w)))).

(** The call is a remote remove request ([invoke], as opposed to the
    [invokeUrgent] of register requests). *)
Definition isRemoveRequest (c : Call) : bool :=
  match c with
  | Invoke _ => true
  | _ => false
  end.

(** The settlement of promise [p], if it exists and has settled. *)
Definition outcome (w : World) (p : PromiseRef) : option Settlement :=
  match nth_error (promises w) p with
  | Some c => settlement c
  | None => None
  end.

(** Every promise that has settled in [ps] has the same outcome in [ps']. *)
Definition keepsOutcomes (ps ps' : list PromiseCell) : Prop :=
  forall p c s,
    nth_error ps p = Some c -> settlement c = Some s ->
    exists c', nth_error ps' p = Some c' /\ settlement c' = Some s.

(** The invocation [registerListener] builds for a connection. *)
Definition registerInvocation (registerRequest : ClientMessage)
    (listenerHandlerFn : ClientMessageHandler) (connection : ClientConnection)
  : Invocation :=
  mkInvocation (copyWithNewCorrelationId registerRequest) (Some listenerHandlerFn)
    connection None.

(** The body of [registerListener]'s loop. *)
Definition attemptOn (userKey : string) (connectionsOnUserKey : MapRef)
    (codec : ListenerMessageCodec) (listenerHandlerFn : ClientMessageHandler)
    (registerRequest : ClientMessage) (deferred : PromiseRef)
  : ClientConnection -> M unit :=
  fun connection =>
    has <- mapHas connectionsOnUserKey connection ;;
    if has : bool then ret tt
    else
      p <- invokeUrgent (registerInvocation registerRequest listenerHandlerFn connection) ;;
      subscribe p
        (OnRegister userKey connectionsOnUserKey connection
           (registerInvocation registerRequest listenerHandlerFn connection)
           codec deferred).

(** The connections of [connections] without a record in the map, in
    order. *)
Definition untracked (m : RegistrationMap) (connections : list ClientConnection)
  : list ClientConnection :=
  filter (fun c => negb (JsMap.has sameConnection m c)) connections.

(** The promise [invokeUrgent] returns for a connection in
    [registerListener], with the callback chain attached to it. *)
Definition attemptCell (userKey : string) (l : MapRef) (codec : ListenerMessageCodec)
    (h : ClientMessageHandler) (registerRequest : ClientMessage) (deferred : PromiseRef)
    (c : ClientConnection) : PromiseCell :=
  mkCell None
    [OnRegister userKey l c (registerInvocation registerRequest h c) codec deferred]
    true.

(** The record of the [invokeUrgent] call for a connection in
    [registerListener]. *)
Definition attemptObservation (s : ListenerService) (hp : list RegistrationMap)
    (h : ClientMessageHandler) (registerRequest : ClientMessage)
    (c : ClientConnection) : Observation :=
  mkObservation (InvokeUrgent (registerInvocation registerRequest h c)) s hp.

(** The tables after [registerListener] has entered a new key. *)
Definition newTables (s : ListenerService) (userKey : string) (l : MapRef)
    (codec : ListenerMessageCodec) (h : ClientMessageHandler) : ListenerService :=
  mkListenerService (isSmartService s)
    (JsMap.set String.eqb (activeRegistrations s) userKey l)
    (JsMap.set String.eqb (userKeyInformation s) userKey
       (mkRegistrationKey userKey codec (encodeAddRequest codec (isSmartService s)) h)).

(** The (userKey, connection) pair a callback chain registers, if it is
    the chain of a register request. *)
Definition attemptOf (r : Reaction) : list (string * nat) :=
  match r with
  | OnRegister userKey _ connection _ _ _ => [(userKey, connectionId connection)]
  | OnInvokeRegistration userKey connection _ _ _ => [(userKey, connectionId connection)]
  | _ => []
  end.

(** The register requests issued so far, one per callback chain attached
    to a promise of the Invocation Service. *)
Definition attempts (ps : list PromiseCell) : list (string * nat) :=
  flat_map (fun cell => flat_map attemptOf (reactions cell)) ps.

(** The invocation [invokeRegistrationFromRecord] builds from a record. *)
Definition recordInvocation (registrationKey : RegistrationKey)
    (connection : ClientConnection) : Invocation :=
  mkInvocation (copyWithNewCorrelationId (getRegisterRequest registrationKey))
    (Some (getHandler registrationKey)) connection None.

(** The body of [reregisterListenersOnConnection]'s iteration. *)
Definition reregisterOne (connection : ClientConnection) : string * MapRef -> M unit :=
  fun '(userKey, registrationMap) =>
    has <- mapHas registrationMap connection ;;
    if has : bool then ret tt
    else
      p <- invokeRegistrationFromRecord userKey connection ;;
      subscribe p (OnReregister userKey registrationMap connection).

(** The registration stored for a key and a connection, if any. *)
Definition storedOn (w : World) (userKey : string) (connection : ClientConnection)
  : option ClientEventRegistration :=
  match JsMap.get String.eqb (activeRegistrations (this w)) userKey with
  | Some l => JsMap.get sameConnection (nth l (heap w) []) connection
  | None => None
  end.

(** A key of [es] whose map has no record for [c]. *)
Definition lacking (hp : list RegistrationMap) (c : ClientConnection)
    (es : list (string * MapRef)) (a : string * nat) : Prop :=
  snd a = connectionId c
  /\ exists l, In (fst a, l) es
               /\ JsMap.has sameConnection (nth l hp []) c = false.

(** Two promise stores with the same register requests. *)
Definition sameAttempts (ps ps' : list PromiseCell) : Prop :=
  attempts ps' = attempts ps.

(** The keys of [activeRegistrations]. *)
Definition keys (s : ListenerService) : list string :=
  map fst (activeRegistrations s).

(** No key is added, and the keys stay distinct. *)
Definition shrinks (s s' : ListenerService) : Prop :=
  incl (keys s') (keys s) /\ (NoDup (keys s) -> NoDup (keys s')).

(** The discipline of the collaborators, given the connections announced
    and the uuids drawn so far: [UuidUtil.generate] never repeats a uuid;
    the Connection Manager announces a connection once, and lists as active
    only connections it has announced, each once. *)
Definition allowed (added : list nat) (drawn : list string) (e : Event) : Prop :=
  match e with
  | RegisterListener _ _ activeConnections uuid =>
      ~ In uuid drawn
      /\ NoDup (map connectionId activeConnections)
      /\ incl (map connectionId activeConnections) added
  | ConnectionAdded c => ~ In (connectionId c) added
  | _ => True
  end.

Definition announce (added : list nat) (e : Event) : list nat :=
  match e with
  | ConnectionAdded c => connectionId c :: added
  | _ => added
  end.

Definition draw (drawn : list string) (e : Event) : list string :=
  match e with
  | RegisterListener _ _ _ uuid => uuid :: drawn
  | _ => drawn
  end.

Fixpoint disciplined (added : list nat) (drawn : list string) (es : list Event) : Prop :=
  match es with
  | [] => True
  | e :: rest =>
      allowed added drawn e /\ disciplined (announce added e) (draw drawn e) rest
  end.

(** The invariant behind "one register request per key and connection". *)
Record Tracked (added : list nat) (drawn : list string) (w : World) : Prop := {
  attempts_distinct : NoDup (attempts (promises w));
  attempts_known :
    forall a, In a (attempts (promises w)) -> In (fst a) drawn /\ In (snd a) added;
  keys_drawn : incl (keys (this w)) drawn;
  keys_distinct : NoDup (keys (this w))
}.

(** An event other than [registerListener] and [connectionAdded]. *)
Definition quiet (e : Event) : Prop :=
  match e with
  | RegisterListener _ _ _ _ | ConnectionAdded _ => False
  | _ => True
  end.

End ListenerTerms.

(** ** ListenerService: the state of the tables *)

Module ListenerState.
Import ListenerService ListenerTerms.

(** The shape of the tables: [activeRegistrations] and [userKeyInformation]
    hold the same keys in the same order, each key once; every key's inner
    map is an object of the heap, and no two keys share one. *)
Record Consistent (w : World) : Prop := {
  same_keys :
    map fst (activeRegistrations (this w)) = map fst (userKeyInformation (this w));
  keys_once : NoDup (map fst (activeRegistrations (this w)));
  maps_allocated :
    forall k l, In (k, l) (activeRegistrations (this w)) -> (l < List.length (heap w))%nat;
  maps_unshared : NoDup (map snd (activeRegistrations (this w)))
}.

(** A world that is consistent stays so. *)
Definition keepsConsistent (w w' : World) : Prop := Consistent w -> Consistent w'.

(** A computation that returns from every world. *)
Definition returns {A} (m : M A) : Prop :=
  forall w, exists a, fst (m w) = Returns a.

(** Two heaps with the same number of map objects. *)
Definition sameLength (h h' : list RegistrationMap) : Prop :=
  List.length h' = List.length h.

(** Two services with the same smart-routing flag. *)
Definition sameFlag (s s' : ListenerService) : Prop :=
  isSmartService s' = isSmartService s.

(** The map [m] after the connections of [entries] have been deleted from
    it one by one. *)
Definition deleteAll (entries m : RegistrationMap) : RegistrationMap :=
  fold_left (fun m e => JsMap.delete sameConnection m (fst e)) entries m.

(** The registrations stored for connection [c]: one per key whose map has
    a record for it, in the order of [activeRegistrations]. *)
Definition recordsOn (w : World) (c : ClientConnection) : list ClientEventRegistration :=
  flat_map (fun '(_, registrationsOnUserKey) =>
              match JsMap.get sameConnection (nth registrationsOnUserKey (heap w) []) c with
              | Some eventRegistration => [eventRegistration]
              | None => []
              end)
           (activeRegistrations (this w)).

(** The register requests due on connection [c]: one per key whose map has
    no record for it, built from the key's RegistrationKey. *)
Definition reregistrations (s : ListenerService) (hp : list RegistrationMap)
    (c : ClientConnection) (entries : list (string * MapRef)) : list Invocation :=
  flat_map (fun '(userKey, registrationMap) =>
              if JsMap.has sameConnection (nth registrationMap hp []) c then []
              else match JsMap.get String.eqb (userKeyInformation s) userKey with
                   | Some registrationKey => [recordInvocation registrationKey c]
                   | None => []
                   end)
           entries.
End ListenerState.

(** ** ListenerService: which promises callbacks can settle *)

Module PromiseReach.
Import ListenerService.

(** The promise a callback chain settles: the [deferred] its closures
    capture. *)
Definition deferredOf (r : Reaction) : list PromiseRef :=
  match r with
  | OnRegister _ _ _ _ _ deferred => [deferred]
  | OnInvokeRegistration _ _ _ _ deferred => [deferred]
  | OnReregister _ _ _ | OnDeregisterOnTarget _ _ | OnRollback => []
  end.

(** The promise a ready callback settles, now or through the callback it
    makes ready. *)
Definition deferredOfTask (t : Task) : list PromiseRef :=
  match t with
  | RegisterStore _ _ _ _ _ deferred _ => [deferred]
  | RegisterResolve _ _ deferred => [deferred]
  | RegisterCatch _ _ deferred _ => [deferred]
  | InvokeRegistrationThen _ _ _ _ deferred _ => [deferred]
  | InvokeRegistrationCatch _ _ deferred _ => [deferred]
  | ReregisterThen _ _ _ _ | ReregisterCatch _ | DeregisterOnTargetCatch _ _ _ | Idle => []
  end.

Definition chains (ps : list PromiseCell) : list PromiseRef :=
  flat_map (fun cell => flat_map deferredOf (reactions cell)) ps.

(** The promises that some attached chain or ready callback can settle. *)
Definition mentioned (w : World) : list PromiseRef :=
  chains (promises w) ++ flat_map deferredOfTask (tasks w).

(** Promise [d] is a pending deferred that no chain and no ready callback
    can settle. *)
Definition Unreachable (d : PromiseRef) (w : World) : Prop :=
  (exists rs, nth_error (promises w) d = Some (mkCell None rs false))
  /\ ~ In d (mentioned w).

(** The promises of [xs] and all the promises that chains and callbacks
    can settle exist. *)
Definition Bounded (xs : list PromiseRef) (w : World) : Prop :=
  Forall (fun a => (a < List.length (promises w))%nat) (xs ++ mentioned w).

(** A property of the world that holds afterwards if it held before. *)
Definition keeps (P : World -> Prop) (w w' : World) : Prop := P w -> P w'.
End PromiseReach.

(** ** ListenerService: answers to register requests *)

Module Answers.
Import ListenerService.

(** The answer of a member to a register request: the response message,
    the correlation id it carries and the registration id in it. *)
Record Answer : Type := mkAnswer {
  answerMessage : ClientMessage;
  answerCorrelationId : Z;
  answerRegistrationId : string
}.

Section WithLayout.
Context {L : Layout}.

(** The response carries the correlation id and the codec decodes the
    registration id from it. *)
Definition decodes (codec : ListenerMessageCodec) (a : Answer) : Prop :=
  getCorrelationId (answerMessage a) = Some (answerCorrelationId a)
  /\ decodeAddResponse codec (answerMessage a) = Returns (answerRegistrationId a).
End WithLayout.

(** The ClientEventRegistration the callbacks build from an answer. *)
Definition registrationOf (codec : ListenerMessageCodec) (c : ClientConnection)
    (a : Answer) : ClientEventRegistration :=
  mkClientEventRegistration (answerRegistrationId a) (answerCorrelationId a) c codec.

(** The requests behind the promises [p], [p + 1], ... are answered in
    this order, the two callbacks of each answer running before the next
    answer arrives. *)
Fixpoint answerAll (p : PromiseRef) (responses : list ClientMessage) : list Event :=
  match responses with
  | [] => []
  | m :: rest =>
      InvocationCompletes p (Returns m) :: Tick :: Tick :: answerAll (S p) rest
  end.

(** The map after the registrations of the answers have been stored. *)
Definition storeAll (codec : ListenerMessageCodec)
    (answered : list (ClientConnection * Answer)) (m : RegistrationMap) : RegistrationMap :=
  fold_left (fun m ca =>
               JsMap.set sameConnection m (fst ca) (registrationOf codec (fst ca) (snd ca)))
            answered m.
End Answers.

(** ** ListenerService: the shape of the requests *)

Module CallShapes.
(** The two shapes of a request handed to the Invocation Service: through
    [invokeUrgent], an invocation with its [handler] set and no third
    constructor argument; through [invoke], an invocation without handler
    and with [Number.MAX_SAFE_INTEGER] as third constructor argument.  The
    other calls are not requests. *)
Definition shaped (c : Call) : Prop :=
  match c with
  | InvokeUrgent invocation =>
      handler invocation <> None /\ invocationTimeout invocation = None
  | Invoke invocation =>
      handler invocation = None
      /\ invocationTimeout invocation = Some MAX_SAFE_INTEGER
  | _ => True
  end.

Definition allShaped (w : World) : Prop :=
  Forall (fun o => shaped (call o)) (trace w).
End CallShapes.

(** ** Concrete data for the examples *)

Module Sample.
(** A layout with the type field first, then the 8-byte correlation id,
    then the partition id; a message starts out retryable. *)
#[export] Instance layout : Layout := {|
  TYPE_FIELD_OFFSET := 0;
  CORRELATION_ID_OFFSET := 4;
  PARTITION_ID_OFFSET := 12;
  RESPONSE_BACKUP_ACKS_OFFSET := 12;
  initiallyRetryable := true
|}.

Definition c1 : ClientConnection := mkConnection 1 "connection-1" "10.0.0.1:5701".
Definition c2 : ClientConnection := mkConnection 2 "connection-2" "10.0.0.2:5701".

(** A message of one 16-byte frame carrying [correlationId]. *)
Definition message (correlationId : Z) : ClientMessage :=
  match setCorrelationId (addFrame createForEncode (createInitialFrame 16))
          correlationId with
  | Some m => m
  | None => createForEncode
  end.

Definition addRequest : ClientMessage := message 0.
Definition removeRequest : ClientMessage := message 0.

(** A listener codec with a remove request. *)
Definition listenerCodec : ListenerMessageCodec :=
  mkCodec (fun _ => addRequest) (fun _ => Returns "server-id")
          (fun _ => Some removeRequest).

(** A listener codec without one ([encodeRemoveRequest] returns null). *)
Definition localOnlyCodec : ListenerMessageCodec :=
  mkCodec (fun _ => addRequest) (fun _ => Returns "server-id") (fun _ => None).

Definition fresh : World := ListenerService.create true.

(** A listener registered on [c1] alone: the register request (promise 1)
    has been answered with correlation id 11 and both callbacks have run. *)
Definition registeredOnOne (codec : ListenerMessageCodec) : World :=
  ListenerService.exec
    [ListenerService.RegisterListener codec 7%nat [c1] "k";
     ListenerService.InvocationCompletes 1%nat (Returns (message 11));
     ListenerService.Tick; ListenerService.Tick]
    fresh.

(** Then [c2] is added: the reregistration (promise 3) is in flight. *)
Definition reregistering (codec : ListenerMessageCodec) : World :=
  ListenerService.exec [ListenerService.ConnectionAdded c2] (registeredOnOne codec).

(** What happens after [deregisterListener] in the race: the reregistration
    is answered and its first callback runs. *)
Definition answered : list ListenerService.Event :=
  [ListenerService.InvocationCompletes 3%nat (Returns (message 12));
   ListenerService.Tick].

(** A listener registered on [c1] and [c2], with correlation ids 11 and 12. *)
Definition registeredOnTwo : World :=
  ListenerService.exec
    [ListenerService.RegisterListener listenerCodec 7%nat [c1; c2] "k";
     ListenerService.InvocationCompletes 1%nat (Returns (message 11));
     ListenerService.Tick; ListenerService.Tick;
     ListenerService.InvocationCompletes 2%nat (Returns (message 12));
     ListenerService.Tick; ListenerService.Tick]
    fresh.


(** [registerListener] with [c1] and [c2] active, nothing answered yet. *)
Definition registering : World :=
  ListenerService.exec
    [ListenerService.RegisterListener listenerCodec 7%nat [c1; c2] "k"] fresh.



(** A run in which [c1] is announced, a listener is registered and
    answered, and then [c2] is announced and the reregistration answered. *)
Definition orderly : list ListenerService.Event :=
  [ListenerService.ConnectionAdded c1;
   ListenerService.RegisterListener listenerCodec 7%nat [c1] "k";
   ListenerService.InvocationCompletes 1%nat (Returns (message 11));
   ListenerService.Tick; ListenerService.Tick;
   ListenerService.ConnectionAdded c2;
   ListenerService.InvocationCompletes 3%nat (Returns (message 12));
   ListenerService.Tick; ListenerService.Tick].

Definition groupId : RaftGroupId := mkRaftGroupId "default" 0 1.
Definition groupFrames (g : RaftGroupId) : list Frame :=
  [mkFrame (StringCodec.utf8 (groupName g))].
End Sample.

(** Further situations of the listener service. *)
Module Scenario.
Import Sample.

(** [deregisterListener] is called while the register requests on [c1] and
    [c2] (promises 1 and 2) are still unanswered. *)
Definition deregisteredEarly : World :=
  ListenerService.exec [ListenerService.DeregisterListener "k"] registering.

(** A listener codec that cannot decode the response. *)
Definition strictCodec : ListenerMessageCodec :=
  mkCodec (fun _ => addRequest) (fun _ => Throws (OtherError "Error" "bad frame"))
          (fun _ => Some removeRequest).

(** [registerListener] with [c1] active and the given codec, nothing
    answered yet. *)
Definition registeringWith (codec : ListenerMessageCodec) : World :=
  ListenerService.exec [ListenerService.RegisterListener codec 7%nat [c1] "k"] fresh.

(** [registerListener] finds [c1] active and sends its register request
    (promise 1); [c1] is announced while that request is in flight, and
    [onConnectionAdded] sends another (promise 3). *)
Definition announcedEarly : World :=
  ListenerService.exec
    [ListenerService.RegisterListener listenerCodec 7%nat [c1] "k";
     ListenerService.ConnectionAdded c1]
    fresh.

(** Both requests are answered, with correlation ids 11 and 12, and the
    callbacks have run. *)
Definition bothAnswered : World :=
  ListenerService.exec
    [ListenerService.InvocationCompletes 1%nat (Returns (message 11));
     ListenerService.Tick; ListenerService.Tick;
     ListenerService.InvocationCompletes 3%nat (Returns (message 12));
     ListenerService.Tick; ListenerService.Tick]
    announcedEarly.

(** Two listeners, "k" and "k2", registered on [c1]: their register
    requests (promises 1 and 3) answered with correlation ids 11 and 13. *)
Definition twoListeners : list ListenerService.Event :=
  [ListenerService.ConnectionAdded c1;
   ListenerService.RegisterListener listenerCodec 7%nat [c1] "k";
   ListenerService.InvocationCompletes 1%nat (Returns (message 11));
   ListenerService.Tick; ListenerService.Tick;
   ListenerService.RegisterListener listenerCodec 8%nat [c1] "k2";
   ListenerService.InvocationCompletes 3%nat (Returns (message 13));
   ListenerService.Tick; ListenerService.Tick].
End Scenario.

(** * Properties *)

(** ** Buffers and message headers *)

Module BufferFacts.
Import Buffer.

Lemma write_some (buf : t) (offset : nat) (bs : list byte) :
  (offset + List.length bs <= List.length buf)%nat ->
  write buf offset bs
  = Some (firstn offset buf ++ bs ++ skipn (offset + List.length bs) buf).
Proof.
  intros H. unfold write.
  destruct (Nat.leb_spec (offset + List.length bs) (List.length buf)); [reflexivity | lia].
Qed.

Lemma write_length (buf buf' : t) (offset : nat) (bs : list byte) :
  write buf offset bs = Some buf' -> List.length buf' = List.length buf.
Proof.
  unfold write.
  destruct (Nat.leb_spec (offset + List.length bs) (List.length buf)) as [Hle | Hgt];
    [| discriminate].
  intros [= <-].
  rewrite !length_app, length_firstn, length_skipn. lia.
Qed.

Lemma read_write_same (buf buf' : t) (offset : nat) (bs : list byte) :
  write buf offset bs = Some buf' ->
  read buf' offset (List.length bs) = Some bs.
Proof.
  intros Hw. pose proof (write_length _ _ _ _ Hw) as Hlen.
  unfold write in Hw.
  destruct (Nat.leb_spec (offset + List.length bs) (List.length buf)) as [Hle | Hgt];
    [| discriminate].
  injection Hw as <-. unfold read. rewrite Hlen.
  destruct (Nat.leb_spec (offset + List.length bs) (List.length buf)); [| lia].
  f_equal.
  rewrite skipn_app, length_firstn.
  replace (Nat.min offset (List.length buf)) with offset by lia.
  rewrite Nat.sub_diag. cbn [skipn].
  rewrite (skipn_all2 (firstn offset buf)) by (rewrite length_firstn; lia).
  cbn [app]. rewrite firstn_app, Nat.sub_diag, firstn_all. cbn [firstn].
  now rewrite app_nil_r.
Qed.

(** A write leaves the bytes before it as they were. *)
Lemma read_write_before (buf buf' : t) (offset : nat) (bs : list byte)
      (offset' n : nat) :
  write buf offset bs = Some buf' ->
  (offset' + n <= offset)%nat ->
  read buf' offset' n = read buf offset' n.
Proof.
  intros Hw Hd. pose proof (write_length _ _ _ _ Hw) as Hlen.
  unfold write in Hw.
  destruct (Nat.leb_spec (offset + List.length bs) (List.length buf)) as [Hle | Hgt];
    [| discriminate].
  injection Hw as <-. unfold read. rewrite Hlen.
  destruct (Nat.leb_spec (offset' + n) (List.length buf)); [| reflexivity].
  f_equal.
  rewrite <- (firstn_skipn offset buf) at 3.
  rewrite !skipn_app, !firstn_app.
  rewrite !length_skipn, !length_firstn.
  replace (Nat.min offset (List.length buf)) with offset by lia.
  replace (n - (offset - offset'))%nat with 0%nat by lia.
  cbn [firstn]. now rewrite !app_nil_r.
Qed.

Lemma signed_wrap (bits : nat) (v : Z) :
  (0 < bits)%nat ->
  - 2 ^ (Z.of_nat bits - 1) <= v < 2 ^ (Z.of_nat bits - 1) ->
  signed (Z.of_nat bits) (v mod 2 ^ Z.of_nat bits) = v.
Proof.
  intros Hb Hv. unfold signed.
  assert (Hp : 2 ^ Z.of_nat bits = 2 * 2 ^ (Z.of_nat bits - 1)).
  { rewrite <- Z.pow_succ_r by lia. f_equal. lia. }
  assert (0 < 2 ^ (Z.of_nat bits - 1)) by (apply Z.pow_pos_nonneg; lia).
  destruct (Z.ltb_spec (v mod 2 ^ Z.of_nat bits) (2 ^ (Z.of_nat bits - 1))) as [Hlt | Hge].
  - destruct (Z.neg_nonneg_cases v) as [Hneg | Hpos].
    + exfalso. rewrite <- (Z.mod_add v 1) in Hlt by lia.
      rewrite Z.mod_small in Hlt by lia. lia.
    + apply Z.mod_small. lia.
  - destruct (Z.neg_nonneg_cases v) as [Hneg | Hpos].
    + rewrite <- (Z.mod_add v 1) by lia.
      rewrite Z.mod_small by lia. lia.
    + exfalso. rewrite Z.mod_small in Hge by lia. lia.
Qed.

(** A write of a 32-bit integer that succeeds wrote a signed 32-bit
    value, and its four bytes fitted. *)
Lemma writeInt32LE_inv (buf buf' : t) (offset : nat) (v : Z) :
  writeInt32LE buf v offset = Some buf' ->
  - 2 ^ 31 <= v < 2 ^ 31 /\ write buf offset (le_split 4 v) = Some buf'.
Proof.
  unfold writeInt32LE.
  destruct (Z.leb_spec (- 2 ^ 31) v); destruct (Z.ltb_spec v (2 ^ 31));
    cbn [andb]; try discriminate.
  intros Hw. split; [lia | exact Hw].
Qed.

Lemma writeInt32LE_out_of_range (buf : t) (offset : nat) (v : Z) :
  ~ (- 2 ^ 31 <= v < 2 ^ 31) -> writeInt32LE buf v offset = None.
Proof.
  intros Hv. unfold writeInt32LE.
  destruct (Z.leb_spec (- 2 ^ 31) v); destruct (Z.ltb_spec v (2 ^ 31));
    cbn [andb]; try reflexivity.
  exfalso. apply Hv. lia.
Qed.

Lemma readInt32LE_writeInt32LE (buf buf' : t) (offset : nat) (v : Z) :
  - 2 ^ 31 <= v < 2 ^ 31 ->
  writeInt32LE buf v offset = Some buf' ->
  readInt32LE buf' offset = Some v.
Proof.
  intros Hv Hw. apply writeInt32LE_inv in Hw as [_ Hw]. unfold readInt32LE.
  apply read_write_same in Hw. rewrite length_le_split in Hw. rewrite Hw.
  cbn [option_map]. f_equal. rewrite le_combine_split.
  apply (signed_wrap 32); [lia | exact Hv].
Qed.

Lemma readInt32LE_writeInt32LE_before (buf buf' : t) (offset offset' : nat) (v : Z) :
  writeInt32LE buf v offset = Some buf' ->
  (offset' + 4 <= offset)%nat ->
  readInt32LE buf' offset' = readInt32LE buf offset'.
Proof.
  intros Hw Hd. apply writeInt32LE_inv in Hw as [_ Hw]. unfold readInt32LE.
  now rewrite (read_write_before _ _ _ _ offset' 4 Hw Hd).
Qed.

Lemma writeInt32LE_some (buf : t) (offset : nat) (v : Z) :
  - 2 ^ 31 <= v < 2 ^ 31 ->
  (offset + 4 <= List.length buf)%nat ->
  exists buf', writeInt32LE buf v offset = Some buf'
               /\ List.length buf' = List.length buf.
Proof.
  intros Hv H. unfold writeInt32LE.
  destruct (Z.leb_spec (- 2 ^ 31) v); [| lia].
  destruct (Z.ltb_spec v (2 ^ 31)); [| lia]. cbn [andb].
  rewrite write_some by (rewrite length_le_split; exact H).
  eexists. split; [reflexivity |].
  rewrite !length_app, length_firstn, length_skipn, length_le_split. lia.
Qed.
End BufferFacts.

Module AtomicLongAlterCodecFacts.
Import AtomicLongAlterCodec BufferFacts.

Ltac int32_range := split; [apply Z.leb_le | apply Z.ltb_lt]; reflexivity.

Lemma frames_fold_addFrame (fs : list Frame) (m : ClientMessage) :
  frames (fold_left addFrame fs m) = frames m ++ fs
  /\ retryable (fold_left addFrame fs m) = retryable m.
Proof.
  revert m. induction fs as [| f fs IH]; intros m; cbn [fold_left].
  - now rewrite app_nil_r.
  - destruct (IH (addFrame m f)) as [Hf Hr]. rewrite Hf, Hr. cbn.
    now rewrite <- app_assoc.
Qed.

(** The three child codecs only append frames: the start frame and the
    retryable flag stay as the header setters left them. *)
Lemma children_keep_header `{L : Layout} (raftGroupIdFrames : RaftGroupId -> list Frame)
      (start : Frame) (r : bool) (groupId : RaftGroupId) (name : string) (f : Data) :
  exists rest,
    DataCodec.encode
      (StringCodec.encode
         (RaftGroupIdCodec_encode raftGroupIdFrames
            (mkClientMessage [start] r) groupId) name) f
    = mkClientMessage (start :: rest) r.
Proof.
  unfold DataCodec.encode, StringCodec.encode, RaftGroupIdCodec_encode.
  destruct (frames_fold_addFrame (raftGroupIdFrames groupId)
              (mkClientMessage [start] r)) as [Hf Hr].
  destruct (fold_left addFrame (raftGroupIdFrames groupId)
              (mkClientMessage [start] r)) as [fs r'].
  cbn [frames retryable] in Hf, Hr. subst fs r'.
  unfold addFrame. cbn [frames retryable app].
  rewrite <- !app_assoc. eexists. reflexivity.
Qed.

(** C9, as amended.  For all arguments whose [returnValueType] is a
    signed 32-bit integer, [AtomicLongAlterCodec.encodeRequest] produces a
    message whose message type is the documented request code
    0x090200 = 590336, whose retryable flag has been set to false by the
    encoder (whatever the flag of a fresh message) and whose partition id
    is -1 (any member), in every initial-frame layout that puts the type
    field before the partition id. *)
Theorem encodeRequest_header `{L : Layout}
        (raftGroupIdFrames : RaftGroupId -> list Frame)
        (groupId : RaftGroupId) (name : string) (_function : Data)
        (returnValueType : Z) :
  (TYPE_FIELD_OFFSET + BitsUtil.INT_SIZE_IN_BYTES <= PARTITION_ID_OFFSET)%nat ->
  - 2 ^ 31 <= returnValueType < 2 ^ 31 ->
  exists clientMessage,
    encodeRequest raftGroupIdFrames groupId name _function returnValueType
    = Some clientMessage
    /\ getMessageType clientMessage = Some 590336
    /\ 590336 = 0x090200
    /\ isRetryable clientMessage = false
    /\ getPartitionId clientMessage = Some (-1).
Proof.
  intros Hlayout Hrange. unfold BitsUtil.INT_SIZE_IN_BYTES in Hlayout.
  unfold encodeRequest, createInitialFrame, FixSizedTypesCodec.encodeInt.
  cbn [content].
  assert (Hsize : List.length (Buffer.alloc REQUEST_INITIAL_FRAME_SIZE)
                  = (PARTITION_ID_OFFSET + 8)%nat).
  { unfold Buffer.alloc, REQUEST_INITIAL_FRAME_SIZE, REQUEST_RETURN_VALUE_TYPE_OFFSET,
      BitsUtil.INT_SIZE_IN_BYTES. rewrite repeat_length. lia. }
  destruct (writeInt32LE_some (Buffer.alloc REQUEST_INITIAL_FRAME_SIZE)
              REQUEST_RETURN_VALUE_TYPE_OFFSET returnValueType Hrange)
    as (b0 & Hb0 & Hl0).
  { rewrite Hsize. unfold REQUEST_RETURN_VALUE_TYPE_OFFSET, BitsUtil.INT_SIZE_IN_BYTES. lia. }
  rewrite Hb0. cbn [option_map bind].
  unfold setMessageType, updateStartFrame, setRetryable, createForEncode, addFrame.
  cbn [frames retryable app content].
  destruct (writeInt32LE_some b0 TYPE_FIELD_OFFSET REQUEST_MESSAGE_TYPE)
    as (b1 & Hb1 & Hl1); [int32_range | lia |].
  rewrite Hb1. cbn [option_map bind].
  unfold setPartitionId, updateStartFrame. cbn [frames retryable content].
  destruct (writeInt32LE_some b1 PARTITION_ID_OFFSET (-1)) as (b2 & Hb2 & Hl2);
    [int32_range | lia |].
  rewrite Hb2. cbn [option_map bind].
  destruct (children_keep_header raftGroupIdFrames (mkFrame b2) false
              groupId name _function) as [rest Hrest].
  rewrite Hrest. eexists. split; [reflexivity |].
  unfold getMessageType, getPartitionId, readStartFrame, isRetryable.
  cbn [frames retryable content].
  repeat split.
  - rewrite (readInt32LE_writeInt32LE_before _ _ _ _ _ Hb2) by lia.
    eapply readInt32LE_writeInt32LE; [| exact Hb1]. int32_range.
  - eapply readInt32LE_writeInt32LE; [| exact Hb2]. int32_range.
Qed.

Lemma encodeRequest_header_witness :
  (@TYPE_FIELD_OFFSET Sample.layout + BitsUtil.INT_SIZE_IN_BYTES
     <= @PARTITION_ID_OFFSET Sample.layout)%nat
  /\ - 2 ^ 31 <= 1 < 2 ^ 31
  /\ @initiallyRetryable Sample.layout = true
  /\ exists clientMessage,
    @encodeRequest Sample.layout Sample.groupFrames Sample.groupId "counter" [] 1
    = Some clientMessage
    /\ @getMessageType Sample.layout clientMessage = Some 590336
    /\ 590336 = 0x090200
    /\ isRetryable clientMessage = false
    /\ @getPartitionId Sample.layout clientMessage = Some (-1).
Proof.
  assert (H : (@TYPE_FIELD_OFFSET Sample.layout + BitsUtil.INT_SIZE_IN_BYTES
               <= @PARTITION_ID_OFFSET Sample.layout)%nat) by (vm_compute; lia).
  assert (H1 : - 2 ^ 31 <= 1 < 2 ^ 31) by int32_range.
  split; [exact H |]. split; [exact H1 |]. split; [reflexivity |].
  exact (@encodeRequest_header Sample.layout Sample.groupFrames Sample.groupId
           "counter" [] 1 H H1).
Defined.

(** With [returnValueType] = 2^31, which is no signed 32-bit integer,
    [encodeInt] throws: [encodeRequest] produces no message. *)
Lemma encodeRequest_wide_returnValueType :
  @encodeRequest Sample.layout Sample.groupFrames Sample.groupId "counter" []
    2147483648 = None
  /\ ~ exists clientMessage,
        @encodeRequest Sample.layout Sample.groupFrames Sample.groupId "counter" []
          2147483648 = Some clientMessage
        /\ @getMessageType Sample.layout clientMessage = Some 590336
        /\ isRetryable clientMessage = false
        /\ @getPartitionId Sample.layout clientMessage = Some (-1).
Proof.
  assert (H : @encodeRequest Sample.layout Sample.groupFrames Sample.groupId
                "counter" [] 2147483648 = None) by (vm_compute; reflexivity).
  split; [exact H |].
  intros (clientMessage & Hsome & _). rewrite H in Hsome. discriminate.
Qed.
End AtomicLongAlterCodecFacts.

(** ** AtomicLongAlterCodec: layout of the request, reading the response *)

Module CodecRoundTrips.
Import Buffer AtomicLongAlterCodec BufferFacts AtomicLongAlterCodecFacts.

(** A write leaves the bytes after it as they were. *)
Lemma read_write_after (buf buf' : t) (offset : nat) (bs : list byte)
      (offset' n : nat) :
  write buf offset bs = Some buf' ->
  (offset + List.length bs <= offset')%nat ->
  read buf' offset' n = read buf offset' n.
Proof.
  intros Hw Hd. pose proof (write_length _ _ _ _ Hw) as Hlen.
  unfold write in Hw.
  destruct (Nat.leb_spec (offset + List.length bs) (List.length buf)) as [Hle | Hgt];
    [| discriminate].
  injection Hw as <-. unfold read. rewrite Hlen.
  destruct (Nat.leb_spec (offset' + n) (List.length buf)); [| reflexivity].
  f_equal. f_equal.
  rewrite !skipn_app, length_firstn.
  replace (Nat.min offset (List.length buf)) with offset by lia.
  rewrite (skipn_all2 (firstn offset buf)) by (rewrite length_firstn; lia).
  rewrite (skipn_all2 bs) by lia. cbn [app].
  rewrite skipn_skipn. f_equal. lia.
Qed.

Lemma readInt32LE_writeInt32LE_after (buf buf' : t) (offset offset' : nat) (v : Z) :
  writeInt32LE buf v offset = Some buf' ->
  (offset + 4 <= offset')%nat ->
  readInt32LE buf' offset' = readInt32LE buf offset'.
Proof.
  intros Hw Hd. apply writeInt32LE_inv in Hw as [_ Hw]. unfold readInt32LE.
  rewrite (read_write_after _ _ _ _ offset' 4 Hw); [reflexivity |].
  rewrite length_le_split. exact Hd.
Qed.

Lemma readInt64LE_writeInt64LE (buf buf' : t) (offset : nat) (v : Z) :
  - 2 ^ 63 <= v < 2 ^ 63 ->
  writeInt64LE buf v offset = Some buf' ->
  readInt64LE buf' offset = Some v.
Proof.
  intros Hv Hw. unfold writeInt64LE in Hw. unfold readInt64LE.
  apply read_write_same in Hw. rewrite length_le_split in Hw. rewrite Hw.
  cbn [option_map]. f_equal. rewrite le_combine_split.
  apply (signed_wrap 64); [lia | exact Hv].
Qed.

Section WithLayout.
Context {L : Layout}.
Variable raftGroupIdFrames : RaftGroupId -> list Frame.

(** [encodeRequest] step by step, in a layout with the type field before
    the partition id. *)
Lemma encodeRequest_run (groupId : RaftGroupId) (name : string) (_function : Data)
      (returnValueType : Z) :
  (TYPE_FIELD_OFFSET + BitsUtil.INT_SIZE_IN_BYTES <= PARTITION_ID_OFFSET)%nat ->
  - 2 ^ 31 <= returnValueType < 2 ^ 31 ->
  exists b0 b1 b2,
    writeInt32LE (alloc REQUEST_INITIAL_FRAME_SIZE) returnValueType
      REQUEST_RETURN_VALUE_TYPE_OFFSET = Some b0
    /\ writeInt32LE b0 REQUEST_MESSAGE_TYPE TYPE_FIELD_OFFSET = Some b1
    /\ writeInt32LE b1 (-1) PARTITION_ID_OFFSET = Some b2
    /\ List.length b2 = REQUEST_INITIAL_FRAME_SIZE
    /\ encodeRequest raftGroupIdFrames groupId name _function returnValueType
       = Some (mkClientMessage
                 (mkFrame b2
                    :: raftGroupIdFrames groupId
                    ++ [mkFrame (StringCodec.utf8 name); mkFrame _function])
                 false).
Proof.
  intros Hlayout Hrange. unfold BitsUtil.INT_SIZE_IN_BYTES in Hlayout.
  assert (Hsize : List.length (alloc REQUEST_INITIAL_FRAME_SIZE)
                  = REQUEST_INITIAL_FRAME_SIZE).
  { unfold alloc. apply repeat_length. }
  assert (Hfs : REQUEST_INITIAL_FRAME_SIZE = (PARTITION_ID_OFFSET + 8)%nat).
  { unfold REQUEST_INITIAL_FRAME_SIZE, REQUEST_RETURN_VALUE_TYPE_OFFSET,
      BitsUtil.INT_SIZE_IN_BYTES. lia. }
  destruct (writeInt32LE_some (alloc REQUEST_INITIAL_FRAME_SIZE)
              REQUEST_RETURN_VALUE_TYPE_OFFSET returnValueType Hrange)
    as (b0 & Hb0 & Hl0).
  { rewrite Hsize, Hfs. unfold REQUEST_RETURN_VALUE_TYPE_OFFSET,
      BitsUtil.INT_SIZE_IN_BYTES. lia. }
  destruct (writeInt32LE_some b0 TYPE_FIELD_OFFSET REQUEST_MESSAGE_TYPE)
    as (b1 & Hb1 & Hl1); [int32_range | lia |].
  destruct (writeInt32LE_some b1 PARTITION_ID_OFFSET (-1)) as (b2 & Hb2 & Hl2);
    [int32_range | lia |].
  exists b0, b1, b2. repeat split; try assumption; [lia |].
  unfold encodeRequest, createInitialFrame, FixSizedTypesCodec.encodeInt.
  cbn [content]. rewrite Hb0. cbn [option_map bind].
  unfold setMessageType, updateStartFrame, setRetryable, createForEncode, addFrame.
  cbn [frames retryable app content]. rewrite Hb1. cbn [option_map bind].
  unfold setPartitionId, updateStartFrame. cbn [frames retryable content].
  rewrite Hb2. cbn [option_map bind].
  unfold DataCodec.encode, StringCodec.encode, RaftGroupIdCodec_encode.
  destruct (frames_fold_addFrame (raftGroupIdFrames groupId)
              (mkClientMessage [mkFrame b2] false)) as [Hf Hr].
  destruct (fold_left addFrame (raftGroupIdFrames groupId)
              (mkClientMessage [mkFrame b2] false)) as [fs r'].
  cbn [frames retryable] in Hf, Hr. subst fs r'.
  unfold addFrame. cbn [frames retryable app].
  now rewrite <- !app_assoc.
Qed.

(** X17.  For a [returnValueType] that is a signed 32-bit integer, the
    request of [encodeRequest] is laid out positionally: the initial frame
    of [PARTITION_ID_OFFSET + 8] bytes, then the frames of the group id,
    then the name as one frame, then the function data as the last
    frame. *)
Theorem encodeRequest_frame_order (groupId : RaftGroupId) (name : string)
        (_function : Data) (returnValueType : Z) :
  (TYPE_FIELD_OFFSET + BitsUtil.INT_SIZE_IN_BYTES <= PARTITION_ID_OFFSET)%nat ->
  - 2 ^ 31 <= returnValueType < 2 ^ 31 ->
  exists clientMessage initialFrame,
    encodeRequest raftGroupIdFrames groupId name _function returnValueType
    = Some clientMessage
    /\ frames clientMessage
       = initialFrame
           :: raftGroupIdFrames groupId
           ++ [mkFrame (StringCodec.utf8 name); mkFrame _function]
    /\ List.length (content initialFrame) = (PARTITION_ID_OFFSET + 8)%nat
    /\ List.length (frames clientMessage)
       = (List.length (raftGroupIdFrames groupId) + 3)%nat.
Proof.
  intros Hlayout Hrange.
  destruct (encodeRequest_run groupId name _function returnValueType Hlayout Hrange)
    as (b0 & b1 & b2 & _ & _ & _ & Hlen & Hrun).
  eexists _, (mkFrame b2). split; [exact Hrun |]. cbn [frames content].
  split; [reflexivity |]. split.
  - rewrite Hlen. unfold REQUEST_INITIAL_FRAME_SIZE, REQUEST_RETURN_VALUE_TYPE_OFFSET,
      BitsUtil.INT_SIZE_IN_BYTES. lia.
  - cbn. rewrite length_app. cbn. lia.
Qed.

(** X18.  A 32-bit [returnValueType] can be read back from the request at
    [PARTITION_ID_OFFSET + 4]: the message type and the partition id that
    [encodeRequest] writes afterwards do not reach it. *)
Theorem encodeRequest_returnValueType (groupId : RaftGroupId) (name : string)
        (_function : Data) (returnValueType : Z) :
  (TYPE_FIELD_OFFSET + BitsUtil.INT_SIZE_IN_BYTES <= PARTITION_ID_OFFSET)%nat ->
  - 2 ^ 31 <= returnValueType < 2 ^ 31 ->
  exists clientMessage,
    encodeRequest raftGroupIdFrames groupId name _function returnValueType
    = Some clientMessage
    /\ readStartFrame clientMessage
         (fun c => readInt32LE c (PARTITION_ID_OFFSET + 4))
       = Some returnValueType.
Proof.
  intros Hlayout Hrange.
  destruct (encodeRequest_run groupId name _function returnValueType Hlayout Hrange)
    as (b0 & b1 & b2 & Hb0 & Hb1 & Hb2 & _ & Hrun).
  unfold BitsUtil.INT_SIZE_IN_BYTES in Hlayout.
  eexists. split; [exact Hrun |].
  unfold readStartFrame. cbn [frames content].
  unfold REQUEST_RETURN_VALUE_TYPE_OFFSET, BitsUtil.INT_SIZE_IN_BYTES in Hb0.
  rewrite (readInt32LE_writeInt32LE_after _ _ _ _ _ Hb2) by lia.
  rewrite (readInt32LE_writeInt32LE_after _ _ _ _ _ Hb1) by lia.
  now apply (readInt32LE_writeInt32LE _ _ _ _ Hrange Hb0).
Qed.

(** X26.  [encodeRequest] throws exactly when [returnValueType] is not a
    signed 32-bit integer: [encodeInt] refuses it, before the message has
    got its first frame.  For every other argument list it returns a
    message. *)
Theorem encodeRequest_throws_iff (groupId : RaftGroupId) (name : string)
        (_function : Data) (returnValueType : Z) :
  (TYPE_FIELD_OFFSET + BitsUtil.INT_SIZE_IN_BYTES <= PARTITION_ID_OFFSET)%nat ->
  encodeRequest raftGroupIdFrames groupId name _function returnValueType = None
  <-> ~ (- 2 ^ 31 <= returnValueType < 2 ^ 31).
Proof.
  intros Hlayout. split.
  - intros Hnone Hrange.
    destruct (encodeRequest_run groupId name _function returnValueType Hlayout Hrange)
      as (b0 & b1 & b2 & _ & _ & _ & _ & Hrun).
    rewrite Hrun in Hnone. discriminate.
  - intros Hwide.
    unfold encodeRequest, FixSizedTypesCodec.encodeInt. cbn [content].
    now rewrite (writeInt32LE_out_of_range _ _ _ Hwide).
Qed.

(** X19.  [decodeResponse] reads the response from the initial frame alone, as
    the 64-bit integer at [RESPONSE_BACKUP_ACKS_OFFSET + 1]: it returns a
    value written there with [FixSizedTypesCodec.encodeLong], whatever
    frames follow; it fails on a message without frames and on an initial
    frame shorter than [RESPONSE_BACKUP_ACKS_OFFSET + 9] bytes. *)
Theorem decodeResponse_reads_initial_frame :
  (forall (initialFrame written : Frame) (rest : list Frame) (r : bool) (response : Z),
      - 2 ^ 63 <= response < 2 ^ 63 ->
      FixSizedTypesCodec.encodeLong initialFrame (RESPONSE_BACKUP_ACKS_OFFSET + 1) response
      = Some written ->
      decodeResponse (mkClientMessage (written :: rest) r) = Some response)
  /\ (forall r, decodeResponse (mkClientMessage [] r) = None)
  /\ (forall (initialFrame : Frame) (rest : list Frame) (r : bool),
         (List.length (content initialFrame) < RESPONSE_BACKUP_ACKS_OFFSET + 9)%nat ->
         decodeResponse (mkClientMessage (initialFrame :: rest) r) = None).
Proof.
  split; [| split].
  - intros initialFrame written rest r response Hrange Hw.
    unfold decodeResponse, FixSizedTypesCodec.decodeLong, FixSizedTypesCodec.encodeLong in *.
    cbn [frames].
    destruct (writeInt64LE (content initialFrame) response (RESPONSE_BACKUP_ACKS_OFFSET + 1))
      as [b |] eqn:E; [| discriminate].
    injection Hw as <-. cbn [content].
    unfold RESPONSE_RESPONSE_OFFSET, BitsUtil.BYTE_SIZE_IN_BYTES.
    now apply (readInt64LE_writeInt64LE _ _ _ _ Hrange E).
  - reflexivity.
  - intros initialFrame rest r Hshort.
    unfold decodeResponse, FixSizedTypesCodec.decodeLong, readInt64LE, read.
    cbn [frames].
    unfold RESPONSE_RESPONSE_OFFSET, BitsUtil.BYTE_SIZE_IN_BYTES.
    destruct (Nat.leb_spec (RESPONSE_BACKUP_ACKS_OFFSET + 1 + 8)
                (List.length (content initialFrame))); [lia | reflexivity].
Qed.
End WithLayout.

Lemma encodeRequest_frame_order_witness :
  (@TYPE_FIELD_OFFSET Sample.layout + BitsUtil.INT_SIZE_IN_BYTES
     <= @PARTITION_ID_OFFSET Sample.layout)%nat
  /\ - 2 ^ 31 <= 1 < 2 ^ 31
  /\ exists clientMessage initialFrame,
    @encodeRequest Sample.layout Sample.groupFrames Sample.groupId "counter" [] 1
    = Some clientMessage
    /\ frames clientMessage
       = initialFrame
           :: Sample.groupFrames Sample.groupId
           ++ [mkFrame (StringCodec.utf8 "counter"); mkFrame []]
    /\ List.length (content initialFrame) = (@PARTITION_ID_OFFSET Sample.layout + 8)%nat
    /\ List.length (frames clientMessage)
       = (List.length (Sample.groupFrames Sample.groupId) + 3)%nat.
Proof.
  assert (H : (@TYPE_FIELD_OFFSET Sample.layout + BitsUtil.INT_SIZE_IN_BYTES
               <= @PARTITION_ID_OFFSET Sample.layout)%nat) by (vm_compute; lia).
  assert (H1 : - 2 ^ 31 <= 1 < 2 ^ 31) by int32_range.
  split; [exact H |]. split; [exact H1 |].
  exact (@encodeRequest_frame_order Sample.layout Sample.groupFrames Sample.groupId
           "counter" [] 1 H H1).
Defined.

Lemma encodeRequest_throws_iff_witness :
  (@TYPE_FIELD_OFFSET Sample.layout + BitsUtil.INT_SIZE_IN_BYTES
     <= @PARTITION_ID_OFFSET Sample.layout)%nat
  /\ @encodeRequest Sample.layout Sample.groupFrames Sample.groupId "counter" []
       (-2147483649) = None
  /\ (@encodeRequest Sample.layout Sample.groupFrames Sample.groupId "counter" []
        (-2147483649) = None
      <-> ~ (- 2 ^ 31 <= -2147483649 < 2 ^ 31)).
Proof.
  assert (H : (@TYPE_FIELD_OFFSET Sample.layout + BitsUtil.INT_SIZE_IN_BYTES
               <= @PARTITION_ID_OFFSET Sample.layout)%nat) by (vm_compute; lia).
  split; [exact H |]. split; [vm_compute; reflexivity |].
  exact (@encodeRequest_throws_iff Sample.layout Sample.groupFrames Sample.groupId
           "counter" [] (-2147483649) H).
Defined.

Lemma encodeRequest_returnValueType_witness :
  (@TYPE_FIELD_OFFSET Sample.layout + BitsUtil.INT_SIZE_IN_BYTES
     <= @PARTITION_ID_OFFSET Sample.layout)%nat
  /\ - 2 ^ 31 <= 2 < 2 ^ 31
  /\ exists clientMessage,
    @encodeRequest Sample.layout Sample.groupFrames Sample.groupId "counter" [] 2
    = Some clientMessage
    /\ readStartFrame clientMessage
         (fun c => readInt32LE c (@PARTITION_ID_OFFSET Sample.layout + 4))
       = Some 2.
Proof.
  assert (H : (@TYPE_FIELD_OFFSET Sample.layout + BitsUtil.INT_SIZE_IN_BYTES
               <= @PARTITION_ID_OFFSET Sample.layout)%nat) by (vm_compute; lia).
  assert (H2 : - 2 ^ 31 <= 2 < 2 ^ 31) by int32_range.
  split; [exact H |]. split; [exact H2 |].
  exact (@encodeRequest_returnValueType Sample.layout Sample.groupFrames Sample.groupId
           "counter" [] 2 H H2).
Defined.
End CodecRoundTrips.

(** ** BaseCPProxy *)

Module BaseCPProxyFacts.
Import BaseCPProxy.

(** C10.  For every CP Subsystem proxy, [getPartitionKey] throws an
    UnsupportedOperationError: no proxy state makes it return a key. *)
Theorem getPartitionKey_unsupported (proxy : BaseCPProxy.t) :
  getPartitionKey proxy
  = Throws (UnsupportedOperationError "This operation is not supported by CP Subsystem")
  /\ forall key, getPartitionKey proxy <> Returns key.
Proof.
  split; [reflexivity | intros key; discriminate].
Qed.
End BaseCPProxyFacts.

(** ** RingbufferProxy *)

Module RingbufferProxyFacts.
Import RingbufferProxy.

Lemma fromValue_negative (sequence : Z) :
  Long.lessThan (Long.fromValue sequence) 0 = (sequence <? 0).
Proof.
  unfold Long.lessThan, Long.fromValue, Long.MIN_VALUE, Long.MAX_VALUE.
  destruct (Z.leb_spec sequence (- 2 ^ 63));
    [| destruct (Z.leb_spec (2 ^ 63) (sequence + 1))];
    destruct (Z.ltb_spec sequence 0); 
    repeat match goal with |- (?a <? ?b) = _ => destruct (Z.ltb_spec a b) end;
    try reflexivity; lia.
Qed.

(** C8.  [readMany] with [minCount > maxCount], with a negative sequence
    or with a negative [minCount] throws a RangeError and has by then
    asked nothing of its collaborators: no [toData], no request encoded,
    no invocation. *)
Theorem readMany_rejects (Object : Type) (toData : option Object -> Data)
        (sequence minCount maxCount : Z) (filter : option Object) :
  minCount > maxCount \/ sequence < 0 \/ minCount < 0 ->
  exists message,
    readMany Object toData sequence minCount maxCount filter
    = ([], Throws (RangeError message)).
Proof.
  intros H. unfold readMany. rewrite fromValue_negative.
  destruct (Z.ltb_spec sequence 0); [eexists; reflexivity |].
  destruct (Z.ltb_spec minCount 0); [eexists; reflexivity |].
  destruct (Z.gtb_spec minCount maxCount); [eexists; reflexivity |].
  lia.
Qed.

Lemma readMany_rejects_witness :
  (5 > 3 \/ 0 < 0 \/ 5 < 0)
  /\ exists message,
    readMany nat (fun _ => []) 0 5 3 None = ([], Throws (RangeError message)).
Proof.
  assert (H : 5 > 3 \/ 0 < 0 \/ 5 < 0) by (left; lia).
  split; [exact H |].
  exact (readMany_rejects nat (fun _ => []) 0 5 3 None H).
Defined.
End RingbufferProxyFacts.

(** ** RingbufferProxy: which reads are accepted *)

Module RingbufferReads.
Import RingbufferProxy RingbufferProxyFacts.

Section WithSerialization.
Variable Object : Type.
Variable toData : option Object -> Data.

(** X20.  [readOne] throws a RangeError exactly for a negative sequence, and has
    then asked nothing of its collaborators; for any other sequence,
    however large, it hands one ReadOne request to [encodeInvoke] with the
    sequence as given. *)
Theorem readOne_rejects_only_negative (sequence : Z) :
  (sequence < 0 ->
   readOne Object sequence
   = ([], Throws (RangeError
                    ("Sequence number should not be less than zero, was: "
                     ++ toString sequence)%string)))
  /\ (0 <= sequence ->
      readOne Object sequence
      = ([EncodeInvoke Object RingbufferReadOneCodec [ANumber sequence]],
         Returns (ThenDecode RingbufferReadOneCodec))).
Proof.
  unfold readOne. rewrite fromValue_negative.
  destruct (Z.ltb_spec sequence 0); split; intros; try lia; reflexivity.
Qed.

End WithSerialization.
End RingbufferReads.

(** ** Maps and lists *)

Module JsMapFacts.
Import JsMap.

Section WithKey.
Context {K V : Type} (eqb : K -> K -> bool).

Lemma get_filter_none (f : K * V -> bool) (m : @JsMap.t K V) (k : K) :
  get eqb m k = None -> get eqb (filter f m) k = None.
Proof.
  induction m as [| [k' v] m IH]; cbn; [reflexivity |].
  destruct (eqb k' k) eqn:E; [discriminate |].
  intros H. destruct (f (k', v)); cbn; [rewrite E |]; auto.
Qed.

Lemma get_delete_same (m : @JsMap.t K V) (k : K) :
  get eqb (delete eqb m k) k = None.
Proof.
  unfold delete. induction m as [| [k' v] m IH]; cbn; [reflexivity |].
  destruct (eqb k' k) eqn:E; cbn; [exact IH | now rewrite E].
Qed.

Lemma get_delete_none (m : @JsMap.t K V) (k k' : K) :
  get eqb m k = None -> get eqb (delete eqb m k') k = None.
Proof. apply get_filter_none. Qed.

Lemma get_in (m : @JsMap.t K V) (k : K) (v : V) :
  get eqb m k = Some v -> exists k', In (k', v) m /\ eqb k' k = true.
Proof.
  induction m as [| [k' v'] m IH]; cbn; [discriminate |].
  destruct (eqb k' k) eqn:E.
  - intros [= ->]. exists k'. auto.
  - intros H. destruct (IH H) as (k0 & Hin & Hk). exists k0. auto.
Qed.

Lemma has_get (m : @JsMap.t K V) (k : K) :
  has eqb m k = true <-> exists v, get eqb m k = Some v.
Proof.
  unfold has. destruct (get eqb m k) as [v |]; split; intros H.
  - now exists v.
  - reflexivity.
  - discriminate.
  - now destruct H.
Qed.
End WithKey.

Lemma get_set_other {V : Type} (m : @JsMap.t string V) (k k' : string) (v : V) :
k' <> k ->
get String.eqb (set String.eqb m k' v) k = get String.eqb m k.
Proof.
intros Hne. induction m as [| [k0 v0] m IH]; cbn.
- destruct (String.eqb_spec k' k); [contradiction | reflexivity].
- destruct (String.eqb_spec k0 k'); cbn.
  + subst k0. destruct (String.eqb_spec k' k); [contradiction | reflexivity].
  + destruct (String.eqb_spec k0 k); [reflexivity | exact IH].
Qed.
End JsMapFacts.

Module ListFacts.
Lemma replaceNth_length {A} (n : nat) (a : A) (l : list A) :
  List.length (replaceNth n a l) = List.length l.
Proof.
  unfold replaceNth. rewrite length_app, length_firstn.
  destruct (skipn n l) as [| b rest] eqn:E.
  - apply (f_equal (@List.length A)) in E. rewrite length_skipn in E. cbn in *. lia.
  - apply (f_equal (@List.length A)) in E. rewrite length_skipn in E. cbn in *. lia.
Qed.

Lemma replaceNth_last {A} (a b : A) (l : list A) :
  replaceNth (List.length l) a (l ++ [b]) = l ++ [a].
Proof.
  unfold replaceNth.
  rewrite firstn_app, Nat.sub_diag, firstn_all, skipn_app, Nat.sub_diag, skipn_all.
  cbn. now rewrite app_nil_r.
Qed.

Lemma nth_error_replaceNth_same {A} (n : nat) (a : A) (l : list A) :
  (n < List.length l)%nat -> nth_error (replaceNth n a l) n = Some a.
Proof.
  intros H. unfold replaceNth.
  rewrite nth_error_app2 by (rewrite length_firstn; lia).
  rewrite length_firstn. replace (n - Nat.min n (List.length l))%nat with 0%nat by lia.
  destruct (skipn n l) eqn:E; [| reflexivity].
  apply (f_equal (@List.length A)) in E. rewrite length_skipn in E. cbn in E. lia.
Qed.

Lemma nth_error_replaceNth_other {A} (n m : nat) (a : A) (l : list A) :
  n <> m -> nth_error (replaceNth n a l) m = nth_error l m.
Proof.
  intros Hne. unfold replaceNth.
  rewrite <- (firstn_skipn n l) at 3.
  destruct (Nat.lt_ge_cases m n) as [Hlt | Hge].
  - destruct (Nat.lt_ge_cases m (List.length l)) as [Hm | Hm].
    + rewrite !nth_error_app1 by (rewrite length_firstn; lia). reflexivity.
    + rewrite (proj2 (nth_error_None _ _)).
      * symmetry. apply nth_error_None. rewrite firstn_skipn. exact Hm.
      * rewrite length_app, length_firstn.
        destruct (skipn n l) eqn:E; cbn; [lia |].
        apply (f_equal (@List.length A)) in E. rewrite length_skipn in E. cbn in E. lia.
  - destruct (Nat.lt_ge_cases n (List.length l)) as [Hn | Hn].
    + rewrite !nth_error_app2 by (rewrite length_firstn; lia).
      rewrite length_firstn. replace (Nat.min n (List.length l)) with n by lia.
      destruct (skipn n l) as [| b rest]; [reflexivity |].
      destruct (m - n)%nat eqn:E; [lia | reflexivity].
    + rewrite skipn_all2 by lia. reflexivity.
Qed.

Lemma nth_replaceNth_same {A} (n : nat) (a d : A) (l : list A) :
  (n < List.length l)%nat -> nth n (replaceNth n a l) d = a.
Proof.
  intros H. apply nth_error_nth. now apply nth_error_replaceNth_same.
Qed.

Lemma nth_replaceNth_other {A} (n m : nat) (a d : A) (l : list A) :
  n <> m -> nth m (replaceNth n a l) d = nth m l d.
Proof.
  intros H. rewrite <- !nth_default_eq. unfold nth_default.
  now rewrite nth_error_replaceNth_other.
Qed.
End ListFacts.

(** ** ListenerService: reasoning tools *)

(** Structural rules for [stable]: a relation that the parts of a
    computation respect is respected by the whole. *)
Module Stability.
Import ListenerTerms.
Section Stable.
Variable R : World -> World -> Prop.
Context {R_pre : PreOrder R}.

Local Abbreviation stable := (ListenerTerms.stable R).

Lemma stable_ret {A} (a : A) : stable (ret a).
Proof. intros w. cbn. reflexivity. Qed.

Lemma stable_throw {A} (e : Exception) : stable (@throw A e).
Proof. intros w. cbn. reflexivity. Qed.

Lemma stable_gets {A} (f : World -> A) : stable (gets f).
Proof. intros w. cbn. reflexivity. Qed.

Lemma stable_modify (f : World -> World) :
  (forall w, R w (f w)) -> stable (modify f).
Proof. intros H w. cbn. apply H. Qed.

Lemma stable_bind {A B} (m : M A) (k : A -> M B) :
  stable m -> (forall a, stable (k a)) -> stable (bind m k).
Proof.
  intros Hm Hk w. unfold bind. specialize (Hm w).
  destruct (m w) as [[a | e] w']; cbn in *.
  - etransitivity; [exact Hm | apply Hk].
  - exact Hm.
Qed.

Lemma stable_forEach {A} (l : list A) (f : A -> M unit) :
  (forall a, stable (f a)) -> stable (forEach l f).
Proof.
  intros Hf. induction l as [| a l IH]; cbn [forEach].
  - apply stable_ret.
  - apply stable_bind; auto.
Qed.
End Stable.
End Stability.

Module ListenerFrames.
Import ListenerService ListenerTerms Stability.

#[export] Instance on_pre {X} (f : World -> X) (Q : X -> X -> Prop)
  `{PreOrder X Q} : PreOrder (on f Q).
Proof.
  split.
  - intros w. unfold on. reflexivity.
  - intros a b c Hab Hbc. unfold on in *. etransitivity; eassumption.
Qed.

Lemma stable_keeps {X} (f : World -> X) (Q : X -> X -> Prop) `{PreOrder X Q}
      {A} (m : M A) :
  (forall w, f (snd (m w)) = f w) -> stable (on f Q) m.
Proof. intros Hk w. unfold on. rewrite Hk. reflexivity. Qed.

(** *** What each primitive leaves alone *)

Ltac by_cases_on_cell :=
  intros;
  match goal with
  | |- context [settle ?p ?s ?w] =>
      unfold settle; destruct (nth_error (promises w) p) as [[[?|] ? ?]|]
  | |- context [subscribe ?p ?r ?w] =>
      unfold subscribe; destruct (nth_error (promises w) p) as [[[?|] ? ?]|]
  end; reflexivity.

Lemma perform_this c w : this (snd (perform c w)) = this w.
Proof. reflexivity. Qed.
Lemma perform_heap c w : heap (snd (perform c w)) = heap w.
Proof. reflexivity. Qed.
Lemma perform_promises c w : promises (snd (perform c w)) = promises w.
Proof. reflexivity. Qed.
Lemma perform_tasks c w : tasks (snd (perform c w)) = tasks w.
Proof. reflexivity. Qed.

Lemma newPromise_this e w : this (snd (newPromise e w)) = this w.
Proof. reflexivity. Qed.
Lemma newPromise_heap e w : heap (snd (newPromise e w)) = heap w.
Proof. reflexivity. Qed.
Lemma newPromise_trace e w : trace (snd (newPromise e w)) = trace w.
Proof. reflexivity. Qed.
Lemma newPromise_tasks e w : tasks (snd (newPromise e w)) = tasks w.
Proof. reflexivity. Qed.

Lemma settle_this p s w : this (snd (settle p s w)) = this w.
Proof. by_cases_on_cell. Qed.
Lemma settle_heap p s w : heap (snd (settle p s w)) = heap w.
Proof. by_cases_on_cell. Qed.
Lemma settle_trace p s w : trace (snd (settle p s w)) = trace w.
Proof. by_cases_on_cell. Qed.

Lemma subscribe_this p r w : this (snd (subscribe p r w)) = this w.
Proof. by_cases_on_cell. Qed.
Lemma subscribe_heap p r w : heap (snd (subscribe p r w)) = heap w.
Proof. by_cases_on_cell. Qed.
Lemma subscribe_trace p r w : trace (snd (subscribe p r w)) = trace w.
Proof. by_cases_on_cell. Qed.

Lemma enqueue_this t w : this (snd (enqueue t w)) = this w.
Proof. reflexivity. Qed.
Lemma enqueue_heap t w : heap (snd (enqueue t w)) = heap w.
Proof. reflexivity. Qed.
Lemma enqueue_promises t w : promises (snd (enqueue t w)) = promises w.
Proof. reflexivity. Qed.
Lemma enqueue_trace t w : trace (snd (enqueue t w)) = trace w.
Proof. reflexivity. Qed.

Lemma newMap_this w : this (snd (newMap w)) = this w.
Proof. reflexivity. Qed.
Lemma newMap_promises w : promises (snd (newMap w)) = promises w.
Proof. reflexivity. Qed.
Lemma newMap_trace w : trace (snd (newMap w)) = trace w.
Proof. reflexivity. Qed.

Lemma mapSet_this l c r w : this (snd (mapSet l c r w)) = this w.
Proof. reflexivity. Qed.
Lemma mapSet_promises l c r w : promises (snd (mapSet l c r w)) = promises w.
Proof. reflexivity. Qed.
Lemma mapSet_trace l c r w : trace (snd (mapSet l c r w)) = trace w.
Proof. reflexivity. Qed.

Lemma mapDelete_this l c w : this (snd (mapDelete l c w)) = this w.
Proof. reflexivity. Qed.
Lemma mapDelete_promises l c w : promises (snd (mapDelete l c w)) = promises w.
Proof. reflexivity. Qed.
Lemma mapDelete_trace l c w : trace (snd (mapDelete l c w)) = trace w.
Proof. reflexivity. Qed.

Lemma withThis_heap f w : heap (withThis f w) = heap w.
Proof. reflexivity. Qed.
Lemma withThis_promises f w : promises (withThis f w) = promises w.
Proof. reflexivity. Qed.
Lemma withThis_trace f w : trace (withThis f w) = trace w.
Proof. reflexivity. Qed.

Create HintDb keeps.
#[export] Hint Resolve
  perform_this perform_heap perform_promises perform_tasks
  newPromise_this newPromise_heap newPromise_trace newPromise_tasks
  settle_this settle_heap settle_trace
  subscribe_this subscribe_heap subscribe_trace
  enqueue_this enqueue_heap enqueue_promises enqueue_trace
  newMap_this newMap_promises newMap_trace
  mapSet_this mapSet_promises mapSet_trace
  mapDelete_this mapDelete_promises mapDelete_trace : keeps.

(** Structural decomposition of a computation, down to its primitives. *)
Ltac frame_structure :=
  repeat match goal with
    | |- stable _ (ret _) => apply stable_ret; typeclasses eauto
    | |- stable _ (throw _) => apply stable_throw; typeclasses eauto
    | |- stable _ (gets _) => apply stable_gets; typeclasses eauto
    | |- stable _ (bind _ _) => apply stable_bind; [typeclasses eauto | | intros ?]
    | |- stable _ (forEach _ _) => apply stable_forEach; [typeclasses eauto | intros ?]
    | |- stable _ (match ?x with _ => _ end) => destruct x
    end.

Ltac frame_untouched :=
  try solve [ apply stable_keeps; [typeclasses eauto | intros; cbn; auto with keeps] ].
End ListenerFrames.

(** ** ListenerService: running the methods *)

Module ListenerFacts.
Import ListenerService ListenerTerms Stability ListenerFrames JsMapFacts ListFacts.

Section WithLayout.
Context {L : Layout}.

(** *** Running the primitives *)

Lemma invoke_subscribe_run (i : Invocation) (r : Reaction) (w : World) :
  (p <- invoke i ;; subscribe p r) w
  = (Returns tt,
     withPromises (promises w ++ [mkCell None [r] true])
       (withTrace (trace w ++ [mkObservation (Invoke i) (this w) (heap w)]) w)).
Proof.
  unfold bind, invoke, perform, modify, newPromise, subscribe. cbn.
  rewrite nth_error_app2, Nat.sub_diag by lia. cbn.
  unfold withPromises. cbn. now rewrite replaceNth_last.
Qed.

Lemma invokeUrgent_subscribe_run (i : Invocation) (r : Reaction) (w : World) :
  (p <- invokeUrgent i ;; subscribe p r) w
  = (Returns tt,
     withPromises (promises w ++ [mkCell None [r] true])
       (withTrace (trace w ++ [mkObservation (InvokeUrgent i) (this w) (heap w)]) w)).
Proof.
  unfold bind, invokeUrgent, perform, modify, newPromise, subscribe. cbn.
  rewrite nth_error_app2, Nat.sub_diag by lia. cbn.
  unfold withPromises. cbn. now rewrite replaceNth_last.
Qed.

Lemma deregisterListenerOnTarget_run (userKey : string)
      (eventRegistration : ClientEventRegistration) (w : World) :
  deregisterListenerOnTarget userKey eventRegistration w
  = (Returns tt,
     match removeInvocation eventRegistration with
     | Some i =>
         withPromises (promises w ++ [mkCell None [OnDeregisterOnTarget userKey i] true])
           (withTrace (trace w ++ [mkObservation (Invoke i) (this w) (heap w)]) w)
     | None => w
     end).
Proof.
  unfold deregisterListenerOnTarget, removeInvocation.
  destruct (encodeRemoveRequest _ _) as [m |]; cbn [option_map].
  - apply invoke_subscribe_run.
  - reflexivity.
Qed.

(** *** A deregistered key stays out of [userKeyInformation] *)

#[local] Instance staysForgotten_pre (k : string) : PreOrder (staysForgotten k).
Proof.
  split.
  - intros s H. exact H.
  - intros a b c Hab Hbc H. auto.
Qed.

Lemma deregisterListener_staysForgotten (k k' : string) :
  stable (on this (staysForgotten k)) (deregisterListener k').
Proof.
  unfold deregisterListener, deregisterListenerOnTarget, resolve, deferredPromise,
    getActiveRegistrations, mapEntries, removeEventHandler, invoke.
  frame_structure; frame_untouched.
  - apply stable_modify. intros w H. exact H.
  - apply stable_modify. intros w H. apply get_delete_none. exact H.
Qed.

Lemma runTask_staysForgotten (k : string) (t : Task) :
  stable (on this (staysForgotten k)) (runTask t).
Proof.
  destruct t; cbn [runTask];
    unfold registerStore, registerResolve, registerCatch, invokeRegistrationThen,
      invokeRegistrationCatch, reregisterThen, reregisterCatch,
      deregisterOnTargetCatch, deregisterListenerOnTarget, resolve, reject,
      getUserKeyInformation, invoke;
    frame_structure; frame_untouched.
  apply deregisterListener_staysForgotten.
Qed.

Lemma step_staysForgotten (k : string) (e : Event) :
  ~ draws k e -> stable (on this (staysForgotten k)) (step e).
Proof.
  intros Hne. destruct e; cbn [step].
  - cbn [draws] in Hne.
    unfold registerListener, deferredPromise, isSmart, getActiveRegistrations,
      invokeUrgent, mapHas.
    frame_structure; frame_untouched.
    + apply stable_modify. intros w H. exact H.
    + apply stable_modify. intros w H. unfold forgotten in *. cbn.
      rewrite get_set_other; auto.
  - frame_structure. apply deregisterListener_staysForgotten.
  - unfold onConnectionAdded, reregisterListenersOnConnection,
      invokeRegistrationFromRecord, deferredPromise, getActiveRegistrations,
      getUserKeyInformation, mapGet, mapHas, resolve, invokeUrgent.
    frame_structure; frame_untouched.
  - unfold onConnectionRemoved, removeRegistrationsOnConnection, mapGet,
      removeEventHandler.
    frame_structure; frame_untouched.
  - intros w. unfold completeInvocation.
    destruct (nth_error (promises w) p) as [c |]; [| reflexivity].
    destruct (ofInvocation c); [| reflexivity].
    unfold on. rewrite settle_this. reflexivity.
  - apply stable_modify. intros w H. exact H.
  - intros w. unfold tick. destruct (tasks w) as [| t rest]; [reflexivity |].
    apply (runTask_staysForgotten k t (withTasks rest w)).
Qed.

Lemma exec_staysForgotten (k : string) (es : list Event) (w : World) :
  Forall (fun e => ~ draws k e) es ->
  forgotten k (this w) -> forgotten k (this (exec es w)).
Proof.
  intros Hes. revert w. induction Hes as [| e es He Hes IH]; intros w H.
  - exact H.
  - cbn [exec fold_left]. apply IH. apply (step_staysForgotten k e He w H).
Qed.

(** *** Running [deregisterListener] *)

Lemma bind_returns {A B} (m : M A) (k : A -> M B) (w w' : World) (a : A) :
  m w = (Returns a, w') -> bind m k w = k a w'.
Proof. intros H. unfold bind. now rewrite H. Qed.

Lemma unlink_forgets (userKey : string) (s : ListenerService) :
  JsMap.get String.eqb (activeRegistrations (unlink userKey s)) userKey = None
  /\ forgotten userKey (unlink userKey s).
Proof. split; apply get_delete_same. Qed.

Lemma teardown_run (userKey : string) (l : MapRef) (entries : RegistrationMap) :
  forall w, exists h cells d,
    forEach entries (teardown userKey l) w
    = (Returns tt,
       mkWorld (this w) h (promises w ++ cells) (tasks w) (trace w ++ d) (closed w))
    /\ Forall pendingInvocation cells
    /\ map call d = teardownCalls entries
    /\ Forall (fun o => serviceAtCall o = this w) d.
Proof.
  induction entries as [| [c r] entries IH]; intros w.
  - exists (heap w), [], []. cbn. rewrite !app_nil_r.
    destruct w; repeat split; constructor.
  - cbn [forEach]. unfold teardown at 1.
    erewrite bind_returns; cycle 1.
    { erewrite bind_returns by reflexivity.
      erewrite bind_returns by reflexivity.
      apply deregisterListenerOnTarget_run. }
    unfold removeEventHandler, perform, mapDelete, modify. cbn [snd fst].
    unfold teardownCalls, removeCalls in *. cbn [flat_map].
    destruct (removeInvocation r) as [i |];
      edestruct IH as (h & cells & d & Hrun & Hcells & Hcalls & Hobs);
      rewrite Hrun; cbn in *.
    + eexists h, (_ :: cells), (_ :: _ :: d).
      rewrite <- !app_assoc. cbn. repeat split; auto.
      * constructor; [split; reflexivity | exact Hcells].
      * cbn. now rewrite Hcalls.
    + eexists h, cells, (_ :: d).
      rewrite <- !app_assoc. cbn. repeat split; auto.
      cbn. now rewrite Hcalls.
Qed.

Lemma replaceNth_middle {A} (a b : A) (l r : list A) :
  replaceNth (List.length l) a (l ++ b :: r) = l ++ a :: r.
Proof.
  unfold replaceNth.
  rewrite firstn_app, Nat.sub_diag, firstn_all, skipn_app, Nat.sub_diag, skipn_all.
  cbn. now rewrite app_nil_r.
Qed.

Lemma settle_fresh (s : Settlement) (ext : bool) (ps cells : list PromiseCell)
      (w : World) :
  promises w = ps ++ mkCell None [] ext :: cells ->
  settle (List.length ps) s w
  = (Returns tt, withPromises (ps ++ mkCell (Some s) [] ext :: cells) w).
Proof.
  intros H. unfold settle. rewrite H.
  rewrite nth_error_app2, Nat.sub_diag by lia. cbn [nth_error map].
  rewrite replaceNth_middle, app_nil_r. now destruct w.
Qed.

(** [deregisterListener] on a key with an active registration. *)
Lemma deregisterListener_run (userKey : string) (l : MapRef) (w : World) :
  JsMap.get String.eqb (activeRegistrations (this w)) userKey = Some l ->
  exists h cells d,
    deregisterListener userKey w
    = (Returns (List.length (promises w)),
       mkWorld (unlink userKey (this w)) h
         (promises w ++ mkCell (Some (Returns (VBool true))) [] false :: cells)
         (tasks w) (trace w ++ d) (closed w))
    /\ Forall pendingInvocation cells
    /\ map call d = teardownCalls (nth l (heap w) [])
    /\ Forall (fun o => serviceAtCall o = unlink userKey (this w)) d.
Proof.
  intros Hl. unfold deregisterListener.
  erewrite bind_returns by reflexivity.
  erewrite bind_returns by reflexivity.
  cbn [this withPromises]. rewrite Hl.
  erewrite bind_returns by reflexivity.
  erewrite bind_returns by reflexivity.
  erewrite bind_returns by reflexivity.
  change (fun '(connection, eventRegistration) =>
            mapDelete l connection ;;
            removeEventHandler (correlationId eventRegistration) ;;
            deregisterListenerOnTarget userKey eventRegistration)
    with (teardown userKey l).
  match goal with |- context [bind (forEach ?es _) _ ?w1] =>
    destruct (teardown_run userKey l es w1) as (h & cells & d & Hrun & Hc & Hd & Ho)
  end.
  erewrite bind_returns by exact Hrun.
  erewrite bind_returns; cycle 1.
  { unfold resolve. apply settle_fresh. cbn. rewrite <- app_assoc. reflexivity. }
  exists h, cells, d. cbn. repeat split; auto.
Qed.

(** [deregisterListener] on a key without one. *)
Lemma deregisterListener_absent (userKey : string) (w : World) :
  JsMap.get String.eqb (activeRegistrations (this w)) userKey = None ->
  deregisterListener userKey w
  = (Returns (List.length (promises w)),
     withPromises (promises w ++ [mkCell (Some (Returns (VBool false))) [] false]) w).
Proof.
  intros Hl. unfold deregisterListener.
  erewrite bind_returns by reflexivity.
  erewrite bind_returns by reflexivity.
  cbn [this withPromises]. rewrite Hl.
  erewrite bind_returns; cycle 1.
  { unfold resolve. apply (settle_fresh _ false (promises w) []). reflexivity. }
  cbn. now destruct w.
Qed.

(** *** Runs and the calls they add *)

Lemma exec_cons (e : Event) (es : list Event) (w : World) :
  exec (e :: es) w = exec es (snd (step e w)).
Proof. reflexivity. Qed.

Lemma callsDuring_app {A} (m : M A) (w : World) (d : list Observation) :
  trace (snd (m w)) = trace w ++ d -> callsDuring m w = map call d.
Proof.
  intros H. unfold callsDuring. rewrite H, map_app.
  rewrite <- (length_map call (trace w)).
  rewrite skipn_app, Nat.sub_diag, skipn_all. reflexivity.
Qed.
End WithLayout.
End ListenerFacts.

(** ** ListenerService: deregistration order *)

Module DeregistrationOrder.
Import ListenerService ListenerTerms JsMapFacts ListenerFacts.

Section WithLayout.
Context {L : Layout}.

(** C3, as amended.  [deregisterListener(userKey)] on a key with an active
    registration removes the key from both tables before it calls any
    collaborator: every call of the teardown, remote deregister requests
    included, is made with the key gone from [activeRegistrations] and
    [userKeyInformation].  The event handlers go one registration at a
    time: each registration's handler is removed right before the remote
    deregister request for that registration, hence after the requests for
    the registrations visited earlier. *)
Theorem deregisterListener_order (w : World) (userKey : string) (l : MapRef) :
  JsMap.get String.eqb (activeRegistrations (this w)) userKey = Some l ->
  exists p w' d,
    deregisterListener userKey w = (Returns p, w')
    /\ trace w' = trace w ++ d
    /\ JsMap.get String.eqb (activeRegistrations (this w')) userKey = None
    /\ JsMap.get String.eqb (userKeyInformation (this w')) userKey = None
    /\ Forall (fun o =>
         JsMap.get String.eqb (activeRegistrations (serviceAtCall o)) userKey = None
         /\ JsMap.get String.eqb (userKeyInformation (serviceAtCall o)) userKey = None) d
    /\ map call d
       = flat_map (fun '(_, eventRegistration) =>
                     RemoveEventHandler (correlationId eventRegistration)
                       :: removeCalls eventRegistration)
                  (nth l (heap w) []).
Proof.
  intros Hl.
  destruct (deregisterListener_run userKey l w Hl) as (h & cells & d & Hrun & _ & Hd & Ho).
  destruct (unlink_forgets userKey (this w)) as [Ha Hi].
  eexists _, _, d. split; [exact Hrun |]. cbn [trace this].
  repeat split; auto.
  eapply Forall_impl; [| exact Ho].
  intros o ->. split; assumption.
Qed.
End WithLayout.

Import Sample.

Lemma deregisterListener_order_witness :
  JsMap.get String.eqb (activeRegistrations (this registeredOnTwo)) "k" = Some 0%nat
  /\ exists p w' d,
    deregisterListener "k" registeredOnTwo = (Returns p, w')
    /\ trace w' = trace registeredOnTwo ++ d
    /\ JsMap.get String.eqb (activeRegistrations (this w')) "k" = None
    /\ JsMap.get String.eqb (userKeyInformation (this w')) "k" = None
    /\ Forall (fun o =>
         JsMap.get String.eqb (activeRegistrations (serviceAtCall o)) "k" = None
         /\ JsMap.get String.eqb (userKeyInformation (serviceAtCall o)) "k" = None) d
    /\ map call d
       = flat_map (fun '(_, eventRegistration) =>
                     RemoveEventHandler (correlationId eventRegistration)
                       :: removeCalls eventRegistration)
                  (nth 0 (heap registeredOnTwo) []).
Proof.
  assert (H : JsMap.get String.eqb (activeRegistrations (this registeredOnTwo)) "k"
              = Some 0%nat) by (vm_compute; reflexivity).
  split; [exact H |].
  exact (deregisterListener_order registeredOnTwo "k" 0%nat H).
Defined.

(** With registrations on two connections, the handler of the second one
    (correlation id 12) is removed after the remote deregister request for
    the first one has been issued. *)
Lemma handler_removed_after_remote_request :
  callsDuring (deregisterListener "k") registeredOnTwo
  = [RemoveEventHandler 11;
     Invoke (mkInvocation removeRequest None c1 (Some MAX_SAFE_INTEGER));
     RemoveEventHandler 12;
     Invoke (mkInvocation removeRequest None c2 (Some MAX_SAFE_INTEGER))]
  /\ ~ handlersRemovedFirst (callsDuring (deregisterListener "k") registeredOnTwo).
Proof.
  assert (E : callsDuring (deregisterListener "k") registeredOnTwo
              = [RemoveEventHandler 11;
                 Invoke (mkInvocation removeRequest None c1 (Some MAX_SAFE_INTEGER));
                 RemoveEventHandler 12;
                 Invoke (mkInvocation removeRequest None c2 (Some MAX_SAFE_INTEGER))])
    by (vm_compute; reflexivity).
  split; [exact E |].
  rewrite E. intros H.
  apply (H [RemoveEventHandler 11;
            Invoke (mkInvocation removeRequest None c1 (Some MAX_SAFE_INTEGER))]
           12
           [Invoke (mkInvocation removeRequest None c2 (Some MAX_SAFE_INTEGER))]
           eq_refl
           (mkInvocation removeRequest None c1 (Some MAX_SAFE_INTEGER))).
  right. left. reflexivity.
Qed.
End DeregistrationOrder.

(** ** ListenerService: reregistration racing with deregistration *)

Module ReregistrationRace.
Import ListenerService ListenerTerms JsMapFacts ListenerFacts.

Section WithLayout.
Context {L : Layout}.

Lemma deregisterListener_forgets (w : World) (userKey : string) (l : MapRef) :
  JsMap.get String.eqb (activeRegistrations (this w)) userKey = Some l ->
  forgotten userKey (this (snd (step (DeregisterListener userKey) w))).
Proof.
  intros Hl. cbn [step].
  destruct (deregisterListener_run userKey l w Hl) as (h & cells & d & Hrun & _).
  erewrite bind_returns by exact Hrun. cbn.
  apply unlink_forgets.
Qed.

(** C1, as amended.  Let [deregisterListener(userKey)] remove an active
    registration, and let anything happen afterwards short of
    [registerListener] drawing the same uuid again.  When the completion
    callback of a reregistration for [userKey] then runs, the new physical
    registration is not stored: the tables and every inner map stay as they
    are.  Instead [deregisterListenerOnTarget] is called for it at once:
    the only call made is the remote remove-request for the just-created
    registration, on its subscriber connection, and there is no call
    when the codec's [encodeRemoveRequest] yields null. *)
Theorem reregistration_after_deregister
        (w0 : World) (userKey : string) (l : MapRef) (es : list Event)
        (registrationMap : MapRef) (connection : ClientConnection)
        (eventRegistration : ClientEventRegistration) (rest : list Task) :
  JsMap.get String.eqb (activeRegistrations (this w0)) userKey = Some l ->
  Forall (fun e => ~ draws userKey e) es ->
  tasks (exec (DeregisterListener userKey :: es) w0)
  = ReregisterThen userKey registrationMap connection eventRegistration :: rest ->
  this (exec (DeregisterListener userKey :: es ++ [Tick]) w0)
  = this (exec (DeregisterListener userKey :: es) w0)
  /\ heap (exec (DeregisterListener userKey :: es ++ [Tick]) w0)
     = heap (exec (DeregisterListener userKey :: es) w0)
  /\ tasks (exec (DeregisterListener userKey :: es ++ [Tick]) w0) = rest
  /\ map call (trace (exec (DeregisterListener userKey :: es ++ [Tick]) w0))
     = map call (trace (exec (DeregisterListener userKey :: es) w0))
       ++ match encodeRemoveRequest (codec eventRegistration)
                  (serverRegistrationId eventRegistration) with
          | Some clientMessage =>
              [Invoke (mkInvocation clientMessage None (subscriber eventRegistration)
                         (Some MAX_SAFE_INTEGER))]
          | None => []
          end.
Proof.
  intros Hl Hes Htasks.
  assert (Hf : forgotten userKey (this (exec (DeregisterListener userKey :: es) w0))).
  { cbn [exec fold_left]. apply exec_staysForgotten; [exact Hes |].
    eapply deregisterListener_forgets; eassumption. }
  replace (exec (DeregisterListener userKey :: es ++ [Tick]) w0)
    with (snd (tick (exec (DeregisterListener userKey :: es) w0))).
  2:{ unfold exec. rewrite app_comm_cons, fold_left_app. reflexivity. }
  revert Htasks Hf. generalize (exec (DeregisterListener userKey :: es) w0) as w.
  intros w Htasks Hf. unfold tick. rewrite Htasks. cbn [runTask].
  unfold reregisterThen. erewrite bind_returns by reflexivity.
  cbn [this withTasks]. unfold forgotten in Hf. rewrite Hf.
  rewrite deregisterListenerOnTarget_run. cbn [snd]. unfold removeInvocation.
  destruct (encodeRemoveRequest _ _) as [m |]; cbn.
  - rewrite map_app. auto.
  - rewrite app_nil_r. auto.
Qed.
End WithLayout.

Import Sample.

Lemma reregistration_after_deregister_witness :
  JsMap.get String.eqb (activeRegistrations (this (reregistering listenerCodec))) "k"
  = Some 0%nat
  /\ Forall (fun e => ~ draws "k" e) answered
  /\ tasks (exec (DeregisterListener "k" :: answered) (reregistering listenerCodec))
     = [ReregisterThen "k" 0%nat c2
          (mkClientEventRegistration "server-id" 12 c2 listenerCodec)]
  /\ map call (trace (exec (DeregisterListener "k" :: answered ++ [Tick])
                        (reregistering listenerCodec)))
     = map call (trace (exec (DeregisterListener "k" :: answered)
                          (reregistering listenerCodec)))
       ++ [Invoke (mkInvocation removeRequest None c2 (Some MAX_SAFE_INTEGER))].
Proof.
  assert (H1 : JsMap.get String.eqb
                 (activeRegistrations (this (reregistering listenerCodec))) "k"
               = Some 0%nat) by (vm_compute; reflexivity).
  assert (H2 : Forall (fun e => ~ draws "k" e) answered).
  { repeat constructor; intros H; exact H. }
  assert (H3 : tasks (exec (DeregisterListener "k" :: answered)
                        (reregistering listenerCodec))
               = [ReregisterThen "k" 0%nat c2
                    (mkClientEventRegistration "server-id" 12 c2 listenerCodec)])
    by (vm_compute; reflexivity).
  split; [exact H1 |]. split; [exact H2 |]. split; [exact H3 |].
  exact (proj2 (proj2 (proj2
    (reregistration_after_deregister (reregistering listenerCodec) "k" 0%nat
       answered 0%nat c2
       (mkClientEventRegistration "server-id" 12 c2 listenerCodec) []
       H1 H2 H3)))).
Defined.

(** The race with a codec whose [encodeRemoveRequest] returns null: the
    reregistration is answered after [deregisterListener], its registration
    is created (the debug line is logged) and not stored, every callback
    has run, and no remove-request has been issued. *)
Lemma reregistration_without_remove_request :
  In (LoggerDebug "ListenerService"
        (LogText "Listener k re-registered on connection-2"))
     (map call (trace (exec (DeregisterListener "k" :: answered ++ [Tick])
                         (reregistering localOnlyCodec))))
  /\ tasks (exec (DeregisterListener "k" :: answered ++ [Tick])
              (reregistering localOnlyCodec)) = []
  /\ heap (exec (DeregisterListener "k" :: answered ++ [Tick])
             (reregistering localOnlyCodec)) = [[]]
  /\ existsb isRemoveRequest
       (map call (trace (exec (DeregisterListener "k" :: answered ++ [Tick])
                           (reregistering localOnlyCodec)))) = false.
Proof.
  split; [| split; [| split]]; try (vm_compute; reflexivity).
  vm_compute. do 4 right. left. reflexivity.
Qed.
End ReregistrationRace.

(** ** ListenerService: promises settle once *)

Module SettleOnce.
Import ListenerService ListenerTerms Stability ListenerFrames ListFacts ListenerFacts.

#[export] Instance keepsOutcomes_pre : PreOrder keepsOutcomes.
Proof.
  split.
  - intros ps p c s Hc Hs. eauto.
  - intros a b c Hab Hbc p x s Hx Hs.
    destruct (Hab p x s Hx Hs) as (y & Hy & Hys). eauto.
Qed.






Section WithLayout.
Context {L : Layout}.




End WithLayout.
End SettleOnce.

(** ** ListenerService: failures of remote deregister requests *)

Module DeregistrationFailure.
Import ListenerService ListenerTerms ListenerFacts SettleOnce.

Section WithLayout.
Context {L : Layout}.


End WithLayout.

Import Sample.

End DeregistrationFailure.

(** ** ListenerService: a connection is removed *)

Module ConnectionRemoved.
Import ListenerService ListenerTerms Stability ListenerFrames.

Section WithLayout.
Context {L : Layout}.

#[local] Instance eq_pre {X : Type} : PreOrder (@eq X).
Proof. split; [intros x; reflexivity | intros x y z; congruence]. Qed.

(** [removeRegistrationsOnConnection] changes neither the tables nor any
    inner map. *)
Lemma removeRegistrationsOnConnection_tables (c : ClientConnection) (w : World) :
  this (snd (removeRegistrationsOnConnection c w)) = this w
  /\ heap (snd (removeRegistrationsOnConnection c w)) = heap w.
Proof.
  split.
  - symmetry.
    enough (H : stable (on this eq) (removeRegistrationsOnConnection c)) by apply H.
    unfold removeRegistrationsOnConnection, mapGet, removeEventHandler.
    frame_structure; frame_untouched.
  - symmetry.
    enough (H : stable (on heap eq) (removeRegistrationsOnConnection c)) by apply H.
    unfold removeRegistrationsOnConnection, mapGet, removeEventHandler.
    frame_structure; frame_untouched.
Qed.
End WithLayout.

Import Sample.

(** C4, the code at the failing input.  A listener is registered on [c1]
    and [c2]; when [c1] is removed the event handler for its correlation id
    is removed and no remote request is made, but the record for [c1] is
    still in the per-key map: two stored registrations remain, not one. *)
Theorem removed_connection_record_stays :
  callsDuring (removeRegistrationsOnConnection c1) registeredOnTwo
  = [RemoveEventHandler 11]
  /\ JsMap.size (nth 0 (heap (exec [ConnectionRemoved c1] registeredOnTwo)) []) = 2%nat
  /\ JsMap.get sameConnection
       (nth 0 (heap (exec [ConnectionRemoved c1] registeredOnTwo)) []) c1
     = Some (mkClientEventRegistration "server-id" 11 c1 listenerCodec).
Proof.
  split; [| split]; vm_compute; reflexivity.
Qed.
End ConnectionRemoved.

(** ** ListenerService: running [registerListener] *)

Module Registration.
Import ListenerService ListenerTerms ListFacts ListenerFacts.

Section WithLayout.
Context {L : Layout}.

Lemma attempts_run (userKey : string) (l : MapRef) (codec : ListenerMessageCodec)
      (h : ClientMessageHandler) (registerRequest : ClientMessage)
      (deferred : PromiseRef) (connections : list ClientConnection) :
  forall w,
    forEach connections (attemptOn userKey l codec h registerRequest deferred) w
    = (Returns tt,
       mkWorld (this w) (heap w)
         (promises w
            ++ map (attemptCell userKey l codec h registerRequest deferred)
                 (untracked (nth l (heap w) []) connections))
         (tasks w)
         (trace w
            ++ map (attemptObservation (this w) (heap w) h registerRequest)
                 (untracked (nth l (heap w) []) connections))
         (closed w)).
Proof.
  induction connections as [| c connections IH]; intros w.
  - cbn. rewrite !app_nil_r. now destruct w.
  - cbn [forEach]. unfold attemptOn at 1. unfold untracked. cbn [filter].
    destruct (JsMap.has sameConnection (nth l (heap w) []) c) eqn:E; cbn [negb].
    + erewrite bind_returns; cycle 1.
      { erewrite bind_returns by reflexivity. cbn. rewrite E. reflexivity. }
      apply IH.
    + erewrite bind_returns; cycle 1.
      { erewrite bind_returns by reflexivity. cbn beta. rewrite E.
        apply invokeUrgent_subscribe_run. }
      rewrite IH. cbn. rewrite <- !app_assoc. reflexivity.
Qed.

Lemma untracked_empty (connections : list ClientConnection) :
  untracked [] connections = connections.
Proof.
  unfold untracked. induction connections as [| c cs IH]; [reflexivity |].
  change (c :: untracked [] cs = c :: cs). f_equal. exact IH.
Qed.

(** [registerListener] with a uuid that is not in use: a new empty map, and
    a register request on every connection of [activeConnections]. *)
Lemma registerListener_run (codec : ListenerMessageCodec) (h : ClientMessageHandler)
      (activeConnections : list ClientConnection) (uuid : string) (w : World) :
  JsMap.get String.eqb (activeRegistrations (this w)) uuid = None ->
  registerListener codec h activeConnections uuid w
  = (Returns (List.length (promises w)),
     mkWorld (newTables (this w) uuid (List.length (heap w)) codec h)
       (heap w ++ [[]])
       (promises w
          ++ mkCell None [] false
          :: map (attemptCell uuid (List.length (heap w)) codec h
                    (encodeAddRequest codec (isSmartService (this w)))
                    (List.length (promises w)))
               activeConnections)
       (tasks w)
       (trace w
          ++ map (attemptObservation
                    (newTables (this w) uuid (List.length (heap w)) codec h)
                    (heap w ++ [[]]) h
                    (encodeAddRequest codec (isSmartService (this w))))
               activeConnections)
       (closed w)).
Proof.
  intros Hnew. unfold registerListener.
  erewrite bind_returns by reflexivity.
  erewrite bind_returns by reflexivity.
  erewrite bind_returns by reflexivity.
  cbn [this withPromises]. rewrite Hnew.
  erewrite bind_returns; cycle 1.
  { erewrite bind_returns by reflexivity.
    erewrite bind_returns by reflexivity.
    erewrite bind_returns by reflexivity.
    reflexivity. }
  erewrite bind_returns; cycle 1.
  { apply (attempts_run uuid (List.length (heap w)) codec h
             (encodeAddRequest codec (isSmartService (this w)))
             (List.length (promises w))). }
  cbn. rewrite app_nth2, Nat.sub_diag by lia. cbn [nth].
  rewrite untracked_empty, <- app_assoc. reflexivity.
Qed.

(** [registerListener] with a uuid that is in use already: its map is
    reused and the connections it holds are skipped. *)
Lemma registerListener_again (codec : ListenerMessageCodec) (h : ClientMessageHandler)
      (activeConnections : list ClientConnection) (uuid : string) (l : MapRef)
      (w : World) :
  JsMap.get String.eqb (activeRegistrations (this w)) uuid = Some l ->
  registerListener codec h activeConnections uuid w
  = (Returns (List.length (promises w)),
     mkWorld (this w) (heap w)
       (promises w
          ++ mkCell None [] false
          :: map (attemptCell uuid l codec h
                    (encodeAddRequest codec (isSmartService (this w)))
                    (List.length (promises w)))
               (untracked (nth l (heap w) []) activeConnections))
       (tasks w)
       (trace w
          ++ map (attemptObservation (this w) (heap w) h
                    (encodeAddRequest codec (isSmartService (this w))))
               (untracked (nth l (heap w) []) activeConnections))
       (closed w)).
Proof.
  intros Hl. unfold registerListener.
  erewrite bind_returns by reflexivity.
  erewrite bind_returns by reflexivity.
  erewrite bind_returns by reflexivity.
  cbn [this withPromises]. rewrite Hl.
  erewrite bind_returns by reflexivity.
  erewrite bind_returns; cycle 1.
  { apply (attempts_run uuid l codec h
             (encodeAddRequest codec (isSmartService (this w)))
             (List.length (promises w))). }
  cbn. rewrite <- app_assoc. reflexivity.
Qed.
End WithLayout.
End Registration.

(** ** ListenerService: when [registerListener] resolves *)

Module RegistrationResolves.
Import ListenerService ListenerTerms ListFacts ListenerFacts SettleOnce Registration.

Section WithLayout.
Context {L : Layout}.

(** C5, as amended.  [registerListener] (with a uuid not in use) returns
    a pending promise after it has issued the register request on every
    connection that was active at call time, so the promise never resolves
    before all of them have been attempted.  It resolves with the userKey as
    soon as the request on one connection is answered successfully and the
    two callbacks of that attempt have run; the attempts on the other
    connections are left as they are, outstanding or not. *)
Theorem registerListener_resolves_on_first_success
        (w : World) (p : PromiseRef) (userKey : string) (l : MapRef)
        (c : ClientConnection) (invocation : Invocation)
        (codec : ListenerMessageCodec) (deferred : PromiseRef)
        (rs : list Reaction) (responseMessage : ClientMessage)
        (correlationId : Z) (response : string) :
  tasks w = [] ->
  nth_error (promises w) p
  = Some (mkCell None [OnRegister userKey l c invocation codec deferred] true) ->
  nth_error (promises w) deferred = Some (mkCell None rs false) ->
  getCorrelationId responseMessage = Some correlationId ->
  decodeAddResponse codec responseMessage = Returns response ->
  outcome (exec [InvocationCompletes p (Returns responseMessage); Tick; Tick] w) deferred
  = Some (Returns (VString userKey))
  /\ (forall q cell,
         q <> p -> nth_error (promises w) q = Some cell -> ofInvocation cell = true ->
         nth_error
           (promises (exec [InvocationCompletes p (Returns responseMessage); Tick; Tick] w))
           q = Some cell)
  /\ (forall w0 cd h activeConnections uuid,
         JsMap.get String.eqb (activeRegistrations (this w0)) uuid = None ->
         exists d w1,
           registerListener cd h activeConnections uuid w0 = (Returns d, w1)
           /\ outcome w1 d = None
           /\ callsDuring (registerListener cd h activeConnections uuid) w0
              = map (fun connection =>
                       InvokeUrgent
                         (registerInvocation
                            (encodeAddRequest cd (isSmartService (this w0)))
                            h connection))
                    activeConnections).
Proof.
  intros Htasks Hp Hd Hcorr Hdecode.
  assert (Hne : p <> deferred) by (intros ->; rewrite Hp in Hd; discriminate).
  assert (Hlt : (deferred < List.length (promises w))%nat)
    by (apply nth_error_Some; congruence).
  assert (Hrun : promises (exec [InvocationCompletes p (Returns responseMessage); Tick; Tick] w)
                 = replaceNth deferred (mkCell (Some (Returns (VString userKey))) rs false)
                     (replaceNth p
                        (mkCell (Some (Returns (VMessage responseMessage)))
                           [OnRegister userKey l c invocation codec deferred] true)
                        (promises w))).
  { rewrite exec_cons. cbn [step].
    unfold completeInvocation. rewrite Hp. cbn [ofInvocation].
    unfold settle. rewrite Hp, Htasks. cbn [snd app map react].
    rewrite exec_cons. cbn [step].
    unfold tick. cbn [tasks withTasks withPromises runTask].
    unfold registerStore. rewrite Hcorr, Hdecode.
    rewrite exec_cons. cbn. unfold registerResolve, resolve, settle. cbn.
    rewrite nth_error_replaceNth_other by exact Hne. rewrite Hd. reflexivity. }
  split; [| split].
  - unfold outcome. rewrite Hrun.
    rewrite nth_error_replaceNth_same by (rewrite replaceNth_length; exact Hlt).
    reflexivity.
  - intros q cell Hq Hcell Hext. rewrite Hrun.
    assert (deferred <> q) by (intros ->; rewrite Hd in Hcell; now inversion Hcell; subst).
    rewrite !nth_error_replaceNth_other by auto. exact Hcell.
  - intros w0 cd h cs uuid Hnew.
    pose proof (registerListener_run cd h cs uuid w0 Hnew) as Hreg.
    eexists _, _. split; [exact Hreg |]. split.
    + unfold outcome. cbn [promises].
      now rewrite nth_error_app2, Nat.sub_diag by lia.
    + erewrite callsDuring_app by (rewrite Hreg; reflexivity).
      rewrite map_map. reflexivity.
Qed.
End WithLayout.

Import Sample.

Lemma registerListener_resolves_on_first_success_witness :
  outcome (exec [InvocationCompletes 1%nat (Returns (message 11)); Tick; Tick] registering)
          0%nat
  = Some (Returns (VString "k")).
Proof.
  assert (H1 : tasks registering = []) by (vm_compute; reflexivity).
  assert (H2 : nth_error (promises registering) 1%nat
               = Some (mkCell None
                         [OnRegister "k" 0%nat c1
                            (registerInvocation addRequest 7%nat c1) listenerCodec 0%nat]
                         true)) by (vm_compute; reflexivity).
  assert (H3 : nth_error (promises registering) 0%nat = Some (mkCell None [] false))
    by (vm_compute; reflexivity).
  assert (H4 : getCorrelationId (message 11) = Some 11) by (vm_compute; reflexivity).
  assert (H5 : decodeAddResponse listenerCodec (message 11) = Returns "server-id")
    by reflexivity.
  exact (proj1 (registerListener_resolves_on_first_success registering 1%nat "k" 0%nat c1
                  (registerInvocation addRequest 7%nat c1) listenerCodec 0%nat []
                  (message 11) 11 "server-id" H1 H2 H3 H4 H5)).
Defined.

(** Two connections are active at call time.  The request on [c1] is
    answered and its callbacks run: the promise of [registerListener]
    (promise 0) is resolved with the userKey while the attempt on [c2]
    (promise 2) is still outstanding. *)
Lemma resolved_while_attempt_outstanding :
  outcome (exec [InvocationCompletes 1%nat (Returns (message 11)); Tick; Tick] registering)
          0%nat
  = Some (Returns (VString "k"))
  /\ nth_error
       (promises
          (exec [InvocationCompletes 1%nat (Returns (message 11)); Tick; Tick] registering))
       2%nat
     = Some (mkCell None
               [OnRegister "k" 0%nat c2 (registerInvocation addRequest 7%nat c2)
                  listenerCodec 0%nat]
               true).
Proof.
  split; vm_compute; reflexivity.
Qed.
End RegistrationResolves.

(** ** ListenerService: a failed attempt of [registerListener] *)

Module RegistrationRollback.
Import ListenerService ListenerTerms ListFacts ListenerFrames ListenerFacts SettleOnce.

Section WithLayout.
Context {L : Layout}.

(** Whether or not the key is active, [deregisterListener] appends its own
    fulfilled promise and the promises of its remote requests, and leaves
    the existing promises as they are. *)
Lemma deregisterListener_promises (userKey : string) (w : World) :
  exists w1 b cells,
    deregisterListener userKey w = (Returns (List.length (promises w)), w1)
    /\ promises w1
       = promises w ++ mkCell (Some (Returns (VBool b))) [] false :: cells
    /\ JsMap.get String.eqb (activeRegistrations (this w1)) userKey = None.
Proof.
  destruct (JsMap.get String.eqb (activeRegistrations (this w)) userKey) as [l |] eqn:E.
  - destruct (deregisterListener_run userKey l w E) as (h & cells & d & Hrun & _).
    eexists _, true, cells. split; [exact Hrun |]. split; [reflexivity |].
    apply unlink_forgets.
  - eexists _, false, []. split; [apply deregisterListener_absent; exact E |].
    split; [reflexivity | exact E].
Qed.

End WithLayout.

Import Sample.


End RegistrationRollback.

(** ** ListenerService: the guards of the register requests *)

Module OneRegistration.
Import ListenerService ListenerTerms ListFacts JsMapFacts ListenerFacts SettleOnce
       Registration.

Section WithLayout.
Context {L : Layout}.

Lemma invokeUrgent_subscribe_then {B} (i : Invocation) (r : Reaction)
      (k : unit -> M B) (w : World) :
  (p <- invokeUrgent i ;; x <- subscribe p r ;; k x) w
  = k tt (withPromises (promises w ++ [mkCell None [r] true])
            (withTrace (trace w ++ [mkObservation (InvokeUrgent i) (this w) (heap w)]) w)).
Proof.
  unfold bind, invokeUrgent, perform, modify, newPromise, subscribe. cbn.
  rewrite nth_error_app2, Nat.sub_diag by lia. cbn.
  unfold withPromises. cbn. now rewrite replaceNth_last.
Qed.

(** [invokeRegistrationFromRecord], case by case. *)
Lemma invokeRegistrationFromRecord_run (userKey : string) (c : ClientConnection)
      (w : World) :
  invokeRegistrationFromRecord userKey c w
  = match storedOn w userKey c with
    | Some eventRegistration =>
        (Returns (List.length (promises w)),
         withPromises
           (promises w
              ++ [mkCell (Some (Returns (VRegistration eventRegistration))) [] false])
           w)
    | None =>
        match JsMap.get String.eqb (userKeyInformation (this w)) userKey with
        | None =>
            (Throws (TypeError "Cannot read property 'getRegisterRequest' of undefined"),
             withPromises (promises w ++ [mkCell None [] false]) w)
        | Some registrationKey =>
            (Returns (List.length (promises w)),
             withPromises
               (promises w
                  ++ [mkCell None [] false;
                      mkCell None
                        [OnInvokeRegistration userKey c
                           (recordInvocation registrationKey c)
                           (getCodec registrationKey) (List.length (promises w))]
                        true])
               (withTrace
                  (trace w
                     ++ [mkObservation (InvokeUrgent (recordInvocation registrationKey c))
                           (this w) (heap w)])
                  w))
        end
    end.
Proof.
  unfold invokeRegistrationFromRecord, storedOn.
  erewrite bind_returns by reflexivity.
  erewrite bind_returns by reflexivity.
  cbn [this withPromises].
  assert (Hlookup :
    forall o : option MapRef,
      (match o with
       | Some l => mapGet l c
       | None => ret None
       end) (mkWorld (this w) (heap w) (promises w ++ [mkCell None [] false])
               (tasks w) (trace w) (closed w))
      = (Returns (match o with
                  | Some l => JsMap.get sameConnection (nth l (heap w) []) c
                  | None => None
                  end),
         mkWorld (this w) (heap w) (promises w ++ [mkCell None [] false])
           (tasks w) (trace w) (closed w))).
  { intros [l |]; reflexivity. }
  erewrite bind_returns by apply Hlookup.
  destruct (match JsMap.get String.eqb (activeRegistrations (this w)) userKey with
            | Some l => JsMap.get sameConnection (nth l (heap w) []) c
            | None => None
            end) as [r |].
  - erewrite bind_returns; cycle 1.
    { unfold resolve. apply (settle_fresh _ false (promises w) []). reflexivity. }
    reflexivity.
  - erewrite bind_returns by reflexivity. cbn [this].
    destruct (JsMap.get String.eqb (userKeyInformation (this w)) userKey) as [rk |].
    + rewrite invokeUrgent_subscribe_then. cbn. rewrite <- app_assoc. reflexivity.
    + reflexivity.
Qed.

Lemma attempts_app (ps qs : list PromiseCell) :
  attempts (ps ++ qs) = attempts ps ++ attempts qs.
Proof. unfold attempts. apply flat_map_app. Qed.

Lemma lacking_cons (hp : list RegistrationMap) (c : ClientConnection)
      (e : string * MapRef) (es : list (string * MapRef)) (a : string * nat) :
  lacking hp c es a -> lacking hp c (e :: es) a.
Proof.
  intros (Hc & l & Hin & Hhas). split; [exact Hc |].
  exists l. split; [right; exact Hin | exact Hhas].
Qed.

Lemma Forall2_in_right {A B} (R : A -> B -> Prop) (l1 : list A) (l2 : list B) (b : B) :
  Forall2 R l1 l2 -> In b l2 -> exists a, In a l1 /\ R a b.
Proof.
  induction 1 as [| x y l1 l2 Hxy Hrest IH]; cbn; [contradiction |].
  intros [<- | Hin].
  - exists x. auto.
  - destruct (IH Hin) as (a & Ha & HR). exists a. auto.
Qed.

Lemma reregisterOne_run (c : ClientConnection) (userKey : string) (l : MapRef)
      (w : World) :
  exists res cells ts d invs,
    reregisterOne c (userKey, l) w
    = (res, mkWorld (this w) (heap w) (promises w ++ cells) (tasks w ++ ts)
              (trace w ++ d) (closed w))
    /\ map call d = map InvokeUrgent invs
    /\ Forall2 (fun i a => connection i = c
                           /\ lacking (heap w) c [(userKey, l)] a)
               invs (attempts cells)
    /\ (attempts cells = [] \/ attempts cells = [(userKey, connectionId c)]).
Proof.
  unfold reregisterOne. erewrite bind_returns by reflexivity. cbn beta.
  destruct (JsMap.has sameConnection (nth l (heap w) []) c) eqn:Ehas.
  - exists (Returns tt), [], [], [], []. cbn. rewrite !app_nil_r.
    split; [now destruct w |]. split; [reflexivity |]. split; [constructor | now left].
  - unfold bind. rewrite invokeRegistrationFromRecord_run.
    destruct (storedOn w userKey c) as [r |].
    + unfold subscribe. cbn [promises withPromises].
      rewrite nth_error_app2, Nat.sub_diag by lia. cbn [nth_error].
      rewrite replaceNth_last.
      eexists (Returns tt), [_], [_], [], []. cbn. rewrite !app_nil_r.
      split; [reflexivity |]. split; [reflexivity |]. split; [constructor | now left].
    + destruct (JsMap.get String.eqb (userKeyInformation (this w)) userKey) as [rk |].
      * unfold subscribe. cbn [promises withPromises withTrace].
        rewrite nth_error_app2, Nat.sub_diag by lia. cbn [nth_error].
        rewrite replaceNth_middle.
        eexists (Returns tt), [_; _], [], [_], [recordInvocation rk c]. cbn.
        rewrite !app_nil_r.
        split; [reflexivity |]. split; [reflexivity |].
        split; [| now right].
        constructor; [| constructor]. split; [reflexivity |].
        split; [reflexivity |]. exists l. split; [left; reflexivity | exact Ehas].
      * eexists (Throws _), [_], [], [], []. cbn. rewrite !app_nil_r.
        split; [reflexivity |]. split; [reflexivity |]. split; [constructor | now left].
Qed.

Lemma reregister_loop (c : ClientConnection) (es : list (string * MapRef)) :
  forall w, exists res cells ts d invs,
    forEach es (reregisterOne c) w
    = (res, mkWorld (this w) (heap w) (promises w ++ cells) (tasks w ++ ts)
              (trace w ++ d) (closed w))
    /\ map call d = map InvokeUrgent invs
    /\ Forall2 (fun i a => connection i = c /\ lacking (heap w) c es a)
               invs (attempts cells)
    /\ (NoDup (map fst es) -> NoDup (attempts cells)).
Proof.
  induction es as [| [k l] es IH]; intros w.
  - exists (Returns tt), [], [], [], []. cbn. rewrite !app_nil_r.
    split; [now destruct w |]. split; [reflexivity |].
    split; constructor.
  - cbn [forEach]. unfold bind.
    destruct (reregisterOne_run c k l w)
      as (res1 & cells1 & ts1 & d1 & invs1 & Hrun1 & Hcalls1 & Hall1 & Hone).
    rewrite Hrun1.
    assert (Hall1' : Forall2 (fun i a => connection i = c
                                         /\ lacking (heap w) c ((k, l) :: es) a)
                             invs1 (attempts cells1)).
    { eapply Forall2_impl; [| exact Hall1].
      intros i a (Hi & Ha & l' & [Hin | []] & Hhas).
      split; [exact Hi |]. split; [exact Ha |].
      exists l'. split; [left; exact Hin | exact Hhas]. }
    destruct res1 as [[] | e].
    + match goal with |- context [forEach es _ ?w1] =>
        destruct (IH w1)
          as (res2 & cells2 & ts2 & d2 & invs2 & Hrun2 & Hcalls2 & Hall2 & Hnd2)
      end.
      rewrite Hrun2. cbn [this heap promises tasks trace closed] in *.
      exists res2, (cells1 ++ cells2), (ts1 ++ ts2), (d1 ++ d2), (invs1 ++ invs2).
      rewrite <- !app_assoc. split; [reflexivity |].
      rewrite !map_app, Hcalls1, Hcalls2, attempts_app.
      split; [reflexivity |]. split.
      * apply Forall2_app; [exact Hall1' |].
        eapply Forall2_impl; [| exact Hall2].
        intros i a [Hi Ha]. split; [exact Hi | now apply lacking_cons].
      * intros Hnd. cbn [map fst] in Hnd. inversion Hnd as [| ? ? Hk Hrest]; subst.
        destruct Hone as [-> | ->]; cbn [app]; [auto |].
        constructor; [| auto].
        intros Hin.
        destruct (Forall2_in_right _ _ _ _ Hall2 Hin) as (i & _ & _ & _ & l' & Hl' & _).
        apply Hk. change k with (fst (k, l')). now apply in_map.
    + exists (Throws e), cells1, ts1, d1, invs1.
      split; [reflexivity |]. split; [exact Hcalls1 |]. split; [exact Hall1' |].
      intros _. destruct Hone as [-> | ->]; repeat constructor. intros [].
Qed.

Lemma get_sameConnection (m : RegistrationMap) (c c' : ClientConnection) :
  connectionId c' = connectionId c ->
  JsMap.get sameConnection m c' = JsMap.get sameConnection m c.
Proof.
  intros H. induction m as [| [k v] m IH]; cbn; [reflexivity |].
  unfold sameConnection in *. rewrite H, IH. reflexivity.
Qed.

Lemma unique_entry {V} (m : @JsMap.t string V) (k : string) (v v' : V) :
  NoDup (map fst m) -> In (k, v) m -> In (k, v') m -> v = v'.
Proof.
  induction m as [| [k0 v0] m IH]; cbn; [contradiction |].
  intros Hnd [H1 | H1] [H2 | H2]; inversion Hnd; subst.
  - congruence.
  - injection H1 as -> ->. exfalso.
    match goal with H : ~ In _ _ |- _ => apply H end.
    change k with (fst (k, v')). now apply in_map.
  - injection H2 as -> ->. exfalso.
    match goal with H : ~ In _ _ |- _ => apply H end.
    change k with (fst (k, v)). now apply in_map.
  - auto.
Qed.

Lemma get_entry {V} (m : @JsMap.t string V) (k : string) (v : V) :
  JsMap.get String.eqb m k = Some v -> In (k, v) m.
Proof.
  intros H. destruct (get_in String.eqb m k v H) as (k' & Hin & Hk).
  apply String.eqb_eq in Hk. now subst.
Qed.

(** A pair with a stored registration is left alone by the three entry
    points that issue register requests. *)
Lemma stored_pair_is_skipped
        (w : World) (userKey : string) (l : MapRef) (c : ClientConnection)
        (eventRegistration : ClientEventRegistration) :
  NoDup (map fst (activeRegistrations (this w))) ->
  JsMap.get String.eqb (activeRegistrations (this w)) userKey = Some l ->
  JsMap.get sameConnection (nth l (heap w) []) c = Some eventRegistration ->
  (forall cd h activeConnections, exists p w' new,
      registerListener cd h activeConnections userKey w = (Returns p, w')
      /\ attempts (promises w') = attempts (promises w) ++ new
      /\ ~ In (userKey, connectionId c) new
      /\ forall i,
           In (InvokeUrgent i)
              (callsDuring (registerListener cd h activeConnections userKey) w) ->
           connectionId (connection i) <> connectionId c)
  /\ (exists new invs,
         attempts (promises (snd (reregisterListenersOnConnection c w)))
         = attempts (promises w) ++ new
         /\ ~ In (userKey, connectionId c) new
         /\ callsDuring (reregisterListenersOnConnection c) w = map InvokeUrgent invs
         /\ List.length invs = List.length new)
  /\ (exists p w',
         invokeRegistrationFromRecord userKey c w = (Returns p, w')
         /\ outcome w' p = Some (Returns (VRegistration eventRegistration))
         /\ trace w' = trace w
         /\ attempts (promises w') = attempts (promises w)).
Proof.
  intros Hnd Hl Hr.
  assert (Hhas : forall c', connectionId c' = connectionId c ->
                            JsMap.has sameConnection (nth l (heap w) []) c' = true).
  { intros c' Hc'. unfold JsMap.has. now rewrite (get_sameConnection _ _ _ Hc'), Hr. }
  split; [| split].
  - intros cd h cs.
    pose proof (registerListener_again cd h cs userKey l w Hl) as Hrun.
    eexists _, _, _. split; [exact Hrun |]. cbn [promises].
    assert (Hnew : forall U d,
      attempts (map (attemptCell userKey l cd h
                       (encodeAddRequest cd (isSmartService (this w))) d) U)
      = map (fun c' => (userKey, connectionId c')) U).
    { intros U d. induction U as [| u U IH]; [reflexivity |].
      cbn. f_equal. exact IH. }
    split; [| split].
    + rewrite attempts_app. cbn. unfold attempts in Hnew. rewrite Hnew. reflexivity.
    + intros Hin. apply in_map_iff in Hin. destruct Hin as (c' & Hc' & HU).
      injection Hc' as Hid. apply filter_In in HU. destruct HU as [_ HU].
      rewrite (Hhas c' Hid) in HU. discriminate.
    + intros i Hi.
      erewrite callsDuring_app in Hi by (rewrite Hrun; reflexivity).
      rewrite map_map in Hi. apply in_map_iff in Hi. destruct Hi as (c' & Hc' & HU).
      injection Hc' as <-. cbn. intros Hid.
      apply filter_In in HU. destruct HU as [_ HU].
      rewrite (Hhas c' Hid) in HU. discriminate.
  - unfold reregisterListenersOnConnection.
    assert (Hbody : forall w0 : World,
      (entries <- gets (fun w1 => activeRegistrations (this w1)) ;;
       forEach entries (fun '(userKey0, registrationMap) =>
         has <- mapHas registrationMap c ;;
         if has : bool then ret tt
         else
           p <- invokeRegistrationFromRecord userKey0 c ;;
           subscribe p (OnReregister userKey0 registrationMap c))) w0
      = forEach (activeRegistrations (this w0)) (reregisterOne c) w0)
      by reflexivity.
    destruct (reregister_loop c (activeRegistrations (this w)) w)
      as (res & cells & ts & d & invs & Hrun & Hcalls & Hall & _).
    exists (attempts cells), invs.
    assert (Htrace : trace (snd (forEach (activeRegistrations (this w)) (reregisterOne c) w))
                     = trace w ++ d) by (rewrite Hrun; reflexivity).
    split; [| split; [| split]].
    + rewrite Hbody, Hrun. cbn. apply attempts_app.
    + intros Hin.
      destruct (Forall2_in_right _ _ _ _ Hall Hin)
        as (i & _ & _ & (_ & l' & Hl' & Hlacks)).
      cbn [fst] in Hl'.
      rewrite (unique_entry _ _ _ _ Hnd Hl' (get_entry _ _ _ Hl)) in Hlacks.
      rewrite (Hhas c eq_refl) in Hlacks. discriminate.
    + erewrite callsDuring_app by exact Htrace. exact Hcalls.
    + eapply Forall2_length. exact Hall.
  - rewrite invokeRegistrationFromRecord_run. unfold storedOn. rewrite Hl, Hr.
    eexists _, _. split; [reflexivity |]. cbn.
    split; [| split; [reflexivity |]].
    + unfold outcome. cbn. now rewrite nth_error_app2, Nat.sub_diag by lia.
    + rewrite attempts_app. cbn. now rewrite app_nil_r.
Qed.
End WithLayout.

End OneRegistration.

(** ** ListenerService: register requests stay unique *)

Module AttemptsUnique.
Import ListenerService ListenerTerms Stability ListenerFrames ListFacts JsMapFacts
       ListenerFacts Registration OneRegistration.

#[export] Instance sameAttempts_pre : PreOrder sameAttempts.
Proof.
  split.
  - intros ps. reflexivity.
  - intros a b c Hab Hbc. unfold sameAttempts in *. congruence.
Qed.

#[export] Instance shrinks_pre : PreOrder shrinks.
Proof.
  split.
  - intros s. split; [apply incl_refl | auto].
  - intros a b c [Hab Hab'] [Hbc Hbc']. split.
    + eapply incl_tran; eassumption.
    + auto.
Qed.

Lemma replaceNth_split {A} (n : nat) (a b : A) (l : list A) :
  nth_error l n = Some a ->
  l = firstn n l ++ a :: skipn (S n) l
  /\ replaceNth n b l = firstn n l ++ b :: skipn (S n) l.
Proof.
  revert l. induction n as [| n IH]; intros [| x l] H; try discriminate.
  - cbn in H. injection H as ->. split; reflexivity.
  - cbn in H. destruct (IH l H) as [H1 H2]. split.
    + cbn. f_equal. exact H1.
    + unfold replaceNth in *. cbn. f_equal. exact H2.
Qed.

Lemma attempts_replaceNth (ps : list PromiseCell) (p : nat) (c c' : PromiseCell) :
  nth_error ps p = Some c ->
  flat_map attemptOf (reactions c') = flat_map attemptOf (reactions c) ->
  attempts (replaceNth p c' ps) = attempts ps.
Proof.
  intros Hc Hsame. destruct (replaceNth_split p c c' ps Hc) as [Hps Hrep].
  rewrite Hrep.
  transitivity (attempts (firstn p ps ++ c :: skipn (S p) ps)); [| now rewrite <- Hps].
  rewrite !attempts_app. f_equal. unfold attempts. cbn [flat_map]. now rewrite Hsame.
Qed.

Lemma newPromise_sameAttempts (ext : bool) :
  stable (on promises sameAttempts) (newPromise ext).
Proof.
  intros w. unfold on, sameAttempts. cbn. rewrite attempts_app. cbn.
  now rewrite app_nil_r.
Qed.

Lemma settle_sameAttempts (p : PromiseRef) (s : Settlement) :
  stable (on promises sameAttempts) (settle p s).
Proof.
  intros w. unfold on, sameAttempts, settle.
  destruct (nth_error (promises w) p) as [[[s0 |] rs ext] |] eqn:E; cbn;
    try reflexivity.
  eapply attempts_replaceNth; [exact E | reflexivity].
Qed.

Lemma subscribe_sameAttempts (p : PromiseRef) (r : Reaction) :
  attemptOf r = [] -> stable (on promises sameAttempts) (subscribe p r).
Proof.
  intros Hr w. unfold on, sameAttempts, subscribe.
  destruct (nth_error (promises w) p) as [[[s0 |] rs ext] |] eqn:E; cbn;
    try reflexivity;
    (eapply attempts_replaceNth; [exact E |]; cbn;
     rewrite flat_map_app; cbn; now rewrite Hr, app_nil_r).
Qed.

Ltac attempts_primitives :=
  try solve [ apply newPromise_sameAttempts
            | apply settle_sameAttempts
            | apply subscribe_sameAttempts; reflexivity
            | apply stable_modify; intros w; unfold on; cbn; reflexivity ].

Lemma keys_delete (s : @JsMap.t string MapRef) (k : string) :
  map fst (JsMap.delete String.eqb s k)
  = filter (fun k' => negb (String.eqb k' k)) (map fst s).
Proof.
  unfold JsMap.delete. induction s as [| [k0 v] s IH]; cbn; [reflexivity |].
  destruct (String.eqb k0 k); cbn; now rewrite IH.
Qed.

Lemma deleteActiveRegistrations_shrinks (k : string) :
  stable (on this shrinks) (deleteActiveRegistrations k).
Proof.
  apply stable_modify. intros w. unfold on, shrinks, keys. cbn.
  rewrite keys_delete. split; [apply incl_filter | apply NoDup_filter].
Qed.

Lemma deleteUserKeyInformation_shrinks (k : string) :
  stable (on this shrinks) (deleteUserKeyInformation k).
Proof.
  apply stable_modify. intros w. unfold on, shrinks, keys. cbn.
  split; [apply incl_refl | auto].
Qed.

Ltac shrinks_primitives :=
  try solve [ apply deleteActiveRegistrations_shrinks
            | apply deleteUserKeyInformation_shrinks ].

Section WithLayout.
Context {L : Layout}.

Lemma deregisterListener_quiet (k : string) :
  stable (on promises sameAttempts) (deregisterListener k)
  /\ stable (on this shrinks) (deregisterListener k).
Proof.
  split;
    unfold deregisterListener, deregisterListenerOnTarget, resolve, deferredPromise,
      getActiveRegistrations, mapEntries, removeEventHandler, invoke;
    frame_structure; frame_untouched; shrinks_primitives; attempts_primitives.
Qed.

Lemma runTask_quiet (t : Task) :
  stable (on promises sameAttempts) (runTask t)
  /\ stable (on this shrinks) (runTask t).
Proof.
  split;
    (destruct t; cbn [runTask];
     unfold registerStore, registerResolve, registerCatch, invokeRegistrationThen,
       invokeRegistrationCatch, reregisterThen, reregisterCatch,
       deregisterOnTargetCatch, deregisterListenerOnTarget, resolve, reject,
       getUserKeyInformation, invoke;
     frame_structure; frame_untouched; attempts_primitives);
    apply deregisterListener_quiet.
Qed.

(** Neither the register requests nor the keys grow under an event other
    than [registerListener] and [connectionAdded]. *)
Lemma step_quiet (e : Event) (w : World) :
  quiet e ->
  attempts (promises (snd (step e w))) = attempts (promises w)
  /\ shrinks (this w) (this (snd (step e w))).
Proof.
  intros Hq.
  enough (H : stable (on promises sameAttempts) (step e)
              /\ stable (on this shrinks) (step e))
    by (destruct H as [H1 H2]; split; [apply H1 | apply H2]).
  destruct e; cbn [step quiet] in *; try contradiction.
  - split; frame_structure; apply deregisterListener_quiet.
  - split;
      unfold onConnectionRemoved, removeRegistrationsOnConnection, mapGet,
        removeEventHandler;
      frame_structure; frame_untouched.
  - split; intros w0; unfold completeInvocation;
      (destruct (nth_error (promises w0) p) as [c |]; [| reflexivity]);
      (destruct (ofInvocation c); [| reflexivity]).
    + apply settle_sameAttempts.
    + unfold on. rewrite settle_this. reflexivity.
  - split; apply stable_modify; intros w0; unfold on; cbn; reflexivity.
  - split; intros w0; unfold tick;
      (destruct (tasks w0) as [| t rest]; [reflexivity |]).
    + apply (proj1 (runTask_quiet t) (withTasks rest w0)).
    + apply (proj2 (runTask_quiet t) (withTasks rest w0)).
Qed.

Lemma get_fresh {V} (m : @JsMap.t string V) (k : string) :
  ~ In k (map fst m) -> JsMap.get String.eqb m k = None.
Proof.
  induction m as [| [k0 v] m IH]; cbn; [reflexivity |].
  intros H. destruct (String.eqb_spec k0 k) as [-> | Hne].
  - exfalso. apply H. now left.
  - apply IH. intros Hin. apply H. now right.
Qed.

Lemma keys_set_fresh {V} (m : @JsMap.t string V) (k : string) (v : V) :
  JsMap.get String.eqb m k = None ->
  map fst (JsMap.set String.eqb m k v) = map fst m ++ [k].
Proof.
  induction m as [| [k0 v0] m IH]; cbn; [reflexivity |].
  destruct (String.eqb k0 k); [discriminate |].
  intros H. cbn. now rewrite IH.
Qed.

Lemma attempts_of_cells (uuid : string) (l : MapRef) (cd : ListenerMessageCodec)
      (h : ClientMessageHandler) (req : ClientMessage) (d : PromiseRef)
      (cs : list ClientConnection) :
  attempts (map (attemptCell uuid l cd h req d) cs)
  = map (fun c => (uuid, connectionId c)) cs.
Proof.
  induction cs as [| c cs IH]; [reflexivity |].
  cbn. f_equal. exact IH.
Qed.

Lemma step_tracked (e : Event) (added : list nat) (drawn : list string) (w : World) :
  Tracked added drawn w -> allowed added drawn e ->
  Tracked (announce added e) (draw drawn e) (snd (step e w)).
Proof.
  intros [Hnd Hknown Hkeys Hknd] Hallowed.
  destruct e as [cd h cs uuid | k | c | c | p o | c |].
  - cbn [allowed announce draw] in *. destruct Hallowed as (Hfresh & Hcs & Hadded).
    assert (Hnone : JsMap.get String.eqb (activeRegistrations (this w)) uuid = None).
    { apply get_fresh. intros Hin. apply Hfresh, Hkeys, Hin. }
    cbn [step]. erewrite bind_returns by (apply registerListener_run; exact Hnone).
    cbn [ret snd].
    assert (Hatt : attempts
                     (promises w
                        ++ mkCell None [] false
                        :: map (attemptCell uuid (List.length (heap w)) cd h
                                  (encodeAddRequest cd (isSmartService (this w)))
                                  (List.length (promises w))) cs)
                   = attempts (promises w) ++ map (fun c => (uuid, connectionId c)) cs).
    { rewrite attempts_app. f_equal.
      change (attempts (mkCell None [] false :: ?x)) with (attempts x).
      apply attempts_of_cells. }
    split; cbn [promises this].
    + rewrite Hatt. apply NoDup_app; [exact Hnd | |].
      * clear -Hcs. induction cs as [| c cs IH]; cbn in *; [constructor |].
        inversion Hcs as [| ? ? Hc Hrest]; subst. constructor; [| auto].
        intros Hin. apply in_map_iff in Hin. destruct Hin as (c' & [= Hid] & Hc').
        apply Hc. rewrite <- Hid. now apply in_map.
      * intros a Ha Hin. apply in_map_iff in Hin. destruct Hin as (c' & <- & _).
        apply Hfresh. now apply (Hknown _ Ha).
    + intros a. rewrite Hatt. intros Ha. apply in_app_or in Ha. destruct Ha as [Ha | Ha].
      * destruct (Hknown a Ha). split; [now right | assumption].
      * apply in_map_iff in Ha. destruct Ha as (c' & <- & Hc'). cbn. split; [now left |].
        apply Hadded. now apply in_map.
    + unfold keys, newTables. cbn. rewrite keys_set_fresh by exact Hnone.
      apply incl_app; [apply incl_tl; exact Hkeys |].
      intros x [<- | []]. now left.
    + unfold keys, newTables. cbn. rewrite keys_set_fresh by exact Hnone.
      apply NoDup_app; [exact Hknd | repeat constructor; intros [] |].
      intros a Ha [<- | []]. apply Hfresh, Hkeys, Ha.
  - cbn [allowed announce draw].
    destruct (step_quiet (DeregisterListener k) w I) as [Hatt [Hincl Hkeep]].
    split; [now rewrite Hatt | now rewrite Hatt | | auto].
    eapply incl_tran; eassumption.
  - cbn [allowed announce draw step] in *.
    change (onConnectionAdded c w)
      with (forEach (activeRegistrations (this w)) (reregisterOne c) w).
    destruct (reregister_loop c (activeRegistrations (this w)) w)
      as (res & cells & ts & d & invs & Hrun & _ & Hall & Hnew).
    rewrite Hrun. cbn [snd promises this].
    assert (Hlack : forall a, In a (attempts cells) ->
                              snd a = connectionId c /\ In (fst a) (keys (this w))).
    { intros a Ha.
      destruct (Forall2_in_right _ _ _ _ Hall Ha) as (i & _ & _ & Hc & l & Hl & _).
      split; [exact Hc |]. unfold keys.
      change (fst a) with (fst (fst a, l)). now apply in_map. }
    split; cbn [promises this].
    + rewrite attempts_app. apply NoDup_app; [exact Hnd | exact (Hnew Hknd) |].
      intros a Ha Hin. destruct (Hlack a Hin) as [Hc _].
      apply Hallowed. rewrite <- Hc. now apply (Hknown a Ha).
    + intros a. rewrite attempts_app. intros Ha. apply in_app_or in Ha.
      destruct Ha as [Ha | Ha].
      * destruct (Hknown a Ha). split; [assumption | now right].
      * destruct (Hlack a Ha) as [Hc Hk]. split; [apply Hkeys, Hk | now left].
    + exact Hkeys.
    + exact Hknd.
  - cbn [allowed announce draw].
    destruct (step_quiet (ConnectionRemoved c) w I) as [Hatt [Hincl Hkeep]].
    split; [now rewrite Hatt | now rewrite Hatt | | auto].
    eapply incl_tran; eassumption.
  - cbn [allowed announce draw].
    destruct (step_quiet (InvocationCompletes p o) w I) as [Hatt [Hincl Hkeep]].
    split; [now rewrite Hatt | now rewrite Hatt | | auto].
    eapply incl_tran; eassumption.
  - cbn [allowed announce draw].
    destruct (step_quiet (ConnectionCloses c) w I) as [Hatt [Hincl Hkeep]].
    split; [now rewrite Hatt | now rewrite Hatt | | auto].
    eapply incl_tran; eassumption.
  - cbn [allowed announce draw].
    destruct (step_quiet Tick w I) as [Hatt [Hincl Hkeep]].
    split; [now rewrite Hatt | now rewrite Hatt | | auto].
    eapply incl_tran; eassumption.
Qed.

Lemma exec_tracked (es : list Event) :
  forall added drawn w,
    Tracked added drawn w -> disciplined added drawn es ->
    exists added' drawn', Tracked added' drawn' (exec es w).
Proof.
  induction es as [| e es IH]; intros added drawn w Hw Hes.
  - exists added, drawn. exact Hw.
  - destruct Hes as [He Hes]. cbn [exec fold_left].
    eapply IH; [| exact Hes]. now apply step_tracked.
Qed.

(** From the constructor on, whatever the calls, answers, failures and
    connection events, as long as uuids are not repeated and every
    connection is announced once and listed as active only afterwards: no
    (key, connection) pair ever gets a second register request. *)
Lemma attempts_unique (smartRouting : bool) (es : list Event) :
  disciplined [] [] es ->
  NoDup (attempts (promises (exec es (create smartRouting)))).
Proof.
  intros Hes.
  destruct (exec_tracked es [] [] (create smartRouting)) as (added & drawn & [H _ _ _]).
  - split; cbn; [constructor | intros a [] | intros a [] | constructor].
  - exact Hes.
  - exact H.
Qed.
End WithLayout.
End AttemptsUnique.

(** ** ListenerService: at most one registration per key and connection *)

Module OneRegistrationPerPair.
Import ListenerService ListenerTerms OneRegistration AttemptsUnique.

Section WithLayout.
Context {L : Layout}.

(** C2, as amended.  Let [userKey] be an active key whose map holds a
    registration for connection [c].  Then none of the three entry points
    issues another register request for the pair: [registerListener] (were
    it to draw that key) skips [c], so no [invokeUrgent] goes out on it;
    [reregisterListenersOnConnection(c)] returns early for the key, every
    request it issues belonging to another key; and
    [invokeRegistrationFromRecord(userKey, c)] calls nothing and resolves
    with the stored ClientEventRegistration.  The three guards look at the
    stored registrations only. *)
Theorem no_second_registration
        (w : World) (userKey : string) (l : MapRef) (c : ClientConnection)
        (eventRegistration : ClientEventRegistration) :
  NoDup (map fst (activeRegistrations (this w))) ->
  JsMap.get String.eqb (activeRegistrations (this w)) userKey = Some l ->
  JsMap.get sameConnection (nth l (heap w) []) c = Some eventRegistration ->
  (forall cd h activeConnections, exists p w' new,
      registerListener cd h activeConnections userKey w = (Returns p, w')
      /\ attempts (promises w') = attempts (promises w) ++ new
      /\ ~ In (userKey, connectionId c) new
      /\ forall i,
           In (InvokeUrgent i)
              (callsDuring (registerListener cd h activeConnections userKey) w) ->
           connectionId (connection i) <> connectionId c)
  /\ (exists new invs,
         attempts (promises (snd (reregisterListenersOnConnection c w)))
         = attempts (promises w) ++ new
         /\ ~ In (userKey, connectionId c) new
         /\ callsDuring (reregisterListenersOnConnection c) w = map InvokeUrgent invs
         /\ List.length invs = List.length new)
  /\ (exists p w',
         invokeRegistrationFromRecord userKey c w = (Returns p, w')
         /\ outcome w' p = Some (Returns (VRegistration eventRegistration))
         /\ trace w' = trace w
         /\ attempts (promises w') = attempts (promises w)).
Proof.
  intros Hnd Hl Hr.
  destruct (stored_pair_is_skipped w userKey l c eventRegistration Hnd Hl Hr)
    as (Hregister & Hreregister & Hrecord).
  repeat split; assumption.
Qed.

(** X25.  In a run from the constructor in which [registerListener] never
    draws a uuid twice and every connection is announced (by
    [onConnectionAdded]) at most once and is among the active connections
    of a [registerListener] call only after it was announced, the register
    requests issued are for pairwise distinct (key, connection) pairs: no
    pair gets a second request, stored or in flight. *)
Theorem one_request_per_pair_in_orderly_runs (smartRouting : bool) (es : list Event) :
  disciplined [] [] es ->
  NoDup (attempts (promises (exec es (create smartRouting)))).
Proof. intros Hes. now apply attempts_unique. Qed.
End WithLayout.

Import Sample Scenario.

Lemma no_second_registration_witness :
  NoDup (map fst (activeRegistrations (this registeredOnTwo)))
  /\ JsMap.get String.eqb (activeRegistrations (this registeredOnTwo)) "k" = Some 0%nat
  /\ JsMap.get sameConnection (nth 0 (heap registeredOnTwo) []) c1
     = Some (mkClientEventRegistration "server-id" 11 c1 listenerCodec)
  /\ (exists new invs,
         attempts (promises (snd (reregisterListenersOnConnection c1 registeredOnTwo)))
         = attempts (promises registeredOnTwo) ++ new
         /\ ~ In ("k", connectionId c1) new
         /\ callsDuring (reregisterListenersOnConnection c1) registeredOnTwo
            = map InvokeUrgent invs
         /\ List.length invs = List.length new)
  /\ (exists p w',
         invokeRegistrationFromRecord "k" c1 registeredOnTwo = (Returns p, w')
         /\ outcome w' p
            = Some (Returns (VRegistration
                               (mkClientEventRegistration "server-id" 11 c1 listenerCodec)))
         /\ trace w' = trace registeredOnTwo
         /\ attempts (promises w') = attempts (promises registeredOnTwo)).
Proof.
  assert (H1 : NoDup (map fst (activeRegistrations (this registeredOnTwo)))).
  { vm_compute. repeat constructor. intros []. }
  assert (H2 : JsMap.get String.eqb (activeRegistrations (this registeredOnTwo)) "k"
               = Some 0%nat) by (vm_compute; reflexivity).
  assert (H3 : JsMap.get sameConnection (nth 0 (heap registeredOnTwo) []) c1
               = Some (mkClientEventRegistration "server-id" 11 c1 listenerCodec))
    by (vm_compute; reflexivity).
  destruct (no_second_registration registeredOnTwo "k" 0%nat c1
              (mkClientEventRegistration "server-id" 11 c1 listenerCodec) H1 H2 H3)
    as (_ & Hreregister & Hrecord).
  split; [exact H1 |]. split; [exact H2 |]. split; [exact H3 |].
  split; [exact Hreregister | exact Hrecord].
Defined.

(** [registerListener] finds [c1] active, and [c1] is announced before the
    answer has come: a second register request goes out for the pair
    ("k", [c1]) while the first is in flight.  Both are answered, with
    correlation ids 11 and 12: the map keeps the second registration
    alone, and [deregisterListener] removes the handler and the remote
    registration of that one, so that the first stays live. *)
Lemma second_request_while_first_in_flight :
  attempts (promises announcedEarly) = [("k", 1%nat); ("k", 1%nat)]
  /\ map call (trace announcedEarly)
     = [InvokeUrgent (registerInvocation addRequest 7%nat c1);
        InvokeUrgent (registerInvocation addRequest 7%nat c1)]
  /\ skipn 2 (map call (trace bothAnswered))
     = [LoggerDebug "ListenerService" (LogText "Listener k registered on connection-1");
        LoggerDebug "ListenerService" (LogText "Listener k re-registered on connection-1")]
  /\ nth 0 (heap bothAnswered) []
     = [(c1, mkClientEventRegistration "server-id" 12 c1 listenerCodec)]
  /\ callsDuring (deregisterListener "k") bothAnswered
     = [RemoveEventHandler 12;
        Invoke (mkInvocation removeRequest None c1 (Some MAX_SAFE_INTEGER))].
Proof.
  repeat split; vm_compute; reflexivity.
Qed.

Lemma one_request_per_pair_in_orderly_runs_witness :
  disciplined [] [] orderly
  /\ attempts (promises (exec orderly fresh)) = [("k", 1%nat); ("k", 2%nat)]
  /\ NoDup (attempts (promises (exec orderly fresh))).
Proof.
  assert (H : disciplined [] [] orderly).
  { cbn. repeat split.
    - intros [].
    - intros [].
    - repeat constructor. intros [].
    - intros x [<- | []]. now left.
    - intros [H | []]. discriminate. }
  split; [exact H |]. split; [vm_compute; reflexivity |].
  exact (one_request_per_pair_in_orderly_runs true orderly H).
Defined.
End OneRegistrationPerPair.

(** ** ListenerService: the tables stay consistent *)

Module ConsistentTables.
Import ListenerService ListenerTerms ListenerState Stability ListenerFrames
       ListFacts JsMapFacts ListenerFacts Registration OneRegistration.

#[export] Instance keepsConsistent_pre : PreOrder keepsConsistent.
Proof.
  split.
  - intros w H. exact H.
  - intros a b c Hab Hbc H. auto.
Qed.

Lemma consistent_same (w w' : World) :
  this w' = this w -> List.length (heap w') = List.length (heap w) ->
  keepsConsistent w w'.
Proof.
  intros Ht Hh [H1 H2 H3 H4]. split; rewrite ?Ht, ?Hh; assumption.
Qed.

Lemma set_fresh {V} (m : @JsMap.t string V) (k : string) (v : V) :
  JsMap.get String.eqb m k = None -> JsMap.set String.eqb m k v = m ++ [(k, v)].
Proof.
  induction m as [| [k0 v0] m IH]; cbn; [reflexivity |].
  destruct (String.eqb k0 k); [discriminate |].
  intros H. now rewrite IH.
Qed.

Lemma get_none_keys {V} (m : @JsMap.t string V) (k : string) :
  JsMap.get String.eqb m k = None <-> ~ In k (map fst m).
Proof.
  induction m as [| [k0 v0] m IH]; cbn.
  - split; auto.
  - destruct (String.eqb_spec k0 k) as [-> | Hne].
    + split; [discriminate | intros H; exfalso; apply H; now left].
    + rewrite IH. split; [intros H [E | Hin]; auto | intros H Hin; apply H; now right].
Qed.

Lemma keys_delete_any {V} (m : @JsMap.t string V) (k : string) :
  map fst (JsMap.delete String.eqb m k)
  = filter (fun k' => negb (String.eqb k' k)) (map fst m).
Proof.
  unfold JsMap.delete. induction m as [| [k0 v] m IH]; cbn; [reflexivity |].
  destruct (String.eqb k0 k); cbn; now rewrite IH.
Qed.

Lemma NoDup_snd_filter {K V} (f : K * V -> bool) (m : list (K * V)) :
  NoDup (map snd m) -> NoDup (map snd (filter f m)).
Proof.
  induction m as [| [k v] m IH]; cbn; [auto |].
  intros H. inversion H as [| ? ? Hv Hrest]; subst.
  destruct (f (k, v)); cbn; [| auto].
  constructor; [| auto].
  intros Hin. apply Hv. apply in_map_iff in Hin. destruct Hin as ([k' v'] & E & Hin).
  apply filter_In in Hin. cbn in E. subst v'.
  change v with (snd (k', v)). apply in_map. tauto.
Qed.

Section WithLayout.
Context {L : Layout}.

Lemma consistent_register (w : World) (uuid : string) (cd : ListenerMessageCodec)
      (h : ClientMessageHandler) (ps : list PromiseCell) (ts : list Task)
      (tr : list Observation) (cl : list ClientConnection) :
  JsMap.get String.eqb (activeRegistrations (this w)) uuid = None ->
  Consistent w ->
  Consistent (mkWorld (newTables (this w) uuid (List.length (heap w)) cd h)
                (heap w ++ [[]]) ps ts tr cl).
Proof.
  intros Hnew [H1 H2 H3 H4].
  assert (Hnew' : JsMap.get String.eqb (userKeyInformation (this w)) uuid = None).
  { apply get_none_keys. rewrite <- H1. now apply get_none_keys. }
  split; cbn [this heap newTables activeRegistrations userKeyInformation].
  - rewrite !set_fresh, !map_app by assumption. cbn. now rewrite H1.
  - rewrite set_fresh, map_app by assumption. cbn.
    apply NoDup_app; [exact H2 | repeat constructor; intros [] |].
    intros k Hk [<- | []]. now apply get_none_keys in Hnew.
  - intros k l. rewrite set_fresh by assumption. rewrite length_app. cbn.
    intros Hin. apply in_app_or in Hin. destruct Hin as [Hin | [[= <- <-] | []]].
    + specialize (H3 k l Hin). lia.
    + lia.
  - rewrite set_fresh, map_app by assumption. cbn.
    apply NoDup_app; [exact H4 | repeat constructor; intros [] |].
    intros l Hl [<- | []]. apply in_map_iff in Hl. destruct Hl as ([k l'] & E & Hin).
    cbn in E. subst l'. specialize (H3 k _ Hin). lia.
Qed.

Lemma consistent_unlink (w : World) (k : string) (hp : list RegistrationMap)
      (ps : list PromiseCell) (ts : list Task) (tr : list Observation)
      (cl : list ClientConnection) :
  List.length hp = List.length (heap w) ->
  Consistent w ->
  Consistent (mkWorld (unlink k (this w)) hp ps ts tr cl).
Proof.
  intros Hlen [H1 H2 H3 H4].
  split; cbn [this heap unlink activeRegistrations userKeyInformation].
  - rewrite !keys_delete_any. now rewrite H1.
  - rewrite keys_delete_any. now apply NoDup_filter.
  - intros k0 l Hin. unfold JsMap.delete in Hin. apply filter_In in Hin.
    rewrite Hlen. apply (H3 k0 l). tauto.
  - unfold JsMap.delete. now apply NoDup_snd_filter.
Qed.

#[local] Instance sameLength_pre : PreOrder sameLength.
Proof.
  split.
  - intros h. reflexivity.
  - intros a b c Hab Hbc. unfold sameLength in *. congruence.
Qed.

Lemma deregisterListener_heap_length (k : string) :
  stable (on heap sameLength) (deregisterListener k).
Proof.
  unfold deregisterListener, deregisterListenerOnTarget, resolve, deferredPromise,
    getActiveRegistrations, mapEntries, removeEventHandler, invoke,
    deleteActiveRegistrations, deleteUserKeyInformation.
  frame_structure; frame_untouched;
    try (apply stable_modify; intros w; unfold on, sameLength; cbn;
         rewrite ?replaceNth_length; reflexivity).
Qed.

Lemma deregisterListener_consistent (k : string) :
  stable keepsConsistent (deregisterListener k).
Proof.
  intros w Hw.
  pose proof (deregisterListener_heap_length k w) as Hlen. unfold on, sameLength in Hlen.
  destruct (JsMap.get String.eqb (activeRegistrations (this w)) k) as [l |] eqn:E.
  - destruct (deregisterListener_run k l w E) as (h & cells & d & Hrun & _).
    rewrite Hrun in *. cbn [snd heap] in *. now apply consistent_unlink.
  - rewrite (deregisterListener_absent k w E). cbn [snd].
    revert Hw. apply consistent_same; reflexivity.
Qed.

Ltac consistent_primitives :=
  try solve [ intros w; apply consistent_same; cbn;
              rewrite ?settle_this, ?settle_heap, ?subscribe_this, ?subscribe_heap,
                ?replaceNth_length; reflexivity ].

Lemma runTask_consistent (t : Task) : stable keepsConsistent (runTask t).
Proof.
  destruct t; cbn [runTask];
    unfold registerStore, registerResolve, registerCatch, invokeRegistrationThen,
      invokeRegistrationCatch, reregisterThen, reregisterCatch,
      deregisterOnTargetCatch, deregisterListenerOnTarget, resolve, reject,
      getUserKeyInformation, invoke;
    frame_structure; consistent_primitives.
  apply deregisterListener_consistent.
Qed.

Lemma step_consistent (e : Event) : stable keepsConsistent (step e).
Proof.
  destruct e as [cd h cs uuid | k | c | c | p o | c |]; cbn [step].
  - intros w Hw.
    destruct (JsMap.get String.eqb (activeRegistrations (this w)) uuid) as [l |] eqn:E.
    + erewrite bind_returns by (apply registerListener_again; exact E).
      cbn [ret snd]. revert Hw. apply consistent_same; reflexivity.
    + erewrite bind_returns by (apply registerListener_run; exact E).
      cbn [ret snd]. now apply consistent_register.
  - frame_structure. apply deregisterListener_consistent.
  - intros w.
    change (onConnectionAdded c w)
      with (forEach (activeRegistrations (this w)) (reregisterOne c) w).
    destruct (reregister_loop c (activeRegistrations (this w)) w)
      as (res & cells & ts & d & invs & Hrun & _).
    rewrite Hrun. apply consistent_same; reflexivity.
  - intros w.
    destruct (ConnectionRemoved.removeRegistrationsOnConnection_tables c w) as [Ht Hh].
    apply consistent_same; [exact Ht | exact (f_equal (@List.length _) Hh)].
  - intros w. unfold completeInvocation.
    destruct (nth_error (promises w) p) as [cell |]; [| reflexivity].
    destruct (ofInvocation cell); [| reflexivity].
    apply consistent_same; [apply settle_this | exact (f_equal (@List.length _) (settle_heap _ _ _))].
  - apply stable_modify. intros w. apply consistent_same; reflexivity.
  - intros w. unfold tick. destruct (tasks w) as [| t rest]; [reflexivity |].
    intros Hw. apply (runTask_consistent t (withTasks rest w)).
    revert Hw. apply consistent_same; reflexivity.
Qed.

Lemma exec_consistent (es : list Event) (w : World) :
  Consistent w -> Consistent (exec es w).
Proof.
  revert w. induction es as [| e es IH]; intros w Hw; [exact Hw |].
  rewrite exec_cons. apply IH. now apply step_consistent.
Qed.

Lemma create_consistent (smartRouting : bool) : Consistent (create smartRouting).
Proof. split; cbn; try constructor. intros k l []. Qed.

(** X1.  In every run from the constructor, whatever the calls, answers,
    failures and connection events: [activeRegistrations] and
    [userKeyInformation] hold the same keys in the same order, each key
    once; every key has its own inner map, which no other key shares. *)
Theorem tables_stay_consistent (smartRouting : bool) (es : list Event) :
  Consistent (exec es (create smartRouting)).
Proof. apply exec_consistent, create_consistent. Qed.

End WithLayout.
End ConsistentTables.

(** ** ListenerService: no call and no callback throws *)

Module NeverThrows.
Import ListenerService ListenerTerms ListenerState Stability ListenerFrames
       ListFacts JsMapFacts ListenerFacts Registration OneRegistration ConsistentTables.

Lemma returns_ret {A} (a : A) : returns (ret a).
Proof. intros w. now exists a. Qed.

Lemma returns_gets {A} (f : World -> A) : returns (gets f).
Proof. intros w. now exists (f w). Qed.

Lemma returns_modify (f : World -> World) : returns (modify f).
Proof. intros w. now exists tt. Qed.

Lemma returns_bind {A B} (m : M A) (k : A -> M B) :
  returns m -> (forall a, returns (k a)) -> returns (bind m k).
Proof.
  intros Hm Hk w. unfold bind. destruct (Hm w) as [a Ha].
  destruct (m w) as [[a' | e] w']; cbn in Ha; [| discriminate].
  apply Hk.
Qed.

Lemma returns_forEach {A} (l : list A) (f : A -> M unit) :
  (forall a, returns (f a)) -> returns (forEach l f).
Proof.
  intros Hf. induction l as [| a l IH]; cbn [forEach].
  - apply returns_ret.
  - apply returns_bind; auto.
Qed.

Lemma returns_settle (p : PromiseRef) (s : Settlement) : returns (settle p s).
Proof.
  intros w. exists tt. unfold settle.
  destruct (nth_error (promises w) p) as [[[s0 |] rs ext] |]; reflexivity.
Qed.

Lemma returns_subscribe (p : PromiseRef) (r : Reaction) : returns (subscribe p r).
Proof.
  intros w. exists tt. unfold subscribe.
  destruct (nth_error (promises w) p) as [[[s0 |] rs ext] |]; reflexivity.
Qed.

Lemma returns_newPromise (ext : bool) : returns (newPromise ext).
Proof. intros w. eexists. reflexivity. Qed.

Ltac returns_structure :=
  repeat match goal with
    | |- returns (ret _) => apply returns_ret
    | |- returns (gets _) => apply returns_gets
    | |- returns (modify _) => apply returns_modify
    | |- returns (settle _ _) => apply returns_settle
    | |- returns (subscribe _ _) => apply returns_subscribe
    | |- returns (newPromise _) => apply returns_newPromise
    | |- returns (bind _ _) => apply returns_bind; [| intros ?]
    | |- returns (forEach _ _) => apply returns_forEach; intros ?
    | |- returns (match ?x with _ => _ end) => destruct x
    end.

Section WithLayout.
Context {L : Layout}.

Lemma returns_deregisterListener (k : string) : returns (deregisterListener k).
Proof.
  unfold deregisterListener, deregisterListenerOnTarget, resolve, deferredPromise,
    getActiveRegistrations, mapEntries, mapDelete, removeEventHandler, invoke, perform,
    deleteActiveRegistrations, deleteUserKeyInformation.
  returns_structure.
Qed.

Lemma returns_runTask (t : Task) : returns (runTask t).
Proof.
  destruct t; cbn [runTask];
    unfold registerStore, registerResolve, registerCatch, invokeRegistrationThen,
      invokeRegistrationCatch, reregisterThen, reregisterCatch,
      deregisterOnTargetCatch, deregisterListenerOnTarget, resolve, reject,
      getUserKeyInformation, invoke, perform, enqueue, mapSet;
    returns_structure.
  apply returns_deregisterListener.
Qed.

Lemma returns_registerListener cd h cs uuid : returns (registerListener cd h cs uuid).
Proof.
  unfold registerListener, deferredPromise, isSmart, getActiveRegistrations,
    invokeUrgent, mapHas, newMap, perform, setActiveRegistrations, setUserKeyInformation.
  returns_structure.
  intros w. eexists. reflexivity.
Qed.

Lemma returns_removeRegistrationsOnConnection c :
  returns (removeRegistrationsOnConnection c).
Proof.
  unfold removeRegistrationsOnConnection, mapGet, removeEventHandler, perform.
  returns_structure.
Qed.

(** A reregistration for a key with a record returns. *)
Lemma reregisterOne_returns (c : ClientConnection) (userKey : string) (l : MapRef)
      (w : World) :
  JsMap.get String.eqb (userKeyInformation (this w)) userKey <> None ->
  exists w', reregisterOne c (userKey, l) w = (Returns tt, w') /\ this w' = this w.
Proof.
  intros Hk. unfold reregisterOne. erewrite bind_returns by reflexivity. cbn beta.
  destruct (JsMap.has sameConnection (nth l (heap w) []) c).
  - eexists. split; reflexivity.
  - unfold bind. rewrite invokeRegistrationFromRecord_run.
    destruct (storedOn w userKey c) as [r |].
    + destruct (returns_subscribe (List.length (promises w))
                  (OnReregister userKey l c)
                  (withPromises
                     (promises w ++ [mkCell (Some (Returns (VRegistration r))) [] false]) w))
        as [[] Hs].
      match goal with |- context [subscribe ?p ?r ?w1] =>
        pose proof (subscribe_this p r w1) as Ht;
        destruct (subscribe p r w1) as [res w2] end.
      cbn in Hs, Ht. subst res. now exists w2.
    + destruct (JsMap.get String.eqb (userKeyInformation (this w)) userKey) as [rk |];
        [| contradiction].
      match goal with |- context [subscribe ?p ?r ?w1] =>
        destruct (returns_subscribe p r w1) as [[] Hs];
        pose proof (subscribe_this p r w1) as Ht;
        destruct (subscribe p r w1) as [res w2] end.
      cbn in Hs, Ht. subst res. now exists w2.
Qed.

Lemma reregister_loop_returns (c : ClientConnection) (es : list (string * MapRef)) :
  forall w,
    (forall k l, In (k, l) es ->
                 JsMap.get String.eqb (userKeyInformation (this w)) k <> None) ->
    fst (forEach es (reregisterOne c) w) = Returns tt.
Proof.
  induction es as [| [k l] es IH]; intros w Hes; [reflexivity |].
  cbn [forEach]. unfold bind.
  destruct (reregisterOne_returns c k l w) as (w' & Hrun & Ht).
  { apply (Hes k l). now left. }
  rewrite Hrun. apply IH. intros k' l' Hin. rewrite Ht. apply (Hes k' l'). now right.
Qed.

Lemma step_returns (e : Event) (w : World) :
  Consistent w -> fst (step e w) = Returns tt.
Proof.
  intros Hw.
  assert (Hunit : forall m : M unit, returns m -> fst (m w) = Returns tt).
  { intros m Hm. destruct (Hm w) as [[] Ha]. exact Ha. }
  destruct e as [cd h cs uuid | k | c | c | p o | c |]; cbn [step].
  - apply Hunit. apply returns_bind; [apply returns_registerListener | intros; apply returns_ret].
  - apply Hunit. apply returns_bind; [apply returns_deregisterListener | intros; apply returns_ret].
  - change (onConnectionAdded c w)
      with (forEach (activeRegistrations (this w)) (reregisterOne c) w).
    apply reregister_loop_returns. intros k l Hin.
    intros Hnone. apply get_none_keys in Hnone. apply Hnone.
    rewrite <- (same_keys w Hw). change k with (fst (k, l)). now apply in_map.
  - apply Hunit, returns_removeRegistrationsOnConnection.
  - apply Hunit. intros w0. exists tt. unfold completeInvocation.
    destruct (nth_error (promises w0) p) as [cell |]; [| reflexivity].
    destruct (ofInvocation cell); [| reflexivity].
    destruct (returns_settle p
                (match o with Returns m => Returns (VMessage m) | Throws e => Throws e end)
                w0) as [[] H]. exact H.
  - reflexivity.
  - unfold tick. destruct (tasks w) as [| t rest]; [reflexivity |].
    destruct (returns_runTask t (withTasks rest w)) as [[] H]. exact H.
Qed.

(** X2.  In every run from the constructor, no call into the service, no
    connection event and no callback throws.  In particular, when
    [reregisterListenersOnConnection] calls [invokeRegistrationFromRecord]
    for a key, [userKeyInformation.get(userKey)] is never undefined.  (The
    codec's encoders and the collaborators are taken to return.) *)
Theorem events_never_throw (smartRouting : bool) (es : list Event) (e : Event) :
  fst (step e (exec es (create smartRouting))) = Returns tt.
Proof. apply step_returns, exec_consistent, create_consistent. Qed.
End WithLayout.
End NeverThrows.

(** ** ListenerService: what [deregisterListener] leaves behind *)

Module DeregistrationOutcome.
Import ListenerService ListenerTerms ListenerState ListFacts JsMapFacts
       ListenerFacts.

Section WithLayout.
Context {L : Layout}.

Lemma deregisterListener_unlinks (userKey : string) (w : World) :
  JsMap.get String.eqb
    (activeRegistrations (this (snd (deregisterListener userKey w)))) userKey = None.
Proof.
  destruct (JsMap.get String.eqb (activeRegistrations (this w)) userKey) as [l |] eqn:E.
  - destruct (deregisterListener_run userKey l w E) as (h & cells & d & Hrun & _).
    rewrite Hrun. apply unlink_forgets.
  - rewrite (deregisterListener_absent userKey w E). exact E.
Qed.

(** X3.  [deregisterListener] with a key that has no registration resolves with
    [false]: it calls no collaborator and changes neither table nor map.
    That is the case of every key that has just been deregistered, so a
    second [deregisterListener] with the same key resolves with [false]. *)
Theorem deregisterListener_unknown_key (userKey : string) :
  (forall w,
      JsMap.get String.eqb (activeRegistrations (this w)) userKey = None ->
      exists p w',
        deregisterListener userKey w = (Returns p, w')
        /\ outcome w' p = Some (Returns (VBool false))
        /\ this w' = this w /\ heap w' = heap w
        /\ trace w' = trace w /\ tasks w' = tasks w)
  /\ (forall w,
         exists p w',
           deregisterListener userKey (snd (deregisterListener userKey w)) = (Returns p, w')
           /\ outcome w' p = Some (Returns (VBool false))
           /\ trace w' = trace (snd (deregisterListener userKey w))).
Proof.
  assert (Habsent : forall w,
    JsMap.get String.eqb (activeRegistrations (this w)) userKey = None ->
    exists p w',
      deregisterListener userKey w = (Returns p, w')
      /\ outcome w' p = Some (Returns (VBool false))
      /\ this w' = this w /\ heap w' = heap w
      /\ trace w' = trace w /\ tasks w' = tasks w).
  { intros w E. eexists _, _. split; [apply deregisterListener_absent; exact E |].
    unfold outcome. cbn. rewrite nth_error_app2, Nat.sub_diag by lia. cbn. auto 6. }
  split; [exact Habsent |].
  intros w.
  destruct (Habsent _ (deregisterListener_unlinks userKey w))
    as (p & w' & Hrun & Hout & _ & _ & Htrace & _).
  exists p, w'. auto.
Qed.

(** *** The inner map after [deregisterListener] *)

Lemma replaceNth_beyond {A} (n : nat) (a : A) (l : list A) :
  (List.length l <= n)%nat -> replaceNth n a l = l.
Proof.
  intros H. unfold replaceNth.
  rewrite skipn_all2, firstn_all2 by lia. apply app_nil_r.
Qed.

Lemma replaceNth_twice {A} (n : nat) (a b : A) (l : list A) :
  replaceNth n b (replaceNth n a l) = replaceNth n b l.
Proof.
  unfold replaceNth.
  destruct (Nat.lt_ge_cases n (List.length l)) as [Hlt | Hge].
  - destruct (skipn n l) as [| x rest] eqn:E.
    { apply (f_equal (@List.length A)) in E. rewrite length_skipn in E. cbn in E. lia. }
    rewrite firstn_app, skipn_app, length_firstn.
    replace (Nat.min n (List.length l)) with n by lia.
    rewrite Nat.sub_diag, firstn_firstn, Nat.min_id. cbn [firstn skipn].
    rewrite skipn_all2 by (rewrite length_firstn; lia).
    now rewrite app_nil_r.
  - fold (replaceNth n a l). rewrite (replaceNth_beyond n a l Hge).
    fold (replaceNth n b l). reflexivity.
Qed.

Lemma replaceNth_same {A} (n : nat) (d : A) (l : list A) :
  replaceNth n (nth n l d) l = l.
Proof.
  destruct (Nat.lt_ge_cases n (List.length l)) as [Hlt | Hge].
  - destruct (AttemptsUnique.replaceNth_split n (nth n l d) (nth n l d) l) as [H1 H2].
    + now apply nth_error_nth'.
    + now rewrite H2, <- H1.
  - now apply replaceNth_beyond.
Qed.

Lemma teardown_step (userKey : string) (l : MapRef) (c : ClientConnection)
      (r : ClientEventRegistration) (w : World) :
  exists w',
    teardown userKey l (c, r) w = (Returns tt, w')
    /\ heap w'
       = replaceNth l (JsMap.delete sameConnection (nth l (heap w) []) c) (heap w).
Proof.
  unfold teardown.
  erewrite bind_returns by reflexivity.
  erewrite bind_returns by reflexivity.
  rewrite deregisterListenerOnTarget_run.
  eexists. split; [reflexivity |].
  destruct (removeInvocation r); reflexivity.
Qed.

Lemma teardown_heap (userKey : string) (l : MapRef) (entries : RegistrationMap) :
  forall w,
    heap (snd (forEach entries (teardown userKey l) w))
    = replaceNth l (deleteAll entries (nth l (heap w) [])) (heap w).
Proof.
  induction entries as [| [c r] entries IH]; intros w.
  - cbn. now rewrite replaceNth_same.
  - cbn [forEach]. unfold bind.
    destruct (teardown_step userKey l c r w) as (w' & Hrun & Hheap).
    rewrite Hrun, IH, Hheap. cbn [deleteAll fold_left fst].
    rewrite replaceNth_twice.
    destruct (Nat.lt_ge_cases l (List.length (heap w))) as [Hlt | Hge].
    + now rewrite nth_replaceNth_same.
    + now rewrite !replaceNth_beyond by lia.
Qed.

Lemma deleteAll_filter (entries m : RegistrationMap) :
  deleteAll entries m
  = filter (fun e => negb (existsb (fun e' => sameConnection (fst e) (fst e')) entries)) m.
Proof.
  revert m. induction entries as [| e' entries IH]; intros m; cbn.
  - induction m as [| e m IHm]; cbn; [reflexivity | now rewrite <- IHm].
  - change (fold_left _ entries ?x) with (deleteAll entries x). rewrite IH.
    unfold JsMap.delete. clear IH.
    induction m as [| e m IHm]; cbn; [reflexivity |].
    destruct (sameConnection (fst e) (fst e')); cbn; [exact IHm |].
    destruct (existsb _ entries); cbn; [exact IHm | now rewrite IHm].
Qed.

Lemma deleteAll_self (m : RegistrationMap) : deleteAll m m = [].
Proof.
  rewrite deleteAll_filter.
  assert (H : forall entries,
    incl m entries ->
    filter (fun e => negb (existsb (fun e' => sameConnection (fst e) (fst e')) entries)) m
    = []).
  { intros entries. induction m as [| e m IH]; intros Hincl; cbn; [reflexivity |].
    assert (He : existsb (fun e' => sameConnection (fst e) (fst e')) entries = true).
    { apply existsb_exists. exists e. split; [apply Hincl; now left |].
      apply Nat.eqb_refl. }
    rewrite He. cbn. apply IH. intros x Hx. apply Hincl. now right. }
  apply H, incl_refl.
Qed.

Lemma deregisterListener_heap (userKey : string) (l : MapRef) (w : World) :
  JsMap.get String.eqb (activeRegistrations (this w)) userKey = Some l ->
  heap (snd (deregisterListener userKey w)) = replaceNth l [] (heap w).
Proof.
  intros Hl. unfold deregisterListener.
  erewrite bind_returns by reflexivity.
  erewrite bind_returns by reflexivity.
  cbn [this withPromises]. rewrite Hl.
  erewrite bind_returns by reflexivity.
  erewrite bind_returns by reflexivity.
  erewrite bind_returns by reflexivity.
  change (fun '(connection, eventRegistration) =>
            mapDelete l connection ;;
            removeEventHandler (correlationId eventRegistration) ;;
            deregisterListenerOnTarget userKey eventRegistration)
    with (teardown userKey l).
  match goal with |- context [bind (forEach ?es _) _ ?w1] =>
    pose proof (teardown_heap userKey l es w1) as Hheap;
    destruct (teardown_run userKey l es w1) as (h & cells & d & Hrun & _)
  end.
  rewrite Hrun in Hheap. cbn [snd heap] in Hheap.
  erewrite bind_returns by exact Hrun.
  erewrite bind_returns; cycle 1.
  { unfold resolve. apply settle_fresh. cbn. rewrite <- app_assoc. reflexivity. }
  cbn. rewrite Hheap. now rewrite deleteAll_self.
Qed.

(** X4.  [deregisterListener] on a key with an active registration deletes every
    record of the key's inner map: the map object, which callbacks of
    earlier requests may still hold, is empty afterwards, no registration
    is stored for the key on any connection, and the maps of the other keys
    are as they were. *)
Theorem deregisterListener_empties_map (w : World) (userKey : string) (l : MapRef) :
  JsMap.get String.eqb (activeRegistrations (this w)) userKey = Some l ->
  (l < List.length (heap w))%nat ->
  nth l (heap (snd (deregisterListener userKey w))) [] = []
  /\ (forall l', l' <> l ->
        nth l' (heap (snd (deregisterListener userKey w))) [] = nth l' (heap w) [])
  /\ (forall c, storedOn (snd (deregisterListener userKey w)) userKey c = None).
Proof.
  intros Hl Hlt. rewrite (deregisterListener_heap userKey l w Hl).
  split; [| split].
  - now apply nth_replaceNth_same.
  - intros l' Hne. apply nth_replaceNth_other. auto.
  - intros c. unfold storedOn. now rewrite deregisterListener_unlinks.
Qed.
End WithLayout.

Import Sample.

Lemma deregisterListener_empties_map_witness :
  JsMap.get String.eqb (activeRegistrations (this registeredOnTwo)) "k" = Some 0%nat
  /\ (0 < List.length (heap registeredOnTwo))%nat
  /\ JsMap.size (nth 0 (heap registeredOnTwo) []) = 2%nat
  /\ nth 0 (heap (snd (deregisterListener "k" registeredOnTwo))) [] = [].
Proof.
  assert (H1 : JsMap.get String.eqb (activeRegistrations (this registeredOnTwo)) "k"
               = Some 0%nat) by (vm_compute; reflexivity).
  assert (H2 : (0 < List.length (heap registeredOnTwo))%nat) by (vm_compute; lia).
  split; [exact H1 |]. split; [exact H2 |]. split; [vm_compute; reflexivity |].
  exact (proj1 (deregisterListener_empties_map registeredOnTwo "k" 0%nat H1 H2)).
Defined.
End DeregistrationOutcome.

(** ** ListenerService: the calls of [removeRegistrationsOnConnection] *)

Module ConnectionRemovedCalls.
Import ListenerService ListenerTerms ListenerState ListFacts JsMapFacts
       ListenerFacts.

Section WithLayout.
Context {L : Layout}.

Lemma removeRegistrations_body (c : ClientConnection) (l : MapRef) (w : World) :
  (eventRegistration <- mapGet l c ;;
   match eventRegistration with
   | Some eventRegistration => removeEventHandler (correlationId eventRegistration)
   | None => ret tt
   end) w
  = (Returns tt,
     match JsMap.get sameConnection (nth l (heap w) []) c with
     | Some r =>
         withTrace
           (trace w ++ [mkObservation (RemoveEventHandler (correlationId r))
                          (this w) (heap w)]) w
     | None => w
     end).
Proof.
  unfold bind, mapGet, gets. cbn.
  destruct (JsMap.get sameConnection (nth l (heap w) []) c); reflexivity.
Qed.

Lemma removeRegistrations_loop (c : ClientConnection) (s : ListenerService)
      (hp : list RegistrationMap) (entries : list (string * MapRef)) :
  forall w,
    this w = s -> heap w = hp ->
    forEach entries (fun '(_, registrationsOnUserKey) =>
      eventRegistration <- mapGet registrationsOnUserKey c ;;
      match eventRegistration with
      | Some eventRegistration => removeEventHandler (correlationId eventRegistration)
      | None => ret tt
      end) w
    = (Returns tt,
       withTrace
         (trace w
            ++ map (fun r => mkObservation (RemoveEventHandler (correlationId r)) s hp)
                 (flat_map (fun '(_, l) =>
                              match JsMap.get sameConnection (nth l hp []) c with
                              | Some r => [r]
                              | None => []
                              end) entries))
         w).
Proof.
  induction entries as [| [k l] entries IH]; intros w Hs Hh.
  - cbn. rewrite app_nil_r. now destruct w.
  - cbn [forEach flat_map].
    erewrite bind_returns by apply removeRegistrations_body.
    rewrite Hh.
    destruct (JsMap.get sameConnection (nth l hp []) c) as [r |].
    + rewrite IH by (cbn; assumption).
      cbn. rewrite Hs, <- app_assoc. reflexivity.
    + rewrite IH by assumption. reflexivity.
Qed.

Lemma removeRegistrationsOnConnection_run (c : ClientConnection) (w : World) :
  removeRegistrationsOnConnection c w
  = (Returns tt,
     withTrace
       (trace w
          ++ map (fun r => mkObservation (RemoveEventHandler (correlationId r))
                             (this w) (heap w))
               (recordsOn w c))
       w).
Proof.
  unfold removeRegistrationsOnConnection.
  erewrite bind_returns by reflexivity.
  apply removeRegistrations_loop; reflexivity.
Qed.

(** X6.  [removeRegistrationsOnConnection] returns after calling
    [removeEventHandler] once for each registration stored for the
    connection, with that registration's correlation id and in the order of
    [activeRegistrations], and nothing else: it issues no request, settles
    no promise, and leaves both tables and every inner map as they are, the
    records of the removed connection included. *)
Theorem removeRegistrationsOnConnection_only_removes_handlers
        (c : ClientConnection) (w : World) :
  exists w',
    removeRegistrationsOnConnection c w = (Returns tt, w')
    /\ callsDuring (removeRegistrationsOnConnection c) w
       = map (fun r => RemoveEventHandler (correlationId r)) (recordsOn w c)
    /\ this w' = this w /\ heap w' = heap w
    /\ promises w' = promises w /\ tasks w' = tasks w
    /\ (forall userKey c', storedOn w' userKey c' = storedOn w userKey c').
Proof.
  eexists. split; [apply removeRegistrationsOnConnection_run |].
  split.
  - erewrite callsDuring_app
      by (rewrite removeRegistrationsOnConnection_run; reflexivity).
    now rewrite map_map.
  - cbn. auto 6.
Qed.

(** X7.  What [deregisterListener] does for a key is the same after a
    connection has been removed as before: since the removal keeps the
    connection's record, the later teardown removes the event handler of
    that record again and sends a remote remove request for it. *)
Theorem deregisterListener_after_connection_removed
        (w : World) (c : ClientConnection) (userKey : string) :
  callsDuring (deregisterListener userKey) (exec [ConnectionRemoved c] w)
  = callsDuring (deregisterListener userKey) w.
Proof.
  cbn [exec fold_left step]. unfold onConnectionRemoved.
  rewrite removeRegistrationsOnConnection_run. cbn [snd].
  set (w' := withTrace _ w).
  destruct (JsMap.get String.eqb (activeRegistrations (this w)) userKey) as [l |] eqn:E.
  - destruct (deregisterListener_run userKey l w E) as (h & cells & d & Hrun & _ & Hd & _).
    destruct (deregisterListener_run userKey l w' E)
      as (h' & cells' & d' & Hrun' & _ & Hd' & _).
    erewrite (callsDuring_app _ w d) by (rewrite Hrun; reflexivity).
    erewrite (callsDuring_app _ w' d') by (rewrite Hrun'; reflexivity).
    now rewrite Hd, Hd'.
  - erewrite (callsDuring_app _ w [])
      by (rewrite (deregisterListener_absent userKey w E); cbn; now rewrite app_nil_r).
    erewrite (callsDuring_app _ w' [])
      by (rewrite (deregisterListener_absent userKey w' E); cbn; now rewrite app_nil_r).
    reflexivity.
Qed.
End WithLayout.
End ConnectionRemovedCalls.

(** ** ListenerService: the requests of [onConnectionAdded] *)

Module Reregistration.
Import ListenerService ListenerTerms ListenerState Stability ListenerFrames
       ListFacts JsMapFacts ListenerFacts Registration OneRegistration ConsistentTables.

Section WithLayout.
Context {L : Layout}.

Lemma get_of_entry {V} (m : @JsMap.t string V) (k : string) (v : V) :
  NoDup (map fst m) -> In (k, v) m -> JsMap.get String.eqb m k = Some v.
Proof.
  induction m as [| [k0 v0] m IH]; cbn; [contradiction |].
  intros Hnd Hin. inversion Hnd as [| ? ? Hk Hrest]; subst.
  destruct Hin as [[= -> ->] | Hin].
  - now rewrite String.eqb_refl.
  - destruct (String.eqb_spec k0 k) as [-> | Hne]; [| auto].
    exfalso. apply Hk. change k with (fst (k, v)). now apply in_map.
Qed.

Lemma reregisterOne_exact (c : ClientConnection) (userKey : string) (l : MapRef)
      (w : World) :
  JsMap.get String.eqb (activeRegistrations (this w)) userKey = Some l ->
  exists cells,
    reregisterOne c (userKey, l) w
    = (Returns tt,
       mkWorld (this w) (heap w) (promises w ++ cells) (tasks w)
         (trace w
            ++ map (fun i => mkObservation (InvokeUrgent i) (this w) (heap w))
                 (reregistrations (this w) (heap w) c [(userKey, l)]))
         (closed w))
    \/ JsMap.get String.eqb (userKeyInformation (this w)) userKey = None.
Proof.
  intros Hl. unfold reregisterOne, reregistrations. cbn [flat_map].
  erewrite bind_returns by reflexivity. cbn beta.
  destruct (JsMap.has sameConnection (nth l (heap w) []) c) eqn:Ehas.
  - exists []. left. cbn. rewrite !app_nil_r. now destruct w.
  - unfold bind. rewrite invokeRegistrationFromRecord_run.
    unfold storedOn. rewrite Hl.
    unfold JsMap.has in Ehas.
    destruct (JsMap.get sameConnection (nth l (heap w) []) c); [discriminate |].
    destruct (JsMap.get String.eqb (userKeyInformation (this w)) userKey) as [rk |].
    + eexists. left. unfold subscribe. cbn [promises withPromises withTrace].
      rewrite nth_error_app2, Nat.sub_diag by lia. cbn [nth_error].
      rewrite replaceNth_middle. cbn. reflexivity.
    + exists []. now right.
Qed.

Lemma reregistrations_app s hp c (es1 es2 : list (string * MapRef)) :
  reregistrations s hp c (es1 ++ es2)
  = reregistrations s hp c es1 ++ reregistrations s hp c es2.
Proof. unfold reregistrations. apply flat_map_app. Qed.

Lemma reregister_loop_exact (c : ClientConnection) (s : ListenerService)
      (hp : list RegistrationMap) (es : list (string * MapRef)) :
  (forall k l, In (k, l) es ->
     JsMap.get String.eqb (activeRegistrations s) k = Some l
     /\ JsMap.get String.eqb (userKeyInformation s) k <> None) ->
  forall w,
    this w = s -> heap w = hp ->
    exists cells,
      forEach es (reregisterOne c) w
      = (Returns tt,
         mkWorld s hp (promises w ++ cells) (tasks w)
           (trace w
              ++ map (fun i => mkObservation (InvokeUrgent i) s hp)
                   (reregistrations s hp c es))
           (closed w)).
Proof.
  induction es as [| [k l] es IH]; intros Hes w Hs Hh.
  - exists []. cbn. rewrite !app_nil_r. subst. now destruct w.
  - cbn [forEach]. unfold bind.
    destruct (Hes k l (or_introl eq_refl)) as [Hl Hk].
    destruct (reregisterOne_exact c k l w) as (cells1 & [Hrun | Hnone]);
      [now rewrite Hs | | rewrite Hs in Hnone; contradiction].
    rewrite Hrun.
    match goal with |- context [forEach es _ ?w1] =>
      destruct (IH (fun k' l' Hin => Hes k' l' (or_intror Hin)) w1) as (cells2 & Hrun2);
        [exact Hs | exact Hh |]
    end.
    rewrite Hrun2. exists (cells1 ++ cells2). cbn [promises tasks trace closed].
    rewrite Hs, Hh, <- !app_assoc, <- map_app.
    change ((k, l) :: es) with ([(k, l)] ++ es). now rewrite reregistrations_app.
Qed.

Lemma onConnectionAdded_run (c : ClientConnection) (w : World) :
  Consistent w ->
  exists cells,
    onConnectionAdded c w
    = (Returns tt,
       mkWorld (this w) (heap w) (promises w ++ cells) (tasks w)
         (trace w
            ++ map (fun i => mkObservation (InvokeUrgent i) (this w) (heap w))
                 (reregistrations (this w) (heap w) c (activeRegistrations (this w))))
         (closed w)).
Proof.
  intros Hw.
  change (onConnectionAdded c w)
    with (forEach (activeRegistrations (this w)) (reregisterOne c) w).
  apply reregister_loop_exact; try reflexivity.
  intros k l Hin. split.
  - apply get_of_entry; [apply (keys_once w Hw) | exact Hin].
  - intros Hnone. apply get_none_keys in Hnone. apply Hnone.
    rewrite <- (same_keys w Hw). change k with (fst (k, l)). now apply in_map.
Qed.

(** X8.  In every run from the constructor, [onConnectionAdded(connection)]
    issues one [invokeUrgent] per registered key whose map has no record
    for the connection, in the order of [activeRegistrations]: the request
    is a copy of the key's stored register request, the handler the key's
    stored handler, and the invocation is bound to the added connection.
    Keys with a record for the connection get no request.  Neither the
    tables nor any inner map changes. *)
Theorem onConnectionAdded_requests (smartRouting : bool) (es : list Event)
        (c : ClientConnection) :
  callsDuring (onConnectionAdded c) (exec es (create smartRouting))
  = map InvokeUrgent
      (reregistrations (this (exec es (create smartRouting)))
         (heap (exec es (create smartRouting))) c
         (activeRegistrations (this (exec es (create smartRouting)))))
  /\ this (snd (onConnectionAdded c (exec es (create smartRouting))))
     = this (exec es (create smartRouting))
  /\ heap (snd (onConnectionAdded c (exec es (create smartRouting))))
     = heap (exec es (create smartRouting)).
Proof.
  destruct (onConnectionAdded_run c (exec es (create smartRouting)))
    as (cells & Hrun).
  { apply exec_consistent, create_consistent. }
  split.
  - erewrite callsDuring_app by (rewrite Hrun; reflexivity). now rewrite map_map.
  - rewrite Hrun. split; reflexivity.
Qed.

Lemma get_set_same {V} (m : @JsMap.t string V) (k : string) (v : V) :
  JsMap.get String.eqb (JsMap.set String.eqb m k v) k = Some v.
Proof.
  induction m as [| [k0 v0] m IH]; cbn.
  - now rewrite String.eqb_refl.
  - destruct (String.eqb k0 k) eqn:E; cbn; rewrite E; [reflexivity | exact IH].
Qed.

#[local] Instance sameFlag_pre : PreOrder sameFlag.
Proof.
  split.
  - intros s. reflexivity.
  - intros a b c Hab Hbc. unfold sameFlag in *. congruence.
Qed.

Ltac flag_primitives :=
  try solve [ apply stable_modify; intros w; unfold on, sameFlag; reflexivity ].

Lemma deregisterListener_flag (k : string) :
  stable (on this sameFlag) (deregisterListener k).
Proof.
  unfold deregisterListener, deregisterListenerOnTarget, resolve, deferredPromise,
    getActiveRegistrations, mapEntries, removeEventHandler, invoke,
    deleteActiveRegistrations, deleteUserKeyInformation.
  frame_structure; frame_untouched; flag_primitives.
Qed.

Lemma step_flag (e : Event) : stable (on this sameFlag) (step e).
Proof.
  destruct e; cbn [step].
  - unfold registerListener, deferredPromise, isSmart, getActiveRegistrations,
      invokeUrgent, mapHas, setActiveRegistrations, setUserKeyInformation.
    frame_structure; frame_untouched; flag_primitives.
  - frame_structure. apply deregisterListener_flag.
  - unfold onConnectionAdded, reregisterListenersOnConnection,
      invokeRegistrationFromRecord, deferredPromise, getActiveRegistrations,
      getUserKeyInformation, mapGet, mapHas, resolve, invokeUrgent.
    frame_structure; frame_untouched.
  - unfold onConnectionRemoved, removeRegistrationsOnConnection, mapGet,
      removeEventHandler.
    frame_structure; frame_untouched.
  - intros w. unfold completeInvocation.
    destruct (nth_error (promises w) p) as [c |]; [| reflexivity].
    destruct (ofInvocation c); [| reflexivity].
    unfold on. rewrite settle_this. reflexivity.
  - apply stable_modify. intros w. reflexivity.
  - intros w. unfold tick. destruct (tasks w) as [| t rest]; [reflexivity |].
    revert t. intros t.
    enough (H : stable (on this sameFlag) (runTask t)) by apply (H (withTasks rest w)).
    destruct t; cbn [runTask];
      unfold registerStore, registerResolve, registerCatch, invokeRegistrationThen,
        invokeRegistrationCatch, reregisterThen, reregisterCatch,
        deregisterOnTargetCatch, deregisterListenerOnTarget, resolve, reject,
        getUserKeyInformation, invoke;
      frame_structure; frame_untouched.
    apply deregisterListener_flag.
Qed.

(** [isSmart()] answers with the flag the constructor read, at any time. *)
Lemma exec_flag (es : list Event) (w : World) :
  isSmartService (this (exec es w)) = isSmartService (this w).
Proof.
  revert w. induction es as [| e es IH]; intros w; [reflexivity |].
  rewrite exec_cons, IH. apply (step_flag e w).
Qed.

(** X9.  A listener registered now is registered on a connection that is added
    later: once [registerListener] has returned (with a uuid not in use),
    [onConnectionAdded(c)] sends on [c] a copy of the request that
    [codec.encodeAddRequest(isSmart)] produced at registration, with the
    listener's handler. *)
Theorem listener_follows_added_connection
        (smartRouting : bool) (es : list Event) (codec : ListenerMessageCodec)
        (listenerHandlerFn : ClientMessageHandler)
        (activeConnections : list ClientConnection) (uuid : string)
        (c : ClientConnection) :
  JsMap.get String.eqb
    (activeRegistrations (this (exec es (create smartRouting)))) uuid = None ->
  In (InvokeUrgent
        (mkInvocation (copyWithNewCorrelationId (encodeAddRequest codec smartRouting))
           (Some listenerHandlerFn) c None))
     (callsDuring (onConnectionAdded c)
        (exec (es ++ [RegisterListener codec listenerHandlerFn activeConnections uuid])
           (create smartRouting))).
Proof.
  intros Hnew.
  unfold exec at 1. rewrite fold_left_app. fold (exec es (create smartRouting)).
  cbn [fold_left step].
  pose proof (exec_flag es (create smartRouting)) as Hsmart. cbn in Hsmart.
  assert (Hw : Consistent (exec es (create smartRouting)))
    by (apply exec_consistent, create_consistent).
  revert Hnew Hsmart Hw. generalize (exec es (create smartRouting)) as w.
  intros w Hnew Hsmart Hw.
  erewrite bind_returns by (apply registerListener_run; exact Hnew). cbn [ret snd].
  match goal with |- context [callsDuring _ ?w1] =>
    destruct (onConnectionAdded_run c w1) as (cells & Hrun);
      [now apply consistent_register |];
      erewrite callsDuring_app by (rewrite Hrun; reflexivity)
  end.
  rewrite map_map. cbn [this heap newTables activeRegistrations userKeyInformation].
  assert (Hnew' : JsMap.get String.eqb (userKeyInformation (this w)) uuid = None).
  { apply get_none_keys. rewrite <- (same_keys w Hw). now apply get_none_keys. }
  rewrite (set_fresh (activeRegistrations (this w))) by exact Hnew.
  rewrite reregistrations_app, map_app. apply in_or_app. right.
  unfold reregistrations. cbn [flat_map].
  rewrite app_nth2, Nat.sub_diag by lia.
  cbn [nth JsMap.has JsMap.get newTables userKeyInformation].
  rewrite get_set_same. cbn. left. unfold recordInvocation. cbn.
  now rewrite Hsmart.
Qed.
End WithLayout.

Import Sample.

Lemma listener_follows_added_connection_witness :
  JsMap.get String.eqb (activeRegistrations (this (exec [] (create true)))) "k" = None
  /\ In (InvokeUrgent
           (mkInvocation (copyWithNewCorrelationId (encodeAddRequest listenerCodec true))
              (Some 7%nat) c2 None))
        (callsDuring (onConnectionAdded c2)
           (exec ([] ++ [RegisterListener listenerCodec 7%nat [c1] "k"]) (create true))).
Proof.
  assert (H : JsMap.get String.eqb (activeRegistrations (this (exec [] (create true)))) "k"
              = None) by reflexivity.
  split; [exact H |].
  exact (listener_follows_added_connection true [] listenerCodec 7%nat [c1] "k" c2 H).
Defined.
End Reregistration.

(** ** ListenerService: the callbacks of register requests *)

Module CallbackChains.
Import ListenerService ListenerTerms ListenerState ListFacts JsMapFacts
       ListenerFrames ListenerFacts.

Lemma get_set_sameConnection (m : RegistrationMap) (c : ClientConnection)
      (r : ClientEventRegistration) :
  JsMap.get sameConnection (JsMap.set sameConnection m c r) c = Some r.
Proof.
  induction m as [| [c0 r0] m IH]; cbn.
  - unfold sameConnection. now rewrite Nat.eqb_refl.
  - destruct (sameConnection c0 c) eqn:E; cbn; rewrite E; [reflexivity | exact IH].
Qed.

Lemma get_set_otherConnection (m : RegistrationMap) (c c' : ClientConnection)
      (r : ClientEventRegistration) :
  connectionId c' <> connectionId c ->
  JsMap.get sameConnection (JsMap.set sameConnection m c r) c'
  = JsMap.get sameConnection m c'.
Proof.
  intros Hne.
  assert (Hcc : sameConnection c c' = false).
  { unfold sameConnection. apply Nat.eqb_neq. auto. }
  induction m as [| [c0 r0] m IH]; cbn.
  - now rewrite Hcc.
  - destruct (sameConnection c0 c) eqn:E; cbn.
    + unfold sameConnection in *. apply Nat.eqb_eq in E. rewrite E, Hcc. reflexivity.
    + now rewrite IH.
Qed.

Section WithLayout.
Context {L : Layout}.

Lemma exec_app (es1 es2 : list Event) (w : World) :
  exec (es1 ++ es2) w = exec es2 (exec es1 w).
Proof. unfold exec. apply fold_left_app. Qed.

(** Running the two callbacks that follow the answer to a request issued
    by [invokeRegistrationFromRecord] for [reregisterListenersOnConnection],
    when the key is still registered. *)
Lemma reregistration_answered_run
      (w : World) (p d : PromiseRef) (userKey : string) (l : MapRef)
      (c : ClientConnection) (i : Invocation) (cd : ListenerMessageCodec)
      (m : ClientMessage) (n : Z) (sid : string) (rk : RegistrationKey) :
  tasks w = [] ->
  nth_error (promises w) p
  = Some (mkCell None [OnInvokeRegistration userKey c i cd d] true) ->
  nth_error (promises w) d = Some (mkCell None [OnReregister userKey l c] false) ->
  getCorrelationId m = Some n ->
  decodeAddResponse cd m = Returns sid ->
  JsMap.get String.eqb (userKeyInformation (this w)) userKey = Some rk ->
  exec [InvocationCompletes p (Returns m); Tick; Tick] w
  = mkWorld (this w)
      (replaceNth l
         (JsMap.set sameConnection (nth l (heap w) []) c
            (mkClientEventRegistration sid n (connectionOf i) cd))
         (heap w))
      (replaceNth d
         (mkCell (Some (Returns (VRegistration
                                  (mkClientEventRegistration sid n (connectionOf i) cd))))
            [OnReregister userKey l c] false)
         (replaceNth p
            (mkCell (Some (Returns (VMessage m)))
               [OnInvokeRegistration userKey c i cd d] true)
            (promises w)))
      []
      (trace w
         ++ [mkObservation
               (LoggerDebug "ListenerService"
                  (LogText ("Listener " ++ userKey ++ " re-registered on "
                            ++ description c)%string))
               (this w) (heap w)])
      (closed w).
Proof.
  intros Htasks Hp Hd Hcorr Hdecode Hinfo.
  assert (Hne : p <> d) by (intros ->; rewrite Hp in Hd; discriminate).
  rewrite exec_cons. cbn [step].
  unfold completeInvocation. rewrite Hp. cbn [ofInvocation].
  unfold settle. rewrite Hp, Htasks. cbn [snd app map react].
  rewrite exec_cons. cbn [step].
  unfold tick. cbn [tasks withTasks withPromises runTask].
  unfold invokeRegistrationThen. rewrite Hcorr, Hdecode.
  unfold bind, perform, modify, resolve, settle. cbn.
  rewrite nth_error_replaceNth_other by exact Hne. rewrite Hd. cbn.
  unfold exec. cbn [fold_left step]. unfold tick. cbn [tasks runTask].
  unfold reregisterThen, bind, getUserKeyInformation, gets. cbn.
  rewrite Hinfo. reflexivity.
Qed.

(** X14.  When the request that [reregisterListenersOnConnection] issued for a
    key and a connection is answered and the key is still registered, the
    two callbacks store the new registration (server registration id from
    the codec, correlation id of the response) in the key's map under the
    connection: a later lookup for the pair finds it.  The records of the
    other connections stay, the tables are unchanged, and the only call
    made is the debug log line. *)
Theorem reregistration_success_is_stored
        (w : World) (p d : PromiseRef) (userKey : string) (l : MapRef)
        (c : ClientConnection) (i : Invocation) (cd : ListenerMessageCodec)
        (m : ClientMessage) (n : Z) (sid : string) (rk : RegistrationKey) :
  tasks w = [] ->
  nth_error (promises w) p
  = Some (mkCell None [OnInvokeRegistration userKey c i cd d] true) ->
  nth_error (promises w) d = Some (mkCell None [OnReregister userKey l c] false) ->
  getCorrelationId m = Some n ->
  decodeAddResponse cd m = Returns sid ->
  JsMap.get String.eqb (userKeyInformation (this w)) userKey = Some rk ->
  JsMap.get String.eqb (activeRegistrations (this w)) userKey = Some l ->
  (l < List.length (heap w))%nat ->
  storedOn (exec [InvocationCompletes p (Returns m); Tick; Tick] w) userKey c
  = Some (mkClientEventRegistration sid n (connectionOf i) cd)
  /\ (forall c', connectionId c' <> connectionId c ->
        storedOn (exec [InvocationCompletes p (Returns m); Tick; Tick] w) userKey c'
        = storedOn w userKey c')
  /\ this (exec [InvocationCompletes p (Returns m); Tick; Tick] w) = this w
  /\ tasks (exec [InvocationCompletes p (Returns m); Tick; Tick] w) = []
  /\ map call (trace (exec [InvocationCompletes p (Returns m); Tick; Tick] w))
     = map call (trace w)
       ++ [LoggerDebug "ListenerService"
             (LogText ("Listener " ++ userKey ++ " re-registered on "
                       ++ description c)%string)].
Proof.
  intros Htasks Hp Hd Hcorr Hdecode Hinfo Hl Hlt.
  rewrite (reregistration_answered_run w p d userKey l c i cd m n sid rk)
    by assumption.
  unfold storedOn. cbn [this heap tasks trace]. rewrite Hl.
  rewrite nth_replaceNth_same by exact Hlt.
  split; [apply get_set_sameConnection |].
  split; [intros c' Hne; now apply get_set_otherConnection |].
  split; [reflexivity |]. split; [reflexivity |].
  rewrite map_app. reflexivity.
Qed.

(** X15.  When the request that [reregisterListenersOnConnection] issued fails,
    the failure is wrapped in a HazelcastError "Could not add listener[..]
    to connection[..]", logged as one warning, and goes no further: the
    tables and the inner maps are as before and no callback is left to
    run. *)
Theorem reregistration_failure_is_logged
        (w : World) (p d : PromiseRef) (userKey : string) (l : MapRef)
        (c : ClientConnection) (i : Invocation) (cd : ListenerMessageCodec)
        (err : Exception) :
  tasks w = [] ->
  nth_error (promises w) p
  = Some (mkCell None [OnInvokeRegistration userKey c i cd d] true) ->
  nth_error (promises w) d = Some (mkCell None [OnReregister userKey l c] false) ->
  this (exec [InvocationCompletes p (Throws err); Tick; Tick] w) = this w
  /\ heap (exec [InvocationCompletes p (Throws err); Tick; Tick] w) = heap w
  /\ tasks (exec [InvocationCompletes p (Throws err); Tick; Tick] w) = []
  /\ map call (trace (exec [InvocationCompletes p (Throws err); Tick; Tick] w))
     = map call (trace w)
       ++ [LoggerWarn "ListenerService"
             (LogError
                (HazelcastError
                   ("Could not add listener[" ++ userKey ++ "] to connection["
                    ++ description c ++ "]")%string err))].
Proof.
  intros Htasks Hp Hd.
  assert (Hne : p <> d) by (intros ->; rewrite Hp in Hd; discriminate).
  rewrite exec_cons. cbn [step].
  unfold completeInvocation. rewrite Hp. cbn [ofInvocation].
  unfold settle. rewrite Hp, Htasks. cbn [snd app map react].
  rewrite exec_cons. cbn [step].
  unfold tick. cbn [tasks withTasks withPromises runTask].
  unfold invokeRegistrationCatch, reject, settle. cbn.
  rewrite nth_error_replaceNth_other by exact Hne. rewrite Hd. cbn.
  unfold exec. cbn [fold_left step]. unfold tick. cbn [tasks runTask].
  unfold reregisterCatch, perform, modify. cbn.
  rewrite map_app. auto.
Qed.

(** Running the two callbacks that follow the answer to a request issued
    by [registerListener]. *)
Lemma registration_answered_run
      (w : World) (p d : PromiseRef) (userKey : string) (l : MapRef)
      (c : ClientConnection) (i : Invocation) (cd : ListenerMessageCodec)
      (rs : list Reaction) (m : ClientMessage) (n : Z) (sid : string) :
  tasks w = [] ->
  nth_error (promises w) p = Some (mkCell None [OnRegister userKey l c i cd d] true) ->
  nth_error (promises w) d = Some (mkCell None rs false) ->
  getCorrelationId m = Some n ->
  decodeAddResponse cd m = Returns sid ->
  exec [InvocationCompletes p (Returns m); Tick; Tick] w
  = mkWorld (this w)
      (replaceNth l
         (JsMap.set sameConnection (nth l (heap w) []) c
            (mkClientEventRegistration sid n (connectionOf i) cd))
         (heap w))
      (replaceNth d (mkCell (Some (Returns (VString userKey))) rs false)
         (replaceNth p
            (mkCell (Some (Returns (VMessage m))) [OnRegister userKey l c i cd d] true)
            (promises w)))
      (map (fun r => react r (Returns (VString userKey))) rs)
      (trace w
         ++ [mkObservation
               (LoggerDebug "ListenerService"
                  (LogText ("Listener " ++ userKey ++ " registered on "
                            ++ description (connectionOf i))%string))
               (this w) (heap w)])
      (closed w).
Proof.
  intros Htasks Hp Hd Hcorr Hdecode.
  assert (Hne : p <> d) by (intros ->; rewrite Hp in Hd; discriminate).
  rewrite exec_cons. cbn [step].
  unfold completeInvocation. rewrite Hp. cbn [ofInvocation].
  unfold settle. rewrite Hp, Htasks. cbn [snd app map react].
  rewrite exec_cons. cbn [step].
  unfold tick. cbn [tasks withTasks withPromises runTask].
  unfold registerStore. rewrite Hcorr, Hdecode.
  unfold exec. cbn. unfold registerResolve, resolve, settle. cbn.
  rewrite nth_error_replaceNth_other by exact Hne. rewrite Hd. reflexivity.
Qed.

(** X10.  When a request issued by [registerListener] is answered and the key is
    still registered, the callbacks store the new registration in the
    key's map under the connection of the attempt: server registration id
    as decoded by the codec, correlation id of the response, and the
    invocation's connection as subscriber.  A later lookup for the pair
    finds it; the records of the other connections stay. *)
Theorem registration_success_is_stored
        (w : World) (p d : PromiseRef) (userKey : string) (l : MapRef)
        (c : ClientConnection) (i : Invocation) (cd : ListenerMessageCodec)
        (rs : list Reaction) (m : ClientMessage) (n : Z) (sid : string) :
  tasks w = [] ->
  nth_error (promises w) p = Some (mkCell None [OnRegister userKey l c i cd d] true) ->
  nth_error (promises w) d = Some (mkCell None rs false) ->
  getCorrelationId m = Some n ->
  decodeAddResponse cd m = Returns sid ->
  JsMap.get String.eqb (activeRegistrations (this w)) userKey = Some l ->
  (l < List.length (heap w))%nat ->
  storedOn (exec [InvocationCompletes p (Returns m); Tick; Tick] w) userKey c
  = Some (mkClientEventRegistration sid n (connectionOf i) cd)
  /\ (forall c', connectionId c' <> connectionId c ->
        storedOn (exec [InvocationCompletes p (Returns m); Tick; Tick] w) userKey c'
        = storedOn w userKey c')
  /\ this (exec [InvocationCompletes p (Returns m); Tick; Tick] w) = this w.
Proof.
  intros Htasks Hp Hd Hcorr Hdecode Hl Hlt.
  rewrite (registration_answered_run w p d userKey l c i cd rs m n sid) by assumption.
  unfold storedOn. cbn [this heap]. rewrite Hl.
  rewrite nth_replaceNth_same by exact Hlt.
  split; [apply get_set_sameConnection |].
  split; [intros c' Hne; now apply get_set_otherConnection | reflexivity].
Qed.

(** X12.  [registerListener]'s success callbacks do not look at the tables.  If
    [deregisterListener] has removed the key while a register request was
    unanswered, the answer still creates the registration: the promise of
    [registerListener] resolves with the userKey (when still pending), the
    record goes into the map that the key had, which the tables no longer
    reach, and the only call made is the debug log line: no remote remove
    request is issued for the new registration. *)
Theorem registration_answered_after_deregister
        (w : World) (p d : PromiseRef) (userKey : string) (l : MapRef)
        (c : ClientConnection) (i : Invocation) (cd : ListenerMessageCodec)
        (rs : list Reaction) (m : ClientMessage) (n : Z) (sid : string) :
  tasks w = [] ->
  nth_error (promises w) p = Some (mkCell None [OnRegister userKey l c i cd d] true) ->
  nth_error (promises w) d = Some (mkCell None rs false) ->
  getCorrelationId m = Some n ->
  decodeAddResponse cd m = Returns sid ->
  JsMap.get String.eqb (activeRegistrations (this w)) userKey = None ->
  outcome (exec [InvocationCompletes p (Returns m); Tick; Tick] w) d
  = Some (Returns (VString userKey))
  /\ this (exec [InvocationCompletes p (Returns m); Tick; Tick] w) = this w
  /\ (forall c',
        storedOn (exec [InvocationCompletes p (Returns m); Tick; Tick] w) userKey c'
        = None)
  /\ heap (exec [InvocationCompletes p (Returns m); Tick; Tick] w)
     = replaceNth l
         (JsMap.set sameConnection (nth l (heap w) []) c
            (mkClientEventRegistration sid n (connectionOf i) cd))
         (heap w)
  /\ map call (trace (exec [InvocationCompletes p (Returns m); Tick; Tick] w))
     = map call (trace w)
       ++ [LoggerDebug "ListenerService"
             (LogText ("Listener " ++ userKey ++ " registered on "
                       ++ description (connectionOf i))%string)].
Proof.
  intros Htasks Hp Hd Hcorr Hdecode Hgone.
  assert (Hlt : (d < List.length (promises w))%nat)
    by (apply nth_error_Some; congruence).
  rewrite (registration_answered_run w p d userKey l c i cd rs m n sid) by assumption.
  unfold outcome, storedOn. cbn [this heap promises trace].
  rewrite Hgone.
  rewrite nth_error_replaceNth_same by (rewrite replaceNth_length; exact Hlt).
  rewrite map_app. cbn. auto 6.
Qed.

(** X13.  A response that the codec cannot decode is handled like a failed
    request.  [decodeAddResponse] throws inside the first callback, which
    stores nothing; the [catch] callback runs next and, the connection being
    alive, deregisters the key and rejects the still pending promise of
    [registerListener] with "Listener cannot be added!" around the decoding
    error. *)
Theorem undecodable_response_rolls_back
        (w : World) (p d : PromiseRef) (userKey : string) (l : MapRef)
        (c : ClientConnection) (i : Invocation) (cd : ListenerMessageCodec)
        (rs : list Reaction) (m : ClientMessage) (n : Z) (err : Exception) :
  tasks w = [] ->
  nth_error (promises w) p = Some (mkCell None [OnRegister userKey l c i cd d] true) ->
  nth_error (promises w) d = Some (mkCell None rs false) ->
  getCorrelationId m = Some n ->
  decodeAddResponse cd m = Throws err ->
  isAlive w (connection i) = true ->
  tasks (exec [InvocationCompletes p (Returns m); Tick] w)
  = [RegisterCatch userKey i d err]
  /\ heap (exec [InvocationCompletes p (Returns m); Tick] w) = heap w
  /\ outcome (exec [InvocationCompletes p (Returns m); Tick; Tick] w) d
     = Some (Throws (HazelcastError "Listener cannot be added!" err))
  /\ JsMap.get String.eqb
       (activeRegistrations (this (exec [InvocationCompletes p (Returns m); Tick; Tick] w)))
       userKey = None.
Proof.
  intros Htasks Hp Hd Hcorr Hdecode Halive.
  assert (Hne : p <> d) by (intros ->; rewrite Hp in Hd; discriminate).
  assert (Hlt : (d < List.length (promises w))%nat)
    by (apply nth_error_Some; congruence).
  assert (Hrun :
    exec [InvocationCompletes p (Returns m); Tick] w
    = mkWorld (this w) (heap w)
        (replaceNth p
           (mkCell (Some (Returns (VMessage m))) [OnRegister userKey l c i cd d] true)
           (promises w))
        [RegisterCatch userKey i d err] (trace w) (closed w)).
  { rewrite exec_cons. cbn [step].
    unfold completeInvocation. rewrite Hp. cbn [ofInvocation].
    unfold settle. rewrite Hp, Htasks. cbn [snd app map react].
    unfold exec. cbn [fold_left step].
    unfold tick. cbn [tasks withTasks withPromises runTask].
    unfold registerStore. rewrite Hcorr, Hdecode. reflexivity. }
  split; [now rewrite Hrun |]. split; [now rewrite Hrun |].
  change [InvocationCompletes p (Returns m); Tick; Tick]
    with ([InvocationCompletes p (Returns m); Tick] ++ [Tick]).
  rewrite exec_app, Hrun.
  unfold exec. cbn [fold_left step]. unfold tick. cbn [tasks runTask].
  unfold registerCatch. erewrite bind_returns by reflexivity.
  cbn beta. unfold isAlive at 1 2. cbn [closed withTasks].
  fold (isAlive w (connection i)). rewrite Halive.
  match goal with |- context [bind (deregisterListener userKey) _ ?w1] =>
    destruct (RegistrationRollback.deregisterListener_promises userKey w1)
      as (w2 & b & cells & Hdereg & Hps & Hgone)
  end.
  erewrite bind_returns by exact Hdereg.
  cbn [promises withTasks] in Hdereg, Hps.
  unfold bind.
  match goal with |- context [subscribe ?q OnRollback w2] =>
    destruct (subscribe q OnRollback w2) as [r w3] eqn:Hsub
  end.
  assert (Hr : r = Returns tt /\ this w3 = this w2
               /\ nth_error (promises w3) d = Some (mkCell None rs false)).
  { unfold subscribe in Hsub. cbn [promises withTasks] in Hsub. rewrite Hps in Hsub.
    rewrite nth_error_app2, Nat.sub_diag in Hsub by lia. cbn [nth_error] in Hsub.
    injection Hsub as <- <-. cbn. repeat split.
    rewrite nth_error_replaceNth_other by (rewrite replaceNth_length; lia).
    rewrite nth_error_app1 by (rewrite replaceNth_length; exact Hlt).
    rewrite nth_error_replaceNth_other by exact Hne. exact Hd. }
  destruct Hr as (-> & Hthis & Hcell).
  unfold reject. rewrite settle_this, Hthis. split; [| exact Hgone].
  unfold outcome, settle. rewrite Hcell. cbn.
  rewrite nth_error_replaceNth_same; [reflexivity |].
  apply nth_error_Some. congruence.
Qed.
End WithLayout.

Import Sample Scenario.

Lemma reregistration_success_is_stored_witness :
  tasks (reregistering listenerCodec) = []
  /\ (0 < List.length (heap (reregistering listenerCodec)))%nat
  /\ storedOn (reregistering listenerCodec) "k" c2 = None
  /\ storedOn (exec [InvocationCompletes 3%nat (Returns (message 12)); Tick; Tick]
                 (reregistering listenerCodec)) "k" c2
     = Some (mkClientEventRegistration "server-id" 12 c2 listenerCodec).
Proof.
  assert (H1 : tasks (reregistering listenerCodec) = []) by (vm_compute; reflexivity).
  assert (H2 : nth_error (promises (reregistering listenerCodec)) 3%nat
               = Some (mkCell None
                         [OnInvokeRegistration "k" c2
                            (recordInvocation
                               (mkRegistrationKey "k" listenerCodec addRequest 7%nat) c2)
                            listenerCodec 2%nat] true)) by (vm_compute; reflexivity).
  assert (H3 : nth_error (promises (reregistering listenerCodec)) 2%nat
               = Some (mkCell None [OnReregister "k" 0%nat c2] false))
    by (vm_compute; reflexivity).
  assert (H4 : getCorrelationId (message 12) = Some 12) by (vm_compute; reflexivity).
  assert (H5 : decodeAddResponse listenerCodec (message 12) = Returns "server-id")
    by reflexivity.
  assert (H6 : JsMap.get String.eqb
                 (userKeyInformation (this (reregistering listenerCodec))) "k"
               = Some (mkRegistrationKey "k" listenerCodec addRequest 7%nat))
    by (vm_compute; reflexivity).
  assert (H7 : JsMap.get String.eqb
                 (activeRegistrations (this (reregistering listenerCodec))) "k"
               = Some 0%nat) by (vm_compute; reflexivity).
  assert (H8 : (0 < List.length (heap (reregistering listenerCodec)))%nat)
    by (vm_compute; lia).
  split; [exact H1 |]. split; [exact H8 |]. split; [vm_compute; reflexivity |].
  exact (proj1 (reregistration_success_is_stored (reregistering listenerCodec)
                  3%nat 2%nat "k" 0%nat c2 _ listenerCodec (message 12) 12 "server-id" _
                  H1 H2 H3 H4 H5 H6 H7 H8)).
Defined.

Lemma reregistration_failure_is_logged_witness :
  tasks (reregistering listenerCodec) = []
  /\ map call (trace (exec [InvocationCompletes 3%nat (Throws (IOError "reset"));
                            Tick; Tick] (reregistering listenerCodec)))
     = map call (trace (reregistering listenerCodec))
       ++ [LoggerWarn "ListenerService"
             (LogError
                (HazelcastError "Could not add listener[k] to connection[connection-2]"
                   (IOError "reset")))].
Proof.
  assert (H1 : tasks (reregistering listenerCodec) = []) by (vm_compute; reflexivity).
  assert (H2 : nth_error (promises (reregistering listenerCodec)) 3%nat
               = Some (mkCell None
                         [OnInvokeRegistration "k" c2
                            (recordInvocation
                               (mkRegistrationKey "k" listenerCodec addRequest 7%nat) c2)
                            listenerCodec 2%nat] true)) by (vm_compute; reflexivity).
  assert (H3 : nth_error (promises (reregistering listenerCodec)) 2%nat
               = Some (mkCell None [OnReregister "k" 0%nat c2] false))
    by (vm_compute; reflexivity).
  split; [exact H1 |].
  exact (proj2 (proj2 (proj2
    (reregistration_failure_is_logged (reregistering listenerCodec) 3%nat 2%nat "k"
       0%nat c2 _ listenerCodec (IOError "reset") H1 H2 H3)))).
Defined.

Lemma registration_success_is_stored_witness :
  tasks registering = []
  /\ storedOn registering "k" c1 = None
  /\ storedOn (exec [InvocationCompletes 1%nat (Returns (message 11)); Tick; Tick]
                 registering) "k" c1
     = Some (mkClientEventRegistration "server-id" 11 c1 listenerCodec).
Proof.
  assert (H1 : tasks registering = []) by (vm_compute; reflexivity).
  assert (H2 : nth_error (promises registering) 1%nat
               = Some (mkCell None
                         [OnRegister "k" 0%nat c1 (registerInvocation addRequest 7%nat c1)
                            listenerCodec 0%nat] true)) by (vm_compute; reflexivity).
  assert (H3 : nth_error (promises registering) 0%nat = Some (mkCell None [] false))
    by (vm_compute; reflexivity).
  assert (H4 : getCorrelationId (message 11) = Some 11) by (vm_compute; reflexivity).
  assert (H5 : decodeAddResponse listenerCodec (message 11) = Returns "server-id")
    by reflexivity.
  assert (H6 : JsMap.get String.eqb (activeRegistrations (this registering)) "k"
               = Some 0%nat) by (vm_compute; reflexivity).
  assert (H7 : (0 < List.length (heap registering))%nat) by (vm_compute; lia).
  split; [exact H1 |]. split; [vm_compute; reflexivity |].
  exact (proj1 (registration_success_is_stored registering 1%nat 0%nat "k" 0%nat c1 _
                  listenerCodec [] (message 11) 11 "server-id"
                  H1 H2 H3 H4 H5 H6 H7)).
Defined.

Lemma undecodable_response_rolls_back_witness :
  tasks (registeringWith strictCodec) = []
  /\ decodeAddResponse strictCodec (message 11) = Throws (OtherError "Error" "bad frame")
  /\ isAlive (registeringWith strictCodec) c1 = true
  /\ outcome (exec [InvocationCompletes 1%nat (Returns (message 11)); Tick; Tick]
                (registeringWith strictCodec)) 0%nat
     = Some (Throws (HazelcastError "Listener cannot be added!"
                       (OtherError "Error" "bad frame"))).
Proof.
  assert (H1 : tasks (registeringWith strictCodec) = []) by (vm_compute; reflexivity).
  assert (H2 : nth_error (promises (registeringWith strictCodec)) 1%nat
               = Some (mkCell None
                         [OnRegister "k" 0%nat c1 (registerInvocation addRequest 7%nat c1)
                            strictCodec 0%nat] true)) by (vm_compute; reflexivity).
  assert (H3 : nth_error (promises (registeringWith strictCodec)) 0%nat
               = Some (mkCell None [] false)) by (vm_compute; reflexivity).
  assert (H4 : getCorrelationId (message 11) = Some 11) by (vm_compute; reflexivity).
  assert (H5 : decodeAddResponse strictCodec (message 11)
               = Throws (OtherError "Error" "bad frame")) by reflexivity.
  assert (H6 : isAlive (registeringWith strictCodec) c1 = true)
    by (vm_compute; reflexivity).
  split; [exact H1 |]. split; [exact H5 |]. split; [exact H6 |].
  exact (proj1 (proj2 (proj2
    (undecodable_response_rolls_back (registeringWith strictCodec) 1%nat 0%nat "k" 0%nat
       c1 (registerInvocation addRequest 7%nat c1) strictCodec [] (message 11) 11
       (OtherError "Error" "bad frame") H1 H2 H3 H4 H5 H6)))).
Defined.

Lemma registration_answered_after_deregister_witness :
  tasks deregisteredEarly = []
  /\ JsMap.get String.eqb (activeRegistrations (this deregisteredEarly)) "k" = None
  /\ outcome (exec [InvocationCompletes 1%nat (Returns (message 11)); Tick; Tick]
                deregisteredEarly) 0%nat
     = Some (Returns (VString "k"))
  /\ map call (trace (exec [InvocationCompletes 1%nat (Returns (message 11)); Tick; Tick]
                        deregisteredEarly))
     = map call (trace deregisteredEarly)
       ++ [LoggerDebug "ListenerService" (LogText "Listener k registered on connection-1")].
Proof.
  assert (H1 : tasks deregisteredEarly = []) by (vm_compute; reflexivity).
  assert (H2 : nth_error (promises deregisteredEarly) 1%nat
               = Some (mkCell None
                         [OnRegister "k" 0%nat c1 (registerInvocation addRequest 7%nat c1)
                            listenerCodec 0%nat] true)) by (vm_compute; reflexivity).
  assert (H3 : nth_error (promises deregisteredEarly) 0%nat = Some (mkCell None [] false))
    by (vm_compute; reflexivity).
  assert (H4 : getCorrelationId (message 11) = Some 11) by (vm_compute; reflexivity).
  assert (H5 : decodeAddResponse listenerCodec (message 11) = Returns "server-id")
    by reflexivity.
  assert (H6 : JsMap.get String.eqb (activeRegistrations (this deregisteredEarly)) "k"
               = None) by (vm_compute; reflexivity).
  split; [exact H1 |]. split; [exact H6 |].
  destruct (registration_answered_after_deregister deregisteredEarly 1%nat 0%nat "k"
              0%nat c1 _ listenerCodec [] (message 11) 11 "server-id"
              H1 H2 H3 H4 H5 H6) as (Hout & _ & _ & _ & Hcalls).
  split; [exact Hout | exact Hcalls].
Defined.
End CallbackChains.

(** ** ListenerService: a promise that no callback settles *)

Module NeverSettles.
Import ListenerService ListenerTerms ListenerState PromiseReach Stability ListenerFrames
       ListFacts JsMapFacts ListenerFacts Registration AttemptsUnique.

#[export] Instance keeps_pre (P : World -> Prop) : PreOrder (keeps P).
Proof.
  split.
  - intros w H. exact H.
  - intros a b c Hab Hbc H. auto.
Qed.

Lemma chains_app (ps qs : list PromiseCell) : chains (ps ++ qs) = chains ps ++ chains qs.
Proof. unfold chains. apply flat_map_app. Qed.

Lemma chains_replaceNth (ps : list PromiseCell) (p : nat) (c c' : PromiseCell) :
  nth_error ps p = Some c ->
  forall x, In x (chains (replaceNth p c' ps)) ->
            In x (chains ps) \/ In x (flat_map deferredOf (reactions c')).
Proof.
  intros Hc x. destruct (replaceNth_split p c c' ps Hc) as [Hps Hrep].
  rewrite Hrep. rewrite Hps at 3. rewrite !chains_app. cbn [chains flat_map].
  rewrite !in_app_iff. tauto.
Qed.

Lemma chains_cell (ps : list PromiseCell) (p : nat) (c : PromiseCell) :
  nth_error ps p = Some c ->
  forall x, In x (flat_map deferredOf (reactions c)) -> In x (chains ps).
Proof.
  intros Hc x Hx. unfold chains. apply in_flat_map. exists c.
  split; [eapply nth_error_In; eassumption | exact Hx].
Qed.

Lemma react_deferred (r : Reaction) (s : Settlement) :
  incl (deferredOfTask (react r s)) (deferredOf r).
Proof.
  destruct r, s as [[] |]; cbn; intros x Hx; solve [exact Hx | destruct Hx].
Qed.

Lemma reacts_deferred (rs : list Reaction) (s : Settlement) :
  incl (flat_map deferredOfTask (map (fun r => react r s) rs)) (flat_map deferredOf rs).
Proof.
  induction rs as [| r rs IH]; cbn; [auto with datatypes |].
  intros x Hx. apply in_app_or in Hx. apply in_or_app.
  destruct Hx as [Hx | Hx]; [left; now apply (react_deferred r s) | right; auto].
Qed.

(** What each primitive adds to the promises that can be settled. *)
Lemma settle_mentioned (p : PromiseRef) (s : Settlement) (w : World) :
  incl (mentioned (snd (settle p s w))) (mentioned w)
  /\ List.length (promises (snd (settle p s w))) = List.length (promises w).
Proof.
  unfold settle.
  destruct (nth_error (promises w) p) as [[[s0 |] rs ext] |] eqn:E; cbn [snd];
    try (split; [apply incl_refl | reflexivity]).
  split; [| cbn; apply replaceNth_length].
  unfold mentioned. cbn [promises tasks withTasks withPromises].
  intros x Hx. rewrite flat_map_app in Hx. rewrite !in_app_iff in *.
  destruct Hx as [Hx | [Hx | Hx]].
  - destruct (chains_replaceNth _ _ _ _ E x Hx) as [H | H]; [now left |].
    left. eapply chains_cell; eassumption.
  - now right.
  - left. eapply chains_cell; [exact E |]. now apply (reacts_deferred rs s).
Qed.

Lemma subscribe_mentioned (p : PromiseRef) (r : Reaction) (w : World) :
  incl (mentioned (snd (subscribe p r w))) (mentioned w ++ deferredOf r)
  /\ List.length (promises (snd (subscribe p r w))) = List.length (promises w).
Proof.
  unfold subscribe.
  destruct (nth_error (promises w) p) as [[[s0 |] rs ext] |] eqn:E; cbn [snd];
    try (split; [apply incl_appl, incl_refl | reflexivity]);
    (split; [| cbn; apply replaceNth_length]);
    unfold mentioned; cbn [promises tasks withTasks withPromises];
    intros x Hx; rewrite ?flat_map_app in Hx; rewrite !in_app_iff in *.
  - destruct Hx as [Hx | [Hx | Hx]].
    + destruct (chains_replaceNth _ _ _ _ E x Hx) as [H | H]; [now left; left |].
      cbn [reactions] in H. rewrite flat_map_app in H. apply in_app_or in H.
      cbn in H. rewrite app_nil_r in H.
      destruct H as [H | H]; [left; left; eapply chains_cell; eassumption | now right].
    + left. now right.
    + cbn in Hx. rewrite app_nil_r in Hx. right. now apply (react_deferred r s0).
  - destruct Hx as [Hx | Hx]; [| left; now right].
    destruct (chains_replaceNth _ _ _ _ E x Hx) as [H | H]; [now left; left |].
    cbn [reactions] in H. rewrite flat_map_app in H. apply in_app_or in H.
    cbn in H. rewrite app_nil_r in H.
    destruct H as [H | H]; [left; left; eapply chains_cell; eassumption | now right].
Qed.

Lemma newPromise_mentioned (ext : bool) (w : World) :
  mentioned (snd (newPromise ext w)) = mentioned w.
Proof.
  unfold mentioned. cbn. rewrite chains_app. cbn. now rewrite app_nil_r.
Qed.

(** *** A promise that nothing can settle stays so *)

Section Unreachable.
Variable d : PromiseRef.

Lemma unreachable_newPromise (ext : bool) :
  stable (keeps (Unreachable d)) (newPromise ext).
Proof.
  intros w [[rs Hd] Hm]. split.
  - exists rs. cbn. rewrite nth_error_app1; [exact Hd |].
    apply nth_error_Some. congruence.
  - now rewrite newPromise_mentioned.
Qed.

Lemma unreachable_settle (p : PromiseRef) (s : Settlement) :
  p <> d -> stable (keeps (Unreachable d)) (settle p s).
Proof.
  intros Hne w [[rs Hd] Hm]. split.
  - exists rs. unfold settle.
    destruct (nth_error (promises w) p) as [[[s0 |] rs0 ext] |]; cbn; try exact Hd.
    now rewrite nth_error_replaceNth_other.
  - intros Hin. apply Hm. now apply (proj1 (settle_mentioned p s w)).
Qed.

Lemma unreachable_subscribe (p : PromiseRef) (r : Reaction) :
  ~ In d (deferredOf r) -> stable (keeps (Unreachable d)) (subscribe p r).
Proof.
  intros Hr w [[rs Hd] Hm]. split.
  - unfold subscribe.
    destruct (Nat.eq_dec p d) as [-> | Hne].
    + rewrite Hd. cbn. eexists. apply nth_error_replaceNth_same.
      apply nth_error_Some. congruence.
    + destruct (nth_error (promises w) p) as [[[s0 |] rs0 ext] |]; cbn; exists rs;
        rewrite ?nth_error_replaceNth_other by exact Hne; exact Hd.
  - intros Hin. apply (proj1 (subscribe_mentioned p r w)) in Hin.
    apply in_app_or in Hin. tauto.
Qed.

Lemma unreachable_enqueue (t : Task) :
  ~ In d (deferredOfTask t) -> stable (keeps (Unreachable d)) (enqueue t).
Proof.
  intros Ht w [Hd Hm]. split; [exact Hd |].
  unfold mentioned in *. cbn. rewrite flat_map_app. cbn. rewrite app_nil_r.
  rewrite !in_app_iff in *. tauto.
Qed.

Lemma unreachable_untouched (f : World -> World) :
  (forall w, promises (f w) = promises w) -> (forall w, tasks (f w) = tasks w) ->
  stable (keeps (Unreachable d)) (modify f).
Proof.
  intros Hp Ht w [Hd Hm]. unfold Unreachable, mentioned in *. cbn.
  now rewrite Hp, Ht.
Qed.

Lemma unreachable_fresh {B} (ext : bool) (k : PromiseRef -> M B) :
  (forall a, a <> d -> stable (keeps (Unreachable d)) (k a)) ->
  stable (keeps (Unreachable d)) (bind (newPromise ext) k).
Proof.
  intros Hk w Hw. unfold bind. cbn.
  apply Hk.
  - destruct Hw as [[rs Hd] _]. intros <-.
    assert (H : (List.length (promises w) < List.length (promises w))%nat)
      by (apply nth_error_Some; congruence).
    lia.
  - now apply (unreachable_newPromise ext w).
Qed.

Ltac unreachable_structure :=
  repeat match goal with
    | |- stable _ (ret _) => apply stable_ret; typeclasses eauto
    | |- stable _ (throw _) => apply stable_throw; typeclasses eauto
    | |- stable _ (gets _) => apply stable_gets; typeclasses eauto
    | |- stable _ (bind (newPromise _) _) => apply unreachable_fresh; intros ? ?
    | |- stable _ (newPromise _) => apply unreachable_newPromise
    | |- stable _ (bind _ _) => apply stable_bind; [typeclasses eauto | | intros ?]
    | |- stable _ (forEach _ _) => apply stable_forEach; [typeclasses eauto | intros ?]
    | |- stable _ (settle _ _) =>
        apply unreachable_settle; solve [assumption | cbn in *; intuition congruence]
    | |- stable _ (subscribe _ _) =>
        apply unreachable_subscribe; solve [cbn in *; intuition congruence]
    | |- stable _ (enqueue _) =>
        apply unreachable_enqueue; solve [cbn in *; intuition congruence]
    | |- stable _ (modify _) => apply unreachable_untouched; reflexivity
    | |- stable _ (match ?x with _ => _ end) => destruct x
    end.

Section WithLayout.
Context {L : Layout}.

Lemma unreachable_deregisterListener (k : string) :
  stable (keeps (Unreachable d)) (deregisterListener k).
Proof.
  unfold deregisterListener, deregisterListenerOnTarget, resolve, deferredPromise,
    getActiveRegistrations, mapEntries, mapDelete, removeEventHandler, invoke, perform,
    deleteActiveRegistrations, deleteUserKeyInformation.
  unreachable_structure.
Qed.

Lemma unreachable_runTask (t : Task) :
  ~ In d (deferredOfTask t) -> stable (keeps (Unreachable d)) (runTask t).
Proof.
  intros Ht.
  destruct t; cbn [runTask deferredOfTask] in *;
    unfold registerStore, registerResolve, registerCatch, invokeRegistrationThen,
      invokeRegistrationCatch, reregisterThen, reregisterCatch,
      deregisterOnTargetCatch, deregisterListenerOnTarget, resolve, reject,
      getUserKeyInformation, invoke, perform, mapSet;
    unreachable_structure.
  apply unreachable_deregisterListener.
Qed.

Lemma unreachable_step (e : Event) : stable (keeps (Unreachable d)) (step e).
Proof.
  destruct e as [cd h cs uuid | k | c | c | p o | c |]; cbn [step].
  - unfold registerListener, deferredPromise, isSmart, getActiveRegistrations,
      invokeUrgent, mapHas, newMap, perform, setActiveRegistrations,
      setUserKeyInformation.
    unreachable_structure.
    intros w. apply (unreachable_untouched (fun w => withHeap (heap w ++ [[]]) w));
      reflexivity.
  - unreachable_structure. apply unreachable_deregisterListener.
  - unfold onConnectionAdded, reregisterListenersOnConnection,
      invokeRegistrationFromRecord, deferredPromise, getActiveRegistrations,
      getUserKeyInformation, mapGet, mapHas, resolve, invokeUrgent, perform.
    unreachable_structure.
  - unfold onConnectionRemoved, removeRegistrationsOnConnection, mapGet,
      removeEventHandler, perform.
    unreachable_structure.
  - intros w Hw. unfold completeInvocation.
    destruct (nth_error (promises w) p) as [cell |] eqn:E; [| exact Hw].
    destruct (ofInvocation cell) eqn:Eext; [| exact Hw].
    apply unreachable_settle; [| exact Hw].
    intros ->. destruct Hw as [[rs Hd] _]. rewrite E in Hd.
    injection Hd as ->. discriminate.
  - apply unreachable_untouched; reflexivity.
  - intros w Hw. unfold tick. destruct (tasks w) as [| t rest] eqn:E; [exact Hw |].
    destruct Hw as [Hd Hm]. unfold mentioned in Hm. rewrite E in Hm. cbn in Hm.
    rewrite !in_app_iff in Hm.
    apply unreachable_runTask; [tauto |].
    split; [exact Hd |]. unfold mentioned. cbn. rewrite in_app_iff. tauto.
Qed.

Lemma unreachable_exec (es : list Event) (w : World) :
  Unreachable d w -> Unreachable d (exec es w).
Proof.
  revert w. induction es as [| e es IH]; intros w Hw; [exact Hw |].
  rewrite exec_cons. apply IH. now apply unreachable_step.
Qed.
End WithLayout.
End Unreachable.

(** *** The promises that chains and callbacks settle exist *)

Lemma bounded_weaken (xs ys : list PromiseRef) (w : World) :
  incl xs ys -> Bounded ys w -> Bounded xs w.
Proof.
  unfold Bounded. rewrite !Forall_forall. intros Hincl H a Ha.
  apply H. apply in_app_or in Ha. apply in_or_app.
  destruct Ha as [Ha | Ha]; [left; now apply Hincl | now right].
Qed.

Lemma bounded_grows (xs : list PromiseRef) (w w' : World) :
  (List.length (promises w) <= List.length (promises w'))%nat ->
  incl (mentioned w') (mentioned w ++ xs) ->
  keeps (Bounded xs) w w'.
Proof.
  unfold keeps, Bounded. rewrite !Forall_forall. intros Hlen Hincl H a Ha.
  apply Nat.lt_le_trans with (List.length (promises w)); [| exact Hlen].
  apply H. apply in_app_or in Ha. apply in_or_app.
  destruct Ha as [Ha | Ha]; [now left |].
  apply Hincl in Ha. apply in_app_or in Ha. tauto.
Qed.

Section Bounded.
Variable xs : list PromiseRef.

Lemma bounded_newPromise (ext : bool) : stable (keeps (Bounded xs)) (newPromise ext).
Proof.
  intros w. apply bounded_grows.
  - cbn. rewrite length_app. lia.
  - rewrite newPromise_mentioned. apply incl_appl, incl_refl.
Qed.

Lemma bounded_settle (p : PromiseRef) (s : Settlement) :
  stable (keeps (Bounded xs)) (settle p s).
Proof.
  intros w. destruct (settle_mentioned p s w) as [Hincl Hlen]. apply bounded_grows.
  - now rewrite Hlen.
  - apply incl_appl. exact Hincl.
Qed.

Lemma bounded_subscribe (p : PromiseRef) (r : Reaction) :
  incl (deferredOf r) xs -> stable (keeps (Bounded xs)) (subscribe p r).
Proof.
  intros Hr w. destruct (subscribe_mentioned p r w) as [Hincl Hlen]. apply bounded_grows.
  - now rewrite Hlen.
  - intros a Ha. apply Hincl in Ha. apply in_app_or in Ha. apply in_or_app.
    destruct Ha as [Ha | Ha]; [now left | right; now apply Hr].
Qed.

Lemma bounded_enqueue (t : Task) :
  incl (deferredOfTask t) xs -> stable (keeps (Bounded xs)) (enqueue t).
Proof.
  intros Ht w. apply bounded_grows; [reflexivity |].
  unfold mentioned. cbn. rewrite flat_map_app. cbn. rewrite app_nil_r.
  intros a Ha. rewrite !in_app_iff in *.
  destruct Ha as [Ha | [Ha | Ha]]; [tauto | tauto | right; now apply Ht].
Qed.

Lemma bounded_untouched (f : World -> World) :
  (forall w, promises (f w) = promises w) -> (forall w, tasks (f w) = tasks w) ->
  stable (keeps (Bounded xs)) (modify f).
Proof.
  intros Hp Ht w. apply bounded_grows; cbn.
  - now rewrite Hp.
  - unfold mentioned. rewrite Hp, Ht. apply incl_appl, incl_refl.
Qed.
End Bounded.

Lemma bounded_fresh {B} (xs : list PromiseRef) (ext : bool) (k : PromiseRef -> M B) :
  (forall a, stable (keeps (Bounded (a :: xs))) (k a)) ->
  stable (keeps (Bounded xs)) (bind (newPromise ext) k).
Proof.
  intros Hk w Hw. unfold bind. cbn.
  eapply bounded_weaken; [apply incl_tl, incl_refl |].
  apply Hk. unfold Bounded in *. cbn [app]. constructor.
  - cbn. rewrite length_app. cbn. lia.
  - change (Bounded xs (snd (newPromise ext w))). now apply bounded_newPromise.
Qed.

Ltac bounded_structure :=
  repeat match goal with
    | |- stable _ (ret _) => apply stable_ret; typeclasses eauto
    | |- stable _ (throw _) => apply stable_throw; typeclasses eauto
    | |- stable _ (gets _) => apply stable_gets; typeclasses eauto
    | |- stable _ (bind (newPromise _) _) => apply bounded_fresh; intros ?
    | |- stable _ (newPromise _) => apply bounded_newPromise
    | |- stable _ (bind _ _) => apply stable_bind; [typeclasses eauto | | intros ?]
    | |- stable _ (forEach _ _) => apply stable_forEach; [typeclasses eauto | intros ?]
    | |- stable _ (settle _ _) => apply bounded_settle
    | |- stable _ (subscribe _ _) =>
        apply bounded_subscribe; solve [intros ? ?; cbn in *; intuition]
    | |- stable _ (enqueue _) =>
        apply bounded_enqueue; solve [intros ? ?; cbn in *; intuition]
    | |- stable _ (modify _) => apply bounded_untouched; reflexivity
    | |- stable _ (match ?x with _ => _ end) => destruct x
    end.

Section WithLayout.
Context {L : Layout}.

Lemma bounded_deregisterListener (xs : list PromiseRef) (k : string) :
  stable (keeps (Bounded xs)) (deregisterListener k).
Proof.
  unfold deregisterListener, deregisterListenerOnTarget, resolve, deferredPromise,
    getActiveRegistrations, mapEntries, mapDelete, removeEventHandler, invoke, perform,
    deleteActiveRegistrations, deleteUserKeyInformation.
  bounded_structure.
Qed.

Lemma bounded_runTask (t : Task) :
  stable (keeps (Bounded (deferredOfTask t))) (runTask t).
Proof.
  destruct t; cbn [runTask deferredOfTask] in *;
    unfold registerStore, registerResolve, registerCatch, invokeRegistrationThen,
      invokeRegistrationCatch, reregisterThen, reregisterCatch,
      deregisterOnTargetCatch, deregisterListenerOnTarget, resolve, reject,
      getUserKeyInformation, invoke, perform, mapSet;
    bounded_structure.
  apply bounded_deregisterListener.
Qed.

Lemma bounded_step (e : Event) : stable (keeps (Bounded [])) (step e).
Proof.
  destruct e as [cd h cs uuid | k | c | c | p o | c |]; cbn [step].
  - unfold registerListener, deferredPromise, isSmart, getActiveRegistrations,
      invokeUrgent, mapHas, newMap, perform, setActiveRegistrations,
      setUserKeyInformation.
    bounded_structure.
    intros w. apply (bounded_untouched _ (fun w => withHeap (heap w ++ [[]]) w));
      reflexivity.
  - bounded_structure. apply bounded_deregisterListener.
  - unfold onConnectionAdded, reregisterListenersOnConnection,
      invokeRegistrationFromRecord, deferredPromise, getActiveRegistrations,
      getUserKeyInformation, mapGet, mapHas, resolve, invokeUrgent, perform.
    bounded_structure.
  - unfold onConnectionRemoved, removeRegistrationsOnConnection, mapGet,
      removeEventHandler, perform.
    bounded_structure.
  - intros w Hw. unfold completeInvocation.
    destruct (nth_error (promises w) p) as [cell |] eqn:E; [| exact Hw].
    destruct (ofInvocation cell) eqn:Eext; [| exact Hw].
    now apply bounded_settle.
  - apply bounded_untouched; reflexivity.
  - intros w Hw. unfold tick. destruct (tasks w) as [| t rest] eqn:E; [exact Hw |].
    eapply bounded_weaken; [apply incl_nil_l |].
    apply bounded_runTask.
    unfold Bounded, mentioned in *. rewrite E in Hw. cbn in *.
    rewrite Forall_forall in *. intros a Ha. apply Hw.
    rewrite !in_app_iff in *. tauto.
Qed.

Lemma bounded_exec (es : list Event) (w : World) :
  Bounded [] w -> Bounded [] (exec es w).
Proof.
  revert w. induction es as [| e es IH]; intros w Hw; [exact Hw |].
  rewrite exec_cons. apply IH. now apply bounded_step.
Qed.

Lemma registerListener_nowhere (cd : ListenerMessageCodec) (h : ClientMessageHandler)
      (uuid : string) (w : World) :
  exists s hp,
    registerListener cd h [] uuid w
    = (Returns (List.length (promises w)),
       mkWorld s hp (promises w ++ [mkCell None [] false]) (tasks w) (trace w)
         (closed w)).
Proof.
  destruct (JsMap.get String.eqb (activeRegistrations (this w)) uuid) as [l |] eqn:E.
  - rewrite (registerListener_again cd h [] uuid l w E). cbn. rewrite app_nil_r.
    eexists _, _. reflexivity.
  - rewrite (registerListener_run cd h [] uuid w E). cbn. rewrite app_nil_r.
    eexists _, _. reflexivity.
Qed.

(** X16.  In every run from the constructor: [registerListener] called with no
    active connection issues no request and returns a promise that nothing
    settles.  Whatever happens afterwards (connections added and removed,
    requests answered or failed, further calls), the promise stays
    pending. *)
Theorem registerListener_without_connections_stays_pending
        (smartRouting : bool) (before : list Event) (codec : ListenerMessageCodec)
        (listenerHandlerFn : ClientMessageHandler) (uuid : string) :
  exists deferred w',
    registerListener codec listenerHandlerFn [] uuid (exec before (create smartRouting))
    = (Returns deferred, w')
    /\ callsDuring (registerListener codec listenerHandlerFn [] uuid)
         (exec before (create smartRouting)) = []
    /\ forall after, outcome (exec after w') deferred = None.
Proof.
  assert (Hb : Bounded [] (exec before (create smartRouting))).
  { apply bounded_exec. constructor. }
  revert Hb. generalize (exec before (create smartRouting)) as w. intros w Hb.
  destruct (registerListener_nowhere codec listenerHandlerFn uuid w) as (s & hp & Hrun).
  eexists _, _. split; [exact Hrun |]. split.
  - erewrite (callsDuring_app _ w []) by (rewrite Hrun; cbn; now rewrite app_nil_r).
    reflexivity.
  - intros after.
    match goal with |- outcome (exec after ?w1) ?d = None =>
      assert (Hu : Unreachable d w1)
    end.
    { split.
      - exists []. cbn. now rewrite nth_error_app2, Nat.sub_diag by lia.
      - unfold Bounded in Hb. cbn [app] in Hb. rewrite Forall_forall in Hb.
        unfold mentioned in *. cbn [promises tasks]. rewrite chains_app. cbn.
        rewrite app_nil_r. intros Hin. specialize (Hb _ Hin). lia. }
    destruct (unreachable_exec _ after _ Hu) as [[rs Hd] _].
    unfold outcome. now rewrite Hd.
Qed.
End WithLayout.
End NeverSettles.

(** ** ListenerService: every request of [registerListener] is answered *)

Module AllAnswered.
Import ListenerService ListenerTerms ListenerState Answers ListFacts JsMapFacts
       ListenerFacts Registration AttemptsUnique DeregistrationOutcome Reregistration
       CallbackChains.

Lemma replaceNth_unchanged {A} (n : nat) (a : A) (l : list A) :
  nth_error l n = Some a -> replaceNth n a l = l.
Proof.
  intros H. destruct (replaceNth_split n a a l H) as [H1 H2]. now rewrite H2, <- H1.
Qed.

Lemma replaceNth_app_left {A} (n : nat) (a : A) (l r : list A) :
  (n < List.length l)%nat -> replaceNth n a (l ++ r) = replaceNth n a l ++ r.
Proof.
  intros H. unfold replaceNth.
  rewrite firstn_app, skipn_app.
  replace (n - List.length l)%nat with 0%nat by lia. cbn [firstn skipn].
  rewrite app_nil_r.
  destruct (skipn n l) as [| x rest] eqn:E.
  - apply (f_equal (@List.length A)) in E. rewrite length_skipn in E. cbn in E. lia.
  - cbn. now rewrite <- app_assoc.
Qed.

Lemma storeAll_cons (codec : ListenerMessageCodec) (c : ClientConnection) (a : Answer)
      (answered : list (ClientConnection * Answer)) (m : RegistrationMap) :
  storeAll codec ((c, a) :: answered) m
  = storeAll codec answered (JsMap.set sameConnection m c (registrationOf codec c a)).
Proof. reflexivity. Qed.

Lemma storeAll_get_other (codec : ListenerMessageCodec)
      (answered : list (ClientConnection * Answer)) (m : RegistrationMap)
      (c : ClientConnection) :
  ~ In (connectionId c) (map (fun ca => connectionId (fst ca)) answered) ->
  JsMap.get sameConnection (storeAll codec answered m) c = JsMap.get sameConnection m c.
Proof.
  revert m. induction answered as [| [c0 a0] answered IH]; intros m Hc; [reflexivity |].
  rewrite storeAll_cons.
  cbn in Hc. rewrite IH by tauto.
  apply get_set_otherConnection. intros E. apply Hc. left. now symmetry.
Qed.

Lemma storeAll_get (codec : ListenerMessageCodec)
      (answered : list (ClientConnection * Answer)) (m : RegistrationMap) :
  NoDup (map (fun ca => connectionId (fst ca)) answered) ->
  Forall (fun ca =>
            JsMap.get sameConnection (storeAll codec answered m) (fst ca)
            = Some (registrationOf codec (fst ca) (snd ca))) answered.
Proof.
  revert m. induction answered as [| [c0 a0] answered IH]; intros m Hnd; [constructor |].
  inversion Hnd as [| ? ? Hc0 Hrest]; subst.
  rewrite storeAll_cons.
  constructor; [| now apply IH].
  cbn [fst snd]. rewrite storeAll_get_other by exact Hc0.
  apply get_set_sameConnection.
Qed.

Section WithLayout.
Context {L : Layout}.

(** Running the two callbacks that follow the answer to a request of
    [registerListener], whether or not its promise has settled before. *)
Lemma attempt_answered_run
      (v : World) (p d : PromiseRef) (userKey : string) (l : MapRef)
      (c : ClientConnection) (i : Invocation) (cd : ListenerMessageCodec)
      (sd : option Settlement) (a : Answer) :
  tasks v = [] ->
  nth_error (promises v) p = Some (mkCell None [OnRegister userKey l c i cd d] true) ->
  nth_error (promises v) d = Some (mkCell sd [] false) ->
  decodes cd a ->
  exists tr,
    exec [InvocationCompletes p (Returns (answerMessage a)); Tick; Tick] v
    = mkWorld (this v)
        (replaceNth l
           (JsMap.set sameConnection (nth l (heap v) []) c
              (registrationOf cd (connectionOf i) a))
           (heap v))
        (replaceNth d
           (mkCell (Some (match sd with
                          | Some s => s
                          | None => Returns (VString userKey)
                          end)) [] false)
           (replaceNth p
              (mkCell (Some (Returns (VMessage (answerMessage a))))
                 [OnRegister userKey l c i cd d] true)
              (promises v)))
        [] tr (closed v).
Proof.
  intros Htasks Hp Hd [Hcorr Hdecode].
  assert (Hne : p <> d) by (intros ->; rewrite Hp in Hd; discriminate).
  eexists.
  rewrite exec_cons. cbn [step].
  unfold completeInvocation. rewrite Hp. cbn [ofInvocation].
  unfold settle. rewrite Hp, Htasks. cbn [snd app map react].
  rewrite exec_cons. cbn [step].
  unfold tick. cbn [tasks withTasks withPromises runTask].
  unfold registerStore. rewrite Hcorr, Hdecode.
  unfold exec. cbn. unfold registerResolve, resolve, settle. cbn.
  rewrite nth_error_replaceNth_other by exact Hne. rewrite Hd.
  destruct sd as [s |]; cbn.
  - rewrite (replaceNth_unchanged d (mkCell (Some s) [] false))
      by (rewrite nth_error_replaceNth_other by exact Hne; exact Hd).
    reflexivity.
  - reflexivity.
Qed.

Lemma answers_run (userKey : string) (l : MapRef) (cd : ListenerMessageCodec)
      (h : ClientMessageHandler) (req : ClientMessage) (d : PromiseRef)
      (cs : list ClientConnection) (answers : list Answer) :
  Forall2 (fun _ a => decodes cd a) cs answers ->
  forall (v : World) (pre : list PromiseCell) (sd : option Settlement),
    tasks v = [] ->
    (l < List.length (heap v))%nat ->
    promises v = pre ++ map (attemptCell userKey l cd h req d) cs ->
    nth_error pre d = Some (mkCell sd [] false) ->
    exists pre' tr sd',
      exec (answerAll (List.length pre) (map answerMessage answers)) v
      = mkWorld (this v)
          (replaceNth l (storeAll cd (combine cs answers) (nth l (heap v) [])) (heap v))
          pre' [] tr (closed v)
      /\ nth_error pre' d = Some (mkCell sd' [] false)
      /\ sd' = match cs with
               | [] => sd
               | _ :: _ => Some (match sd with
                                 | Some s => s
                                 | None => Returns (VString userKey)
                                 end)
               end.
Proof.
  induction 1 as [| c a cs answers Ha Hrest IH]; intros v pre sd Htasks Hl Hps Hd.
  - cbn [map answerAll combine storeAll fold_left] in *. rewrite app_nil_r in Hps.
    exists pre, (trace v), sd. unfold exec. cbn [fold_left].
    rewrite replaceNth_same. split; [| split; [exact Hd | reflexivity]].
    destruct v. cbn in *. now subst.
  - cbn [map answerAll].
    change (InvocationCompletes (List.length pre) (Returns (answerMessage a))
              :: Tick :: Tick :: answerAll (S (List.length pre)) (map answerMessage answers))
      with ([InvocationCompletes (List.length pre) (Returns (answerMessage a)); Tick; Tick]
              ++ answerAll (S (List.length pre)) (map answerMessage answers)).
    rewrite exec_app.
    assert (Hdlt : (d < List.length pre)%nat) by (apply nth_error_Some; congruence).
    destruct (attempt_answered_run v (List.length pre) d userKey l c
                (registerInvocation req h c) cd sd a) as (tr1 & Hrun1); try assumption.
    { rewrite Hps. rewrite nth_error_app2, Nat.sub_diag by lia. reflexivity. }
    { rewrite Hps. rewrite nth_error_app1 by exact Hdlt. exact Hd. }
    rewrite Hrun1. clear Hrun1.
    set (sd1 := Some (match sd with Some s => s | None => Returns (VString userKey) end)).
    set (pre1 := replaceNth d (mkCell sd1 [] false) pre
                   ++ [mkCell (Some (Returns (VMessage (answerMessage a))))
                         [OnRegister userKey l c (registerInvocation req h c) cd d] true]).
    match goal with |- context [exec _ ?v1] =>
      destruct (IH v1 pre1 sd1) as (pre' & tr & sd' & Hrun & Hd' & Hsd')
    end.
    + reflexivity.
    + cbn [heap]. now rewrite replaceNth_length.
    + cbn [promises]. rewrite Hps. cbn [map].
      rewrite replaceNth_middle.
      rewrite replaceNth_app_left by exact Hdlt.
      subst pre1. now rewrite <- app_assoc.
    + subst pre1. rewrite nth_error_app1 by (rewrite replaceNth_length; exact Hdlt).
      now apply nth_error_replaceNth_same.
    + assert (Hlen : List.length pre1 = S (List.length pre)).
      { subst pre1. rewrite length_app, replaceNth_length. cbn. lia. }
      rewrite Hlen in Hrun. rewrite Hrun. cbn [this heap closed].
      exists pre', tr, sd'. split; [| split; [exact Hd' |]].
      * rewrite nth_replaceNth_same by exact Hl. rewrite replaceNth_twice.
        cbn [combine]. rewrite storeAll_cons. reflexivity.
      * rewrite Hsd'. subst sd1. now destruct cs.
Qed.

(** X11.  Once every request of a [registerListener] call has been answered, the
    key has one stored registration for each connection that was active at
    call time: under that connection, with the registration id and the
    correlation id of the answer received on it.  The promise of
    [registerListener] has resolved with the userKey, and no callback is
    left to run.  (The uuid is not in use, the connections are distinct,
    and the answers arrive in request order.) *)
Theorem all_answers_are_stored
        (w : World) (codec : ListenerMessageCodec) (listenerHandlerFn : ClientMessageHandler)
        (activeConnections : list ClientConnection) (uuid : string)
        (answers : list Answer) :
  tasks w = [] ->
  JsMap.get String.eqb (activeRegistrations (this w)) uuid = None ->
  NoDup (map connectionId activeConnections) ->
  Forall2 (fun _ a => decodes codec a) activeConnections answers ->
  Forall2 (fun c a =>
             storedOn
               (exec (RegisterListener codec listenerHandlerFn activeConnections uuid
                        :: answerAll (S (List.length (promises w)))
                             (map answerMessage answers)) w)
               uuid c
             = Some (registrationOf codec c a))
          activeConnections answers
  /\ (activeConnections <> [] ->
      outcome
        (exec (RegisterListener codec listenerHandlerFn activeConnections uuid
                 :: answerAll (S (List.length (promises w))) (map answerMessage answers)) w)
        (List.length (promises w))
      = Some (Returns (VString uuid)))
  /\ tasks
       (exec (RegisterListener codec listenerHandlerFn activeConnections uuid
                :: answerAll (S (List.length (promises w))) (map answerMessage answers)) w)
     = [].
Proof.
  intros Htasks Hnew Hnd Hanswers.
  rewrite exec_cons. cbn [step].
  erewrite bind_returns by (apply registerListener_run; exact Hnew). cbn [ret snd].
  match goal with |- context [exec _ ?v1] =>
    destruct (answers_run uuid (List.length (heap w)) codec listenerHandlerFn
                (encodeAddRequest codec (isSmartService (this w)))
                (List.length (promises w)) activeConnections answers Hanswers
                v1 (promises w ++ [mkCell None [] false]) None)
      as (pre' & tr & sd' & Hrun & Hd' & Hsd')
  end.
  - exact Htasks.
  - cbn [heap]. rewrite length_app. cbn. lia.
  - cbn [promises]. now rewrite <- app_assoc.
  - now rewrite nth_error_app2, Nat.sub_diag by lia.
  - replace (List.length (promises w ++ [mkCell None [] false]))
      with (S (List.length (promises w))) in Hrun by (rewrite length_app; cbn; lia).
    rewrite Hrun. clear Hrun. cbn [heap this tasks].
    split; [| split; [| reflexivity]].
    + unfold storedOn. cbn [this heap newTables activeRegistrations].
      rewrite get_set_same.
      rewrite nth_replaceNth_same by (rewrite length_app; cbn; lia).
      rewrite app_nth2, Nat.sub_diag by lia. cbn [nth].
      assert (Hall := storeAll_get codec (combine activeConnections answers) []).
      assert (Hids : map (fun ca : ClientConnection * Answer => connectionId (fst ca))
                       (combine activeConnections answers)
                     = map connectionId activeConnections).
      { clear -Hanswers. induction Hanswers; cbn; [reflexivity | now f_equal]. }
      rewrite Hids in Hall. specialize (Hall Hnd).
      generalize dependent (storeAll codec (combine activeConnections answers) []).
      intros stored Hall. clear -Hanswers Hall.
      induction Hanswers as [| c a cs answers Ha Hrest IH]; [constructor |].
      cbn [combine] in Hall. inversion Hall; subst. constructor; auto.
    + intros Hne. unfold outcome. cbn [promises]. rewrite Hd'. cbn.
      rewrite Hsd'. now destruct activeConnections.
Qed.
End WithLayout.

Import Sample.

Lemma all_answers_are_stored_witness :
  tasks fresh = []
  /\ NoDup (map connectionId [c1; c2])
  /\ Forall2 (fun _ a => decodes listenerCodec a) [c1; c2]
       [mkAnswer (message 11) 11 "server-id"; mkAnswer (message 12) 12 "server-id"]
  /\ Forall2 (fun c a =>
                storedOn
                  (exec (RegisterListener listenerCodec 7%nat [c1; c2] "k"
                           :: answerAll 1%nat [message 11; message 12]) fresh)
                  "k" c
                = Some (registrationOf listenerCodec c a))
             [c1; c2]
             [mkAnswer (message 11) 11 "server-id"; mkAnswer (message 12) 12 "server-id"].
Proof.
  assert (H1 : tasks fresh = []) by reflexivity.
  assert (H2 : JsMap.get String.eqb (activeRegistrations (this fresh)) "k" = None)
    by reflexivity.
  assert (H3 : NoDup (map connectionId [c1; c2])).
  { cbn. repeat constructor; cbn; intuition discriminate. }
  assert (H4 : Forall2 (fun _ a => decodes listenerCodec a) [c1; c2]
                 [mkAnswer (message 11) 11 "server-id";
                  mkAnswer (message 12) 12 "server-id"]).
  { repeat constructor. }
  split; [exact H1 |]. split; [exact H3 |]. split; [exact H4 |].
  exact (proj1 (all_answers_are_stored fresh listenerCodec 7%nat [c1; c2] "k"
                  [mkAnswer (message 11) 11 "server-id";
                   mkAnswer (message 12) 12 "server-id"] H1 H2 H3 H4)).
Defined.
End AllAnswered.

(** ** ListenerService: listeners do not disturb each other *)

Module OtherListeners.
Import ListenerService ListenerTerms ListenerState ListFacts JsMapFacts
       ListenerFacts Registration OneRegistration ConsistentTables DeregistrationOutcome
       Reregistration.

Lemma get_delete_other {V} (m : @JsMap.t string V) (k k' : string) :
  k' <> k ->
  JsMap.get String.eqb (JsMap.delete String.eqb m k) k' = JsMap.get String.eqb m k'.
Proof.
  intros Hne. unfold JsMap.delete.
  induction m as [| [k0 v0] m IH]; cbn; [reflexivity |].
  destruct (String.eqb_spec k0 k) as [-> | Hk]; cbn.
  - destruct (String.eqb_spec k k'); [congruence | exact IH].
  - destruct (String.eqb k0 k'); [reflexivity | exact IH].
Qed.

Lemma unshared_entry {K V} (m : list (K * V)) (k k' : K) (v : V) :
  NoDup (map snd m) -> In (k, v) m -> In (k', v) m -> k = k'.
Proof.
  induction m as [| [k0 v0] m IH]; cbn; [contradiction |].
  intros Hnd H1 H2. inversion Hnd as [| ? ? Hv Hrest]; subst.
  destruct H1 as [E1 | H1]; destruct H2 as [E2 | H2].
  - congruence.
  - injection E1 as -> ->. exfalso. apply Hv.
    change v with (snd (k', v)). now apply in_map.
  - injection E2 as -> ->. exfalso. apply Hv.
    change v with (snd (k, v)). now apply in_map.
  - auto.
Qed.

Section WithLayout.
Context {L : Layout}.

Lemma deregisterListener_other_key (w : World) (userKey other : string)
      (c : ClientConnection) :
  Consistent w -> other <> userKey ->
  storedOn (snd (deregisterListener userKey w)) other c = storedOn w other c.
Proof.
  intros Hw Hne.
  destruct (JsMap.get String.eqb (activeRegistrations (this w)) userKey) as [l |] eqn:E.
  - unfold storedOn. rewrite (deregisterListener_heap userKey l w E).
    destruct (deregisterListener_run userKey l w E) as (h & cells & d & Hrun & _).
    rewrite Hrun. cbn [snd this unlink activeRegistrations].
    rewrite get_delete_other by exact Hne.
    destruct (JsMap.get String.eqb (activeRegistrations (this w)) other) as [l' |] eqn:E';
      [| reflexivity].
    rewrite nth_replaceNth_other; [reflexivity |].
    intros <-. apply Hne.
    apply (unshared_entry (activeRegistrations (this w)) other userKey l).
    + apply (maps_unshared w Hw).
    + now apply get_entry.
    + now apply get_entry.
  - now rewrite (deregisterListener_absent userKey w E).
Qed.

(** X5.  In every run from the constructor, [deregisterListener(userKey)]
    leaves the registrations of the other listeners where they are: for
    any other key and any connection, the stored registration is the same
    before and after. *)
Theorem deregisterListener_leaves_other_listeners
        (smartRouting : bool) (es : list Event) (userKey other : string)
        (c : ClientConnection) :
  other <> userKey ->
  storedOn (snd (deregisterListener userKey (exec es (create smartRouting)))) other c
  = storedOn (exec es (create smartRouting)) other c.
Proof.
  intros Hne. apply deregisterListener_other_key; [| exact Hne].
  apply exec_consistent, create_consistent.
Qed.
End WithLayout.

Import Sample Scenario.

Lemma deregisterListener_leaves_other_listeners_witness :
  "k2" <> "k"
  /\ storedOn (exec twoListeners (create true)) "k2" c1
     = Some (mkClientEventRegistration "server-id" 13 c1 listenerCodec)
  /\ storedOn (snd (deregisterListener "k" (exec twoListeners (create true)))) "k2" c1
     = storedOn (exec twoListeners (create true)) "k2" c1.
Proof.
  assert (H : "k2" <> "k") by discriminate.
  split; [exact H |]. split; [vm_compute; reflexivity |].
  exact (deregisterListener_leaves_other_listeners true twoListeners "k" "k2" c1 H).
Defined.
End OtherListeners.

(** ** ListenerService: after a deregistration, and what a registration leaves alone *)

Module AfterDeregistration.
Import ListenerService ListenerTerms ListenerState ListFacts JsMapFacts
       ListenerFacts Registration OneRegistration ConsistentTables CallbackChains.

Section WithLayout.
Context {L : Layout}.

Lemma deregisterListener_inactive (userKey : string) (w : World) :
  JsMap.get String.eqb
    (activeRegistrations (this (snd (step (DeregisterListener userKey) w)))) userKey
  = None.
Proof.
  cbn [step].
  destruct (JsMap.get String.eqb (activeRegistrations (this w)) userKey) as [l |] eqn:E.
  - destruct (deregisterListener_run userKey l w E) as (h & cells & d & Hrun & _).
    erewrite bind_returns by exact Hrun. cbn. apply unlink_forgets.
  - erewrite bind_returns by (apply deregisterListener_absent; exact E).
    cbn. exact E.
Qed.

Lemma inactive_forgotten (w : World) (k : string) :
  Consistent w ->
  JsMap.get String.eqb (activeRegistrations (this w)) k = None <-> forgotten k (this w).
Proof.
  intros Hw. unfold forgotten. rewrite !get_none_keys, (same_keys w Hw). reflexivity.
Qed.

(** X22.  A deregistered listener does not follow later connections.  In a
    run from the constructor, after [deregisterListener(userKey)] and
    whatever happens next short of [registerListener] drawing the same
    uuid again, [onConnectionAdded(connection)] issues no register request
    for [userKey]: none of the callback chains it attaches belongs to the
    key. *)
Theorem deregistered_listener_is_not_reregistered
        (smartRouting : bool) (before after : list Event) (userKey : string)
        (connection : ClientConnection) :
  Forall (fun e => ~ draws userKey e) after ->
  exists cells,
    promises (snd (onConnectionAdded connection
                     (exec (before ++ DeregisterListener userKey :: after)
                        (create smartRouting))))
    = promises (exec (before ++ DeregisterListener userKey :: after)
                  (create smartRouting))
      ++ cells
    /\ forall connectionId, ~ In (userKey, connectionId) (attempts cells).
Proof.
  intros Hafter.
  set (w := exec (before ++ DeregisterListener userKey :: after) (create smartRouting)).
  assert (Hw : Consistent w) by apply exec_consistent, create_consistent.
  assert (Hk : JsMap.get String.eqb (activeRegistrations (this w)) userKey = None).
  { apply (inactive_forgotten w userKey Hw).
    unfold w. rewrite exec_app, exec_cons.
    apply exec_staysForgotten; [exact Hafter |].
    apply inactive_forgotten.
    - change (Consistent (exec [DeregisterListener userKey]
                            (exec before (create smartRouting)))).
      apply exec_consistent, exec_consistent, create_consistent.
    - apply deregisterListener_inactive. }
  change (onConnectionAdded connection w)
    with (forEach (activeRegistrations (this w)) (reregisterOne connection) w).
  destruct (reregister_loop connection (activeRegistrations (this w)) w)
    as (res & cells & ts & d & invs & Hrun & _ & Hall & _).
  rewrite Hrun. exists cells. split; [reflexivity |].
  intros cid Hin.
  apply get_none_keys in Hk. apply Hk.
  assert (Hlack : Forall (lacking (heap w) connection (activeRegistrations (this w)))
                    (attempts cells)).
  { clear -Hall. induction Hall as [| i a invs' as' [_ Ha] _ IH]; constructor; auto. }
  rewrite Forall_forall in Hlack. destruct (Hlack _ Hin) as (_ & l & Hl & _).
  cbn [fst] in Hl. change userKey with (fst (userKey, l)). now apply in_map.
Qed.

(** X23.  [registerListener] by itself stores no registration.  In every run
    from the constructor, when the call returns, every key has on every
    connection the stored registration it had before; the new listener has
    none, on any connection, until answers arrive. *)
Theorem registerListener_stores_nothing_yet
        (smartRouting : bool) (es : list Event) (codec : ListenerMessageCodec)
        (listenerHandlerFunc : ClientMessageHandler)
        (activeConnections : list ClientConnection) (uuid userKey : string)
        (connection : ClientConnection) :
  storedOn (snd (registerListener codec listenerHandlerFunc activeConnections uuid
                   (exec es (create smartRouting)))) userKey connection
  = storedOn (exec es (create smartRouting)) userKey connection.
Proof.
  set (w := exec es (create smartRouting)).
  assert (Hw : Consistent w) by apply exec_consistent, create_consistent.
  destruct (JsMap.get String.eqb (activeRegistrations (this w)) uuid) as [l |] eqn:E.
  - rewrite (registerListener_again codec listenerHandlerFunc activeConnections uuid l w E).
    reflexivity.
  - rewrite (registerListener_run codec listenerHandlerFunc activeConnections uuid w E).
    unfold storedOn. cbn [snd this heap newTables activeRegistrations].
    destruct (String.eqb_spec uuid userKey) as [<- | Hne].
    + rewrite Reregistration.get_set_same, E.
      rewrite app_nth2, Nat.sub_diag by lia. reflexivity.
    + rewrite get_set_other by exact Hne.
      destruct (JsMap.get String.eqb (activeRegistrations (this w)) userKey)
        as [l' |] eqn:E'; [| reflexivity].
      rewrite app_nth1; [reflexivity |].
      apply (maps_allocated w Hw userKey). now apply get_entry.
Qed.
End WithLayout.

Import Sample.

Lemma deregistered_listener_is_not_reregistered_witness :
  Forall (fun e => ~ draws "k" e) [ConnectionRemoved c1; Tick]
  /\ exists cells,
    promises (snd (onConnectionAdded c2
                     (exec ([ConnectionAdded c1;
                             RegisterListener listenerCodec 7%nat [c1] "k";
                             InvocationCompletes 1%nat (Returns (message 11)); Tick; Tick]
                            ++ DeregisterListener "k" :: [ConnectionRemoved c1; Tick])
                        (create true))))
    = promises (exec ([ConnectionAdded c1;
                       RegisterListener listenerCodec 7%nat [c1] "k";
                       InvocationCompletes 1%nat (Returns (message 11)); Tick; Tick]
                      ++ DeregisterListener "k" :: [ConnectionRemoved c1; Tick])
                  (create true))
      ++ cells
    /\ forall connectionId, ~ In ("k", connectionId) (attempts cells).
Proof.
  assert (H : Forall (fun e => ~ draws "k" e) [ConnectionRemoved c1; Tick]).
  { repeat constructor; intros []. }
  split; [exact H |].
  exact (deregistered_listener_is_not_reregistered true _ _ "k" c2 H).
Defined.
End AfterDeregistration.

(** ** ListenerService: the requests handed to the Invocation Service *)

Module CallShapeFacts.
Import ListenerService ListenerTerms ListenerState PromiseReach CallShapes Stability
       ListenerFrames ListFacts JsMapFacts ListenerFacts NeverSettles.

Lemma shaped_same (f : World -> World) :
  (forall w, trace (f w) = trace w) -> stable (keeps allShaped) (modify f).
Proof. intros H w Hw. unfold allShaped in *. cbn. now rewrite H. Qed.

Lemma shaped_untouched {A} (m : M A) :
  (forall w, trace (snd (m w)) = trace w) -> stable (keeps allShaped) m.
Proof. intros H w Hw. unfold allShaped in *. now rewrite H. Qed.

Lemma shaped_perform (c : Call) : shaped c -> stable (keeps allShaped) (perform c).
Proof.
  intros Hc w Hw. unfold allShaped in *. cbn.
  apply Forall_app. split; [exact Hw |]. constructor; [exact Hc | constructor].
Qed.

Ltac shaped_primitives :=
  try solve [ apply shaped_untouched; intros; cbn; auto with keeps
            | apply shaped_same; intros; reflexivity
            | apply shaped_perform; cbn; try split; try reflexivity; discriminate ].

Section WithLayout.
Context {L : Layout}.

Lemma deregisterListenerOnTarget_shaped (userKey : string)
      (eventRegistration : ClientEventRegistration) :
  stable (keeps allShaped) (deregisterListenerOnTarget userKey eventRegistration).
Proof.
  unfold deregisterListenerOnTarget, invoke. frame_structure; shaped_primitives.
Qed.

Lemma deregisterListener_shaped (userKey : string) :
  stable (keeps allShaped) (deregisterListener userKey).
Proof.
  unfold deregisterListener, deferredPromise, resolve, mapEntries, removeEventHandler.
  frame_structure; shaped_primitives.
  all: try apply deregisterListenerOnTarget_shaped.
Qed.

Lemma runTask_shaped (t : Task) : stable (keeps allShaped) (runTask t).
Proof.
  destruct t; cbn [runTask];
    unfold registerStore, registerResolve, registerCatch, invokeRegistrationThen,
      invokeRegistrationCatch, reregisterThen, reregisterCatch,
      deregisterOnTargetCatch, resolve, reject, getUserKeyInformation;
    frame_structure; shaped_primitives.
  all: try apply deregisterListener_shaped.
  all: try apply deregisterListenerOnTarget_shaped.
Qed.

Lemma step_shaped (e : Event) : stable (keeps allShaped) (step e).
Proof.
  destruct e as [cd h cs uuid | k | c | c | p o | c |]; cbn [step].
  - unfold registerListener, deferredPromise, getActiveRegistrations, newMap,
      setActiveRegistrations, setUserKeyInformation, mapHas, invokeUrgent.
    frame_structure; shaped_primitives.
  - frame_structure. apply deregisterListener_shaped.
  - unfold onConnectionAdded, reregisterListenersOnConnection,
      invokeRegistrationFromRecord, deferredPromise, getUserKeyInformation, mapGet,
      mapHas, resolve, invokeUrgent.
    frame_structure; shaped_primitives.
  - unfold onConnectionRemoved, removeRegistrationsOnConnection, mapGet,
      removeEventHandler.
    frame_structure; shaped_primitives.
  - intros w. unfold completeInvocation.
    destruct (nth_error (promises w) p) as [c |]; [| reflexivity].
    destruct (ofInvocation c); [| reflexivity].
    apply (shaped_untouched (settle p _)). apply settle_trace.
  - shaped_primitives.
  - intros w. unfold tick. destruct (tasks w) as [| t rest]; [reflexivity |].
    intros Hw. apply (runTask_shaped t (withTasks rest w)). exact Hw.
Qed.

(** X24.  In every run from the constructor, the service hands the
    Invocation Service requests of two shapes only: through [invokeUrgent]
    an invocation with its event handler set and no third constructor
    argument (the register requests of [registerListener] and
    [invokeRegistrationFromRecord]); through [invoke] an invocation
    without handler and with [Number.MAX_SAFE_INTEGER] as third
    constructor argument (the remove requests of
    [deregisterListenerOnTarget]). *)
Theorem requests_have_two_shapes (smartRouting : bool) (es : list Event) :
  Forall (fun o => shaped (call o)) (trace (exec es (create smartRouting))).
Proof.
  assert (H : forall w, allShaped w -> allShaped (exec es w)).
  { induction es as [| e es IH]; intros w Hw; [exact Hw |].
    rewrite exec_cons. apply IH. now apply step_shaped. }
  apply (H (create smartRouting)). constructor.
Qed.
End WithLayout.
End CallShapeFacts.
